(** * Streaming chat: the server's event generator and the client's reducer

A shallow embedding of the streaming part of the chat application:

- the server's [generate_chat_responses] generator (FastAPI side), which
  turns the events of the agent graph into server-sent events;
- the page's [handleSubmit] and the [onmessage] / [onerror] handlers of
  the [EventSource] it opens (the client reducer);
- the rendering of a message in [MessageArea] and of its search panel in
  [SearchStages];
- the response of [chat_stream] as the browser's [EventSource] reads it,
  the nodes of the agent graph, and the input bar.

Text is represented by its sequence of UTF-16 code units, the way the
browser holds it.  The replacements the server performs only involve
ASCII characters, and act on that representation exactly as they act on
Python's code points. *)

From Stdlib Require Import Ascii String.
From Stdlib Require Import List NArith ZArith Bool Lia.
From Stdlib Require Import Sorted.
Import ListNotations.

Set Warnings "-register-all".

(** ** Text *)

Definition text := list N.

Definition str (s : string) : text :=
  map N_of_ascii (list_ascii_of_string s).
Arguments str s%_string.

Fixpoint text_eqb (a b : text) : bool :=
  match a, b with
  | [], [] => true
  | x :: a', y :: b' => N.eqb x y && text_eqb a' b'
  | _, _ => false
  end.

Definition is_empty (t : text) : bool :=
  match t with [] => true | _ :: _ => false end.

Module Chr.

Local Open Scope N_scope.
Definition tab : N := 9.
Definition lf : N := 10.
Definition cr : N := 13.
Definition space : N := 32.
Definition dquote : N := 34.
Definition squote : N := 39.
Definition plus : N := 43.
Definition comma : N := 44.
Definition minus : N := 45.
Definition dot : N := 46.
Definition slash : N := 47.
Definition zero : N := 48.
Definition colon : N := 58.
Definition lbracket : N := 91.
Definition backslash : N := 92.
Definition rbracket : N := 93.
Definition lbrace : N := 123.
Definition rbrace : N := 125.

End Chr.

(** ** JSON values and [JSON.parse]

The reducer reads every event through the browser's [JSON.parse].  The
parser below follows the JSON grammar (ECMA-404): insignificant white
space is space, tab, line feed and carriage return; a string may not hold
a raw quote, backslash or control character; the escapes are the eight
two-character ones and [\uXXXX]; a number keeps its lexeme. *)

#[local] Unset Elimination Schemes.
Inductive json : Type :=
| JNull
| JBool (b : bool)
| JNumber (lexeme : text)
| JString (s : text)
| JArray (items : list json)
| JObject (members : list (text * json)).

#[local] Set Elimination Schemes.

(** A value of the page: a JSON value or [undefined]. *)
Definition jsval := option json.
Definition undefined : jsval := None.

Module JSON.

Local Open Scope N_scope.

Inductive parsed (A : Type) : Type :=
| Ok (a : A) (rest : text)
| SyntaxError
| OutOfFuel.
Arguments Ok {A} a rest.
Arguments SyntaxError {A}.
Arguments OutOfFuel {A}.

Definition is_ws (c : N) : bool :=
  (c =? Chr.space) || (c =? Chr.tab) || (c =? Chr.lf) || (c =? Chr.cr).

Fixpoint skip_ws (s : text) : text :=
  match s with
  | c :: r => if is_ws c then skip_ws r else s
  | [] => []
  end.

Definition is_digit (c : N) : bool := (48 <=? c) && (c <=? 57).

Definition hex_value (c : N) : option N :=
  if is_digit c then Some (c - 48)
  else if (97 <=? c) && (c <=? 102) then Some (c - 87)
  else if (65 <=? c) && (c <=? 70) then Some (c - 55)
  else None.

Definition hex4 (a b c d : N) : option N :=
  match hex_value a, hex_value b, hex_value c, hex_value d with
  | Some x, Some y, Some z, Some w => Some (((x * 16 + y) * 16 + z) * 16 + w)
  | _, _, _, _ => None
  end.

(** The character a two-character escape stands for. *)
Definition unescape (e : N) : option N :=
  if e =? Chr.dquote then Some Chr.dquote
  else if e =? Chr.backslash then Some Chr.backslash
  else if e =? Chr.slash then Some Chr.slash
  else if e =? 98 then Some 8          (* \b *)
  else if e =? 102 then Some 12        (* \f *)
  else if e =? 110 then Some Chr.lf    (* \n *)
  else if e =? 114 then Some Chr.cr    (* \r *)
  else if e =? 116 then Some Chr.tab   (* \t *)
  else None.

(** The characters of a string, read after its opening quote, and what
    follows the closing quote. *)
Fixpoint scan_string (s : text) : option (text * text) :=
  match s with
  | [] => None
  | c :: s1 =>
    if c =? Chr.dquote then Some ([], s1)
    else if c =? Chr.backslash then
      match s1 with
      | [] => None
      | e :: s2 =>
        if e =? 117 then                (* \uXXXX *)
          match s2 with
          | h1 :: h2 :: h3 :: h4 :: s6 =>
            match hex4 h1 h2 h3 h4, scan_string s6 with
            | Some u, Some (body, rest) => Some (u :: body, rest)
            | _, _ => None
            end
          | _ => None
          end
        else
          match unescape e, scan_string s2 with
          | Some u, Some (body, rest) => Some (u :: body, rest)
          | _, _ => None
          end
      end
    else if c <? 32 then None
    else
      match scan_string s1 with
      | Some (body, rest) => Some (c :: body, rest)
      | None => None
      end
  end.

Fixpoint span_digits (s : text) : text * text :=
  match s with
  | c :: r =>
    if is_digit c then let (ds, r') := span_digits r in (c :: ds, r')
    else ([], s)
  | [] => ([], [])
  end.

(** One or more digits. *)
Definition digits1 (s : text) : option (text * text) :=
  match span_digits s with
  | ([], _) => None
  | (ds, r) => Some (ds, r)
  end.

Definition scan_int (s : text) : option (text * text) :=
  match s with
  | c :: r =>
    if c =? Chr.zero then Some ([c], r)
    else if is_digit c then let (ds, r') := span_digits r in Some (c :: ds, r')
    else None
  | [] => None
  end.

Definition scan_frac (s : text) : option (text * text) :=
  match s with
  | c :: r =>
    if c =? Chr.dot then
      match digits1 r with
      | Some (ds, r') => Some (c :: ds, r')
      | None => None
      end
    else Some ([], s)
  | [] => Some ([], [])
  end.

Definition scan_exp (s : text) : option (text * text) :=
  match s with
  | c :: r =>
    if (c =? 101) || (c =? 69) then
      let (sign, r1) :=
        match r with
        | g :: r0 =>
          if (g =? Chr.plus) || (g =? Chr.minus) then ([g], r0) else ([], r)
        | [] => ([], r)
        end in
      match digits1 r1 with
      | Some (ds, r') => Some (c :: sign ++ ds, r')
      | None => None
      end
    else Some ([], s)
  | [] => Some ([], [])
  end.

Definition scan_number (s : text) : option (text * text) :=
  let (sign, s0) :=
    match s with
    | c :: r => if c =? Chr.minus then ([c], r) else ([], s)
    | [] => ([], s)
    end in
  match scan_int s0 with
  | Some (i, s1) =>
    match scan_frac s1 with
    | Some (f, s2) =>
      match scan_exp s2 with
      | Some (e, s3) => Some (sign ++ i ++ f ++ e, s3)
      | None => None
      end
    | None => None
    end
  | None => None
  end.

Fixpoint strip_prefix (p s : text) : option text :=
  match p, s with
  | [], _ => Some s
  | x :: p', y :: s' => if x =? y then strip_prefix p' s' else None
  | _ :: _, [] => None
  end.

Fixpoint parse_value (fuel : nat) (s : text) {struct fuel} : parsed json :=
  match fuel with
  | O => OutOfFuel
  | S n =>
    match skip_ws s with
    | [] => SyntaxError
    | c :: r =>
      if c =? Chr.lbrace then
        match skip_ws r with
        | c' :: r' =>
          if c' =? Chr.rbrace then Ok (JObject []) r'
          else
            match parse_members n r with
            | Ok ms r'' => Ok (JObject ms) r''
            | SyntaxError => SyntaxError
            | OutOfFuel => OutOfFuel
            end
        | [] => SyntaxError
        end
      else if c =? Chr.lbracket then
        match skip_ws r with
        | c' :: r' =>
          if c' =? Chr.rbracket then Ok (JArray []) r'
          else
            match parse_elements n r with
            | Ok vs r'' => Ok (JArray vs) r''
            | SyntaxError => SyntaxError
            | OutOfFuel => OutOfFuel
            end
        | [] => SyntaxError
        end
      else if c =? Chr.dquote then
        match scan_string r with
        | Some (body, r') => Ok (JString body) r'
        | None => SyntaxError
        end
      else if (c =? Chr.minus) || is_digit c then
        match scan_number (c :: r) with
        | Some (lexeme, r') => Ok (JNumber lexeme) r'
        | None => SyntaxError
        end
      else
        match strip_prefix (str "true") (c :: r) with
        | Some r' => Ok (JBool true) r'
        | None =>
          match strip_prefix (str "false") (c :: r) with
          | Some r' => Ok (JBool false) r'
          | None =>
            match strip_prefix (str "null") (c :: r) with
            | Some r' => Ok JNull r'
            | None => SyntaxError
            end
          end
        end
    end
  end

with parse_elements (fuel : nat) (s : text) {struct fuel}
  : parsed (list json) :=
  match fuel with
  | O => OutOfFuel
  | S n =>
    match parse_value n s with
    | Ok v r =>
      match skip_ws r with
      | c :: r' =>
        if c =? Chr.comma then
          match parse_elements n r' with
          | Ok vs r'' => Ok (v :: vs) r''
          | SyntaxError => SyntaxError
          | OutOfFuel => OutOfFuel
          end
        else if c =? Chr.rbracket then Ok [v] r'
        else SyntaxError
      | [] => SyntaxError
      end
    | SyntaxError => SyntaxError
    | OutOfFuel => OutOfFuel
    end
  end

with parse_members (fuel : nat) (s : text) {struct fuel}
  : parsed (list (text * json)) :=
  match fuel with
  | O => OutOfFuel
  | S n =>
    match skip_ws s with
    | q :: s1 =>
      if q =? Chr.dquote then
        match scan_string s1 with
        | Some (key, s2) =>
          match skip_ws s2 with
          | k :: s3 =>
            if k =? Chr.colon then
              match parse_value n s3 with
              | Ok v s4 =>
                match skip_ws s4 with
                | c :: s5 =>
                  if c =? Chr.comma then
                    match parse_members n s5 with
                    | Ok ms s6 => Ok ((key, v) :: ms) s6
                    | SyntaxError => SyntaxError
                    | OutOfFuel => OutOfFuel
                    end
                  else if c =? Chr.rbrace then Ok [(key, v)] s5
                  else SyntaxError
                | [] => SyntaxError
                end
              | SyntaxError => SyntaxError
              | OutOfFuel => OutOfFuel
              end
            else SyntaxError
          | [] => SyntaxError
          end
        | None => SyntaxError
        end
      else SyntaxError
    | [] => SyntaxError
    end
  end.

(** [JSON.parse]: [None] stands for the [SyntaxError] it throws.  The fuel
    is more than twice the length of the input, which [parse_fuel_enough]
    below shows to be always enough. *)
Definition parse (s : text) : option json :=
  match parse_value (2 * length s + 1) s with
  | Ok v r =>
    match skip_ws r with
    | [] => Some v
    | _ :: _ => None
    end
  | SyntaxError => None
  | OutOfFuel => None
  end.

(** Own property lookup on a parsed object: of two members with the same
    key the later one is the property's value. *)
Fixpoint lookup (key : text) (ms : list (text * json)) : jsval :=
  match ms with
  | [] => None
  | (k, v) :: ms' =>
    match lookup key ms' with
    | Some v' => Some v'
    | None => if text_eqb k key then Some v else None
    end
  end.

Definition has_own (key : text) (ms : list (text * json)) : bool :=
  match lookup key ms with Some _ => true | None => false end.

End JSON.

(** ** The host

What the page takes from the browser and cannot be computed from the
text of an event.  A JSON number is kept as its lexeme; its conversion to
a string and its truthiness are the host's ([Number::toString] and
[ToBoolean] on the double the lexeme denotes).
[EventSource_constructs url] tells whether [new EventSource(url)]
returns rather than throws. *)

Class Host : Type := {
  Number_toString : text -> text;
  Number_isZero : text -> bool;
  EventSource_constructs : text -> bool
}.

Section Coercions.

Context {host : Host}.
Local Open Scope N_scope.

(** [ToString] of a parsed value, [None] where it throws a [TypeError]: an
    object converts through [Object.prototype.toString] unless an own
    [toString] member, which is never callable, shadows it; an array joins
    its elements with commas, [null] counting as the empty string. *)
Fixpoint ToString (v : json) : option text :=
  match v with
  | JNull => Some (str "null")
  | JBool true => Some (str "true")
  | JBool false => Some (str "false")
  | JNumber lexeme => Some (Number_toString lexeme)
  | JString s => Some s
  | JArray items =>
    (fix join (vs : list json) : option text :=
       match vs with
       | [] => Some []
       | v1 :: vs' =>
         let first :=
           match v1 with JNull => Some [] | _ => ToString v1 end in
         match vs' with
         | [] => first
         | _ :: _ =>
           match first, join vs' with
           | Some a, Some b => Some (a ++ Chr.comma :: b)
           | _, _ => None
           end
         end
       end) items
  | JObject members =>
    if JSON.has_own (str "toString") members then None
    else Some (str "[object Object]")
  end.

(** The right operand of [streamedContent += x]. *)
Definition concat_operand (x : jsval) : option text :=
  match x with
  | None => Some (str "undefined")
  | Some v => ToString v
  end.

Definition ToBoolean (x : jsval) : bool :=
  match x with
  | None => false
  | Some JNull => false
  | Some (JBool b) => b
  | Some (JNumber lexeme) => negb (Number_isZero lexeme)
  | Some (JString s) => negb (is_empty s)
  | Some (JArray _) => true
  | Some (JObject _) => true
  end.

(** [a || b] *)
Definition js_or (a b : jsval) : jsval :=
  if ToBoolean a then a else b.

End Coercions.

(** [String.prototype.trim]: white space and line terminators are removed at
    both ends. *)
Definition is_js_whitespace (c : N) : bool :=
  ((9 <=? c) && (c <=? 13) || (c =? 32) || (c =? 160) || (c =? 5760)
   || (8192 <=? c) && (c <=? 8202) || (c =? 8232) || (c =? 8233)
   || (c =? 8239) || (c =? 8287) || (c =? 12288) || (c =? 65279))%N.

Fixpoint trim_start (s : text) : text :=
  match s with
  | c :: r => if is_js_whitespace c then trim_start r else s
  | [] => []
  end.

Definition trim_end (s : text) : text := rev (trim_start (rev s)).

Definition trim (s : text) : text := trim_end (trim_start s).

(** [encodeURIComponent]: the UTF-8 bytes of the text, percent-encoded
    except for the unreserved characters; [None] is the [URIError] a lone
    surrogate raises. *)
Module URI.

Local Open Scope N_scope.

Definition unreserved (c : N) : bool :=
  (65 <=? c) && (c <=? 90) || (97 <=? c) && (c <=? 122)
  || (48 <=? c) && (c <=? 57)
  || (c =? 45) || (c =? 95) || (c =? 46) || (c =? 33) || (c =? 126)
  || (c =? 42) || (c =? 39) || (c =? 40) || (c =? 41).

Definition hex_upper (n : N) : N := if n <? 10 then 48 + n else 55 + n.

Definition percent (byte : N) : text :=
  [37; hex_upper (byte / 16); hex_upper (byte mod 16)].

Fixpoint encode (s : text) : option text :=
  match s with
  | [] => Some []
  | c :: r =>
    if c <? 128 then
      option_map (app (if unreserved c then [c] else percent c)) (encode r)
    else if c <? 2048 then
      option_map (app (percent (192 + c / 64) ++ percent (128 + c mod 64)))
                 (encode r)
    else if (c <? 55296) || (57344 <=? c) then
      option_map (app (percent (224 + c / 4096)
                       ++ percent (128 + c / 64 mod 64)
                       ++ percent (128 + c mod 64)))
                 (encode r)
    else if c <? 56320 then
      match r with
      | low :: r' =>
        if (56320 <=? low) && (low <? 57344) then
          let cp := 65536 + (c - 55296) * 1024 + (low - 56320) in
          option_map (app (percent (240 + cp / 262144)
                           ++ percent (128 + cp / 4096 mod 64)
                           ++ percent (128 + cp / 64 mod 64)
                           ++ percent (128 + cp mod 64)))
                     (encode r')
        else None
      | [] => None
      end
    else None
  end.

End URI.

Definition encodeURIComponent (t : text) : option text := URI.encode t.

(** ** The server: [generate_chat_responses] *)

Module Server.

Local Open Scope N_scope.

(** [s.replace(old, new)] for a one-character [old]. *)
Definition replace (old : N) (new : text) (s : text) : text :=
  flat_map (fun c => if c =? old then new else [c]) s.

(** The name of the search tool. *)
Definition tavily : text := str "tavily_search_results_json".

(** What the graph hands over where the generator goes on as with a
    [str]: a [str], or a value of another type (the list of blocks a
    chunk's content may be, or whatever the model wrote as an argument of
    a call), which has no [replace]. *)
Inductive value : Type :=
| Str (s : text)
| NotStr.

(** What a streaming event carries as its chunk. *)
Inductive chunk : Type :=
| AIMessageChunk (content : value)
| OtherChunk.

(** [None] is the [TypeError] raised for anything but an [AIMessageChunk]. *)
Definition serialise_ai_message_chunk (c : chunk) : option value :=
  match c with
  | AIMessageChunk content => Some content
  | OtherChunk => None
  end.

(** [query] is the entry of [args] under ["query"], [None] where [args]
    has no such key. *)
Record tool_call : Type := {
  name : text;
  query : option value
}.

(** [args.get("query", "")] *)
Definition get_query (call : tool_call) : value :=
  match query call with
  | Some v => v
  | None => Str []
  end.

Inductive result_item : Type :=
| ItemDict (url : option text)  (* a dict, with its "url" entry if any *)
| ItemOther.

Inductive tool_output : Type :=
| OutputList (items : list result_item)
| OutputOther.

(** The events of [graph.astream_events] the generator looks at;
    [on_chat_model_end] carries the output's [tool_calls] attribute when
    it has one. *)
Inductive graph_event : Type :=
| on_chat_model_stream (c : chunk)
| on_chat_model_end (tool_calls : option (list tool_call))
| on_tool_end (tool : text) (output : tool_output)
| on_other.

(** How the iteration over the graph's events ends: the iterator is
    exhausted, or the model or the search tool raised and the exception
    comes out of the iterator. *)
Inductive termination : Type := Exhausted | Raised.

(** What the generator yields; [payload] below gives the text of each. *)
Inductive sse : Type :=
| checkpoint (checkpoint_id : text)
| content (safe_content : text)
| search_start (safe_query : text)
| search_results (urls : list text)
| end_.

(** How the generator finishes: it returns after its last [yield], or an
    exception propagates out of it. *)
Inductive completion : Type := Returned | Propagated.

(** The escaping of a streamed fragment: every single quote gets a
    backslash in front, then every line feed becomes a backslash and an
    [n]. *)
Definition safe_content_of (chunk_content : text) : text :=
  replace Chr.lf (str "\n")
    (replace Chr.squote (Chr.backslash :: [Chr.squote]) chunk_content).

(** The escaping of a search query: the same, after every double quote got
    a backslash in front. *)
Definition safe_query_of (search_query : text) : text :=
  replace Chr.lf (str "\n")
    (replace Chr.squote (Chr.backslash :: [Chr.squote])
       (replace Chr.dquote (Chr.backslash :: [Chr.dquote]) search_query)).

(** The [url] of every item that is a dict and has one. *)
Definition urls_of (items : list result_item) : list text :=
  flat_map (fun item =>
              match item with
              | ItemDict (Some url) => [url]
              | _ => []
              end) items.

(** One turn of the [async for] body: the events yielded, or [None] when
    the body raises, which it does where [serialise_ai_message_chunk]
    raises and where [replace] is looked up on a value that is no [str]
    (an [AttributeError]). *)
Definition on_event (event : graph_event) : option (list sse) :=
  match event with
  | on_chat_model_stream c =>
    match serialise_ai_message_chunk c with
    | Some (Str chunk_content) =>
      Some [content (safe_content_of chunk_content)]
    | Some NotStr => None
    | None => None
    end
  | on_chat_model_end tcs =>
    let tool_calls := match tcs with Some l => l | None => [] end in
    let search_calls :=
      filter (fun call => text_eqb (name call) tavily) tool_calls in
    match search_calls with
    | call :: _ =>
      match get_query call with
      | Str search_query => Some [search_start (safe_query_of search_query)]
      | NotStr => None
      end
    | [] => Some []
    end
  | on_tool_end tool output =>
    if text_eqb tool tavily then
      match output with
      | OutputList items => Some [search_results (urls_of items)]
      | OutputOther => Some []
      end
    else Some []
  | on_other => Some []
  end.

(** The [async for] loop and the [yield] of [end] that follows it. *)
Fixpoint stream_loop (events : list graph_event) (ending : termination)
  : list sse * completion :=
  match events with
  | [] =>
    match ending with
    | Exhausted => ([end_], Returned)
    | Raised => ([], Propagated)
    end
  | event :: events' =>
    match on_event event with
    | Some yielded =>
      let (rest, c) := stream_loop events' ending in (yielded ++ rest, c)
    | None => ([], Propagated)
    end
  end.

(** The generator.  [new_checkpoint_id] is the result of [str(uuid4())];
    the graph's run on [message] is given by the events it streams. *)
Definition generate_chat_responses
    (message : text) (checkpoint_id : option text)
    (new_checkpoint_id : text)
    (events : list graph_event) (ending : termination)
  : list sse * completion :=
  let is_new_conversation :=
    match checkpoint_id with None => true | Some _ => false end in
  let (rest, c) := stream_loop events ending in
  if is_new_conversation then (checkpoint new_checkpoint_id :: rest, c)
  else (rest, c).

(** *** The text of an event *)

Definition hex_digit (n : N) : N := if n <? 10 then 48 + n else 87 + n.

(** [json.dumps] of a string (with [ensure_ascii]). *)
Definition dumps_char (c : N) : text :=
  if c =? Chr.dquote then Chr.backslash :: [Chr.dquote]
  else if c =? Chr.backslash then Chr.backslash :: [Chr.backslash]
  else if c =? Chr.lf then str "\n"
  else if c =? Chr.cr then str "\r"
  else if c =? Chr.tab then str "\t"
  else if c =? 8 then str "\b"
  else if c =? 12 then str "\f"
  else if (32 <=? c) && (c <=? 126) then [c]
  else
    str "\u" ++ [hex_digit (c / 4096 mod 16); hex_digit (c / 256 mod 16);
                 hex_digit (c / 16 mod 16); hex_digit (c mod 16)].

Definition dumps_string (s : text) : text :=
  Chr.dquote :: flat_map dumps_char s ++ [Chr.dquote].

Fixpoint join (sep : text) (parts : list text) : text :=
  match parts with
  | [] => []
  | [p] => p
  | p :: ps => p ++ sep ++ join sep ps
  end.

Definition dumps_list (urls : list text) : text :=
  Chr.lbracket :: join (str ", ") (map dumps_string urls) ++ [Chr.rbracket].

Definition quoted (s : text) : text := Chr.dquote :: s ++ [Chr.dquote].

(** A member [\"key\": value] of the f-string. *)
Definition member (key value : text) : text :=
  quoted key ++ str ": " ++ value.

Definition object (members : list text) : text :=
  Chr.lbrace :: join (str ", ") members ++ [Chr.rbrace].

(** The JSON text between [data: ] and the blank line. *)
Definition payload (e : sse) : text :=
  match e with
  | checkpoint checkpoint_id =>
    object [member (str "type") (quoted (str "checkpoint"));
            member (str "checkpoint_id") (quoted checkpoint_id)]
  | content safe_content =>
    object [member (str "type") (quoted (str "content"));
            member (str "content") (quoted safe_content)]
  | search_start safe_query =>
    object [member (str "type") (quoted (str "search_start"));
            member (str "query") (quoted safe_query)]
  | search_results urls =>
    object [member (str "type") (quoted (str "search_results"));
            member (str "urls") (dumps_list urls)]
  | end_ =>
    object [member (str "type") (quoted (str "end"))]
  end.

(** What is written to the stream for one [yield]. *)
Definition frame (e : sse) : text :=
  str "data: " ++ payload e ++ [Chr.lf; Chr.lf].

(** *** Observations on a stream, used to state its properties *)

(** What a list of graph events makes the loop yield, up to the first
    event on which its body raises. *)
Fixpoint yields (events : list graph_event) : list sse :=
  match events with
  | [] => []
  | event :: events' =>
    match on_event event with
    | Some yielded => yielded ++ yields events'
    | None => []
    end
  end.

(** Characters the escaping of a fragment gets right: printable ones other
    than the two quotes and the backslash, and the line feed. *)
Definition plain (c : N) : bool :=
  ((32 <=? c) && negb (c =? Chr.dquote) && negb (c =? Chr.squote)
   && negb (c =? Chr.backslash)) || (c =? Chr.lf).

(** The text of a [content] event before the fragment. *)
Definition content_prefix : text :=
  Chr.lbrace :: quoted (str "type") ++ str ": " ++ quoted (str "content")
  ++ str ", " ++ quoted (str "content") ++ str ": " ++ [Chr.dquote].

End Server.

(** ** The client: the page's state, [handleSubmit] and the stream handlers *)

Module Client.

Local Open Scope Z_scope.

(** The strings the handlers put in [stages]: ['searching'], ['reading'],
    ['writing'] and ['error']. *)
Inductive Stage : Type := Searching | Reading | Writing | Error.

(** [query], [urls] and [error] hold what the event carried, whatever its
    type; [error] is [undefined] where the object has no such member. *)
Record SearchInfo : Type := {
  stages : list Stage;
  query : jsval;
  urls : jsval;
  error : jsval
}.

(** [isLoading] and [searchInfo] are optional members. *)
Record Message : Type := {
  id : Z;
  content : text;
  isUser : bool;
  type : text;
  isLoading : option bool;
  searchInfo : option SearchInfo
}.

(** The three [useState] cells of the page. *)
Record Page : Type := {
  messages : list Message;
  currentMessage : text;
  checkpointId : jsval
}.

(** The variables one submission's handlers close over, and whether its
    [EventSource] has been closed. *)
Record Stream : Type := {
  aiResponseId : Z;
  streamedContent : text;
  searchData : option SearchInfo;
  hasReceivedContent : bool;
  closed : bool
}.

(** What the handlers of one stream read and write. *)
Definition State : Type := Page * Stream.

(** The initial values of [messages] and of the page. *)
Definition initial_messages : list Message :=
  [ {| id := 1; content := str "Hi there, how can I help you?";
       isUser := false; type := str "message";
       isLoading := None; searchInfo := None |} ].

Definition initial_page : Page :=
  {| messages := initial_messages; currentMessage := [];
     checkpointId := Some JNull |}.

Definition setMessages (f : list Message -> list Message) (p : Page) : Page :=
  {| messages := f (messages p); currentMessage := currentMessage p;
     checkpointId := checkpointId p |}.

Definition setCurrentMessage (t : text) (p : Page) : Page :=
  {| messages := messages p; currentMessage := t;
     checkpointId := checkpointId p |}.

Definition setCheckpointId (x : jsval) (p : Page) : Page :=
  {| messages := messages p; currentMessage := currentMessage p;
     checkpointId := x |}.

(** [prev.map(msg => msg.id === target ? f(msg) : msg)] *)
Definition update_message (target : Z) (f : Message -> Message)
    (prev : list Message) : list Message :=
  map (fun msg => if id msg =? target then f msg else msg) prev.

(** [{ ...msg, content: c, isLoading: false }] *)
Definition with_content (c : text) (msg : Message) : Message :=
  {| id := id msg; content := c; isUser := isUser msg; type := type msg;
     isLoading := Some false; searchInfo := searchInfo msg |}.

(** [{ ...msg, content: c, searchInfo: info, isLoading: false }] *)
Definition with_content_and_search (c : text) (info : SearchInfo)
    (msg : Message) : Message :=
  {| id := id msg; content := c; isUser := isUser msg; type := type msg;
     isLoading := Some false; searchInfo := Some info |}.

(** [{ ...msg, searchInfo: info, isLoading: false }] *)
Definition with_search (info : SearchInfo) (msg : Message) : Message :=
  {| id := id msg; content := content msg; isUser := isUser msg;
     type := type msg; isLoading := Some false; searchInfo := Some info |}.

(** [streamedContent = c; hasReceivedContent = true] *)
Definition set_streamedContent (c : text) (s : Stream) : Stream :=
  {| aiResponseId := aiResponseId s; streamedContent := c;
     searchData := searchData s; hasReceivedContent := true;
     closed := closed s |}.

(** [searchData = info] *)
Definition set_searchData (info : SearchInfo) (s : Stream) : Stream :=
  {| aiResponseId := aiResponseId s; streamedContent := streamedContent s;
     searchData := Some info; hasReceivedContent := hasReceivedContent s;
     closed := closed s |}.

(** [eventSource.close()] *)
Definition close (s : Stream) : Stream :=
  {| aiResponseId := aiResponseId s; streamedContent := streamedContent s;
     searchData := searchData s; hasReceivedContent := hasReceivedContent s;
     closed := true |}.

(** [data.key] on a parsed value other than [null], for the keys the page
    reads ([type], [checkpoint_id], [content], [query], [urls], [error]),
    none of which a prototype provides. *)
Definition prop (data : json) (key : text) : jsval :=
  match data with
  | JObject members => JSON.lookup key members
  | _ => undefined
  end.

(** [x === 'literal'] *)
Definition is_literal (x : jsval) (literal : text) : bool :=
  match x with
  | Some (JString s) => text_eqb s literal
  | _ => false
  end.

(** The texts of the two failure messages. *)
Definition generic_error : text :=
  str "Sorry, there was an error processing your request.".

Definition connection_error : text :=
  str "Sorry, there was an error connecting to the server.".

Section Handlers.

Context {host : Host}.

(** The [content] branch: [streamedContent += data.content], which throws
    when the operand cannot be converted, then the update of the message. *)
Definition on_content (data : json) (st : State) : option State :=
  let (p, s) := st in
  match concat_operand (prop data (str "content")) with
  | None => None
  | Some fragment =>
    let streamed := streamedContent s ++ fragment in
    Some (setMessages
            (update_message (aiResponseId s) (with_content streamed)) p,
          set_streamedContent streamed s)
  end.

(** What the three search branches end with: [searchData = newSearchInfo]
    and the update of the message. *)
Definition show_search (newSearchInfo : SearchInfo) (st : State) : State :=
  let (p, s) := st in
  (setMessages
     (update_message (aiResponseId s)
        (with_content_and_search (streamedContent s) newSearchInfo)) p,
   set_searchData newSearchInfo s).

(** The [search_start] branch. *)
Definition on_search_start (data : json) (st : State) : State :=
  show_search
    {| stages := [Searching]; query := prop data (str "query");
       urls := Some (JArray []); error := undefined |} st.

(** [searchData ? [...searchData.stages, stage] : [stage]] *)
Definition stages_with (searchData : option SearchInfo) (stage : Stage)
  : list Stage :=
  match searchData with
  | Some info => stages info ++ [stage]
  | None => [stage]
  end.

(** [searchData?.query || ""] *)
Definition query_or_empty (searchData : option SearchInfo) : jsval :=
  js_or (match searchData with Some info => query info | None => undefined end)
        (Some (JString [])).

(** The [search_results] branch, with its own [try]: [data.urls] is parsed
    when it is a string, and a parse error leaves everything as it is. *)
Definition on_search_results (data : json) (st : State) : State :=
  let parsed_urls : option jsval :=
    match prop data (str "urls") with
    | Some (JString s) =>
      match JSON.parse s with
      | Some v => Some (Some v)
      | None => None
      end
    | other => Some other
    end in
  match parsed_urls with
  | None => st
  | Some urls' =>
    show_search
      {| stages := stages_with (searchData (snd st)) Reading;
         query := query_or_empty (searchData (snd st));
         urls := urls'; error := undefined |} st
  end.

(** The [search_error] branch. *)
Definition on_search_error (data : json) (st : State) : State :=
  show_search
    {| stages := stages_with (searchData (snd st)) Error;
       query := query_or_empty (searchData (snd st));
       urls := Some (JArray []); error := prop data (str "error") |} st.

(** The [end] branch: [searchData] itself is not updated. *)
Definition on_end (st : State) : State :=
  let (p, s) := st in
  match searchData s with
  | Some info =>
    let finalSearchInfo :=
      {| stages := stages info ++ [Writing]; query := query info;
         urls := urls info; error := error info |} in
    (setMessages
       (update_message (aiResponseId s) (with_search finalSearchInfo)) p,
     close s)
  | None => (p, close s)
  end.

(** The chain of tests on [data.type], each with its branch. *)
Definition on_type (data : json) (st : State) : option State :=
  let ty := prop data (str "type") in
  if is_literal ty (str "checkpoint") then
    Some (setCheckpointId (prop data (str "checkpoint_id")) (fst st), snd st)
  else if is_literal ty (str "content") then on_content data st
  else if is_literal ty (str "search_start") then
    Some (on_search_start data st)
  else if is_literal ty (str "search_results") then
    Some (on_search_results data st)
  else if is_literal ty (str "search_error") then
    Some (on_search_error data st)
  else if is_literal ty (str "end") then Some (on_end st)
  else Some st.

(** The body of the [try] once the payload is parsed; [None] when it
    throws, which reading [data.type] does when [data] is [null]. *)
Definition on_data (data : json) (st : State) : option State :=
  match data with
  | JNull => None
  | _ => on_type data st
  end.

(** [eventSource.onmessage]: the [catch] only logs. *)
Definition onmessage (event_data : text) (st : State) : State :=
  match JSON.parse event_data with
  | Some data =>
    match on_data data st with
    | Some st' => st'
    | None => st
    end
  | None => st
  end.

(** [eventSource.onerror] *)
Definition onerror (st : State) : State :=
  let (p, s) := st in
  if is_empty (streamedContent s) then
    (setMessages
       (update_message (aiResponseId s) (with_content generic_error)) p,
     close s)
  else (p, close s).

(** What the [EventSource] dispatches; nothing is dispatched once it is
    closed. *)
Inductive event : Type :=
| message (event_data : text)
| failure.

Definition dispatch (st : State) (e : event) : State :=
  if closed (snd st) then st
  else
    match e with
    | message event_data => onmessage event_data st
    | failure => onerror st
    end.

Definition run (events : list event) (st : State) : State :=
  fold_left dispatch events st.

(** *** [handleSubmit] *)

(** [Math.max(...messages.map(msg => msg.id))] on a list that is not
    empty.  Ids are the integers the page itself assigns. *)
Definition max_id (first : Message) (others : list Message) : Z :=
  fold_left Z.max (map id others) (id first).

(** [messages.length > 0 ? Math.max(...) + 1 : 1] *)
Definition newMessageId_of (msgs : list Message) : Z :=
  match msgs with
  | first :: others => max_id first others + 1
  | [] => 1
  end.

(** The three messages a submission may append. *)
Definition user_message (newMessageId : Z) (text_ : text) : Message :=
  {| id := newMessageId; content := text_; isUser := true;
     type := str "message"; isLoading := None; searchInfo := None |}.

Definition placeholder (aiResponseId_ : Z) : Message :=
  {| id := aiResponseId_; content := []; isUser := false;
     type := str "message"; isLoading := Some true;
     searchInfo := Some {| stages := []; query := Some (JString []);
                            urls := Some (JArray []);
                            error := undefined |} |}.

Definition connection_error_message (newMessageId : Z) : Message :=
  {| id := newMessageId + 1; content := connection_error; isUser := false;
     type := str "message"; isLoading := Some false;
     searchInfo := None |}.

(** The variables of a stream just opened. *)
Definition new_stream (aiResponseId_ : Z) : Stream :=
  {| aiResponseId := aiResponseId_; streamedContent := [];
     searchData := None; hasReceivedContent := false; closed := false |}.

Definition endpoint : text := str "http://localhost:8000/chat_stream/".

(** The request URL, [None] when building it throws. *)
Definition request_url (userInput : text) (checkpoint : jsval)
  : option text :=
  match encodeURIComponent userInput with
  | None => None
  | Some encoded =>
    let url := endpoint ++ encoded in
    if ToBoolean checkpoint then
      match checkpoint with
      | Some v =>
        match ToString v with
        | Some t =>
          match encodeURIComponent t with
          | Some c => Some (url ++ str "?checkpoint_id=" ++ c)
          | None => None
          end
        | None => None
        end
      | None => Some url
      end
    else Some url
  end.

(** How a submission ends: the guard rejected the input; the stream was
    opened; opening it threw and the [catch] reported it; or building the
    URL threw. *)
Inductive outcome : Type :=
| Ignored
| Connected (url : text) (s : Stream)
| ConnectionFailed
| Threw.

(** [handleSubmit], on the state the page was rendered with, which is
    also the state its updates apply to.  The user's message and then the
    placeholder are appended before the URL is built; the [try] encloses
    the construction of the [EventSource], and its [catch] appends the
    connection error message. *)
Definition handleSubmit (p : Page) : Page * outcome :=
  if is_empty (trim (currentMessage p)) then (p, Ignored)
  else
    let newMessageId := newMessageId_of (messages p) in
    let p1 :=
      setMessages
        (fun prev => prev ++ [user_message newMessageId (currentMessage p)])
        p in
    let userInput := currentMessage p in
    let p2 := setCurrentMessage [] p1 in
    let aiResponseId_ := newMessageId + 1 in
    let p3 :=
      setMessages (fun prev => prev ++ [placeholder aiResponseId_]) p2 in
    match request_url userInput (checkpointId p) with
    | None => (p3, Threw)
    | Some url =>
      if EventSource_constructs url then
        (p3, Connected url (new_stream aiResponseId_))
      else
        (setMessages
           (fun prev => prev ++ [connection_error_message newMessageId])
           p3,
         ConnectionFailed)
    end.

End Handlers.

(** *** [MessageArea]: what stands in a message's bubble *)

Inductive bubble : Type :=
| PremiumTypingAnimation
| Text (t : text)
| WaitingForResponse.      (* "Waiting for response..." *)

Definition render_content (msg : Message) : bubble :=
  match isLoading msg with
  | Some true => PremiumTypingAnimation
  | _ =>
    if is_empty (content msg) then WaitingForResponse
    else Text (content msg)
  end.
(** *** Observations on the reducer, used to state its properties *)

(** [data.type] when it is a string. *)
Definition event_type (data : json) : option text :=
  match prop data (str "type") with
  | Some (JString s) => Some s
  | _ => None
  end.

Definition wire_type (event_data : text) : option text :=
  match JSON.parse event_data with
  | Some data => event_type data
  | None => None
  end.

(** The value a well-formed [content] event parses to. *)
Definition content_event_of (fragment : text) : json :=
  JObject [(str "type", JString (str "content"));
           (str "content", JString fragment)].

Definition content_event (fragment : text) (e : event) : Prop :=
  exists event_data data,
    e = message event_data /\ JSON.parse event_data = Some data /\
    event_type data = Some (str "content") /\
    prop data (str "content") = Some (JString fragment).

Definition is_search_start_event (e : event) : Prop :=
  exists event_data data,
    e = message event_data /\ JSON.parse event_data = Some data /\
    event_type data = Some (str "search_start").

Definition is_end_event (e : event) : Prop :=
  exists event_data data,
    e = message event_data /\ JSON.parse event_data = Some data /\
    event_type data = Some (str "end").

Definition is_content_event (e : event) : Prop :=
  exists fragment, content_event fragment e.

(** An event whose [type] is [ty]. *)
Definition event_of_type (ty : text) (e : event) : Prop :=
  exists event_data data,
    e = message event_data /\ JSON.parse event_data = Some data /\
    event_type data = Some ty.

(** Where the [search_results] branch gives up: [data.urls] is a string
    and [JSON.parse] throws on it. *)
Definition urls_unreadable (data : json) : bool :=
  match prop data (str "urls") with
  | Some (JString s) =>
    match JSON.parse s with Some _ => false | None => true end
  | _ => false
  end.

(** The search events the handler does not drop. *)
Definition is_search_event (e : event) : Prop :=
  is_search_start_event e \/
  event_of_type (str "search_error") e \/
  exists event_data data,
    e = message event_data /\ JSON.parse event_data = Some data /\
    event_type data = Some (str "search_results") /\
    urls_unreadable data = false.

(** A message that is neither a [content] event nor the [end] of the
    stream: an event of another type, or a message the handler drops. *)
Definition passing_event (e : event) : Prop :=
  exists event_data,
    e = message event_data /\
    wire_type event_data <> Some (str "content") /\
    wire_type event_data <> Some (str "end").

(** [carry events fragments]: the [content] events among [events] carry
    [fragments], in this order, and the events before, between and after
    them are passing ones. *)
Inductive carry : list event -> list text -> Prop :=
| carry_nil : carry [] []
| carry_content fragment e events fragments :
    content_event fragment e -> carry events fragments ->
    carry (e :: events) (fragment :: fragments)
| carry_passing e events fragments :
    passing_event e -> carry events fragments ->
    carry (e :: events) fragments.

(** The two events that report on a search under way. *)
Definition search_progress (data : json) : Prop :=
  event_type data = Some (str "search_results") \/
  event_type data = Some (str "search_error").

Definition is_search_progress_event (e : event) : Prop :=
  exists event_data data,
    e = message event_data /\ JSON.parse event_data = Some data /\
    search_progress data.

(** The order the server emits in: a search reports only after it started. *)
Definition causal_order (events : list event) : Prop :=
  forall pre e post,
    events = pre ++ e :: post -> is_search_progress_event e ->
    Exists is_search_start_event pre.

(** The values of [type] the handler has a branch for. *)
Definition known_types : list text :=
  [str "checkpoint"; str "content"; str "search_start";
   str "search_results"; str "search_error"; str "end"].

Definition recognized (data : json) : bool :=
  existsb (is_literal (prop data (str "type"))) known_types.

(** The messages the handlers of a stream write to. *)
Definition assistant_messages (st : State) : list Message :=
  filter (fun msg => id msg =? aiResponseId (snd st)) (messages (fst st)).

Definition reading_after_searching (l : list Stage) : Prop :=
  forall i j,
    nth_error l i = Some Reading -> nth_error l j = Some Searching ->
    (j < i)%nat.

(** The stages tell of a search that has started: the list is empty or
    begins with [Searching]. *)
Definition searching_leads (l : list Stage) : Prop :=
  l = [] \/ hd_error l = Some Searching.

(** The state a submission starts its stream in. *)
Definition submitted {host : Host} (p0 : Page) : State :=
  match handleSubmit p0 with
  | (p, Connected _ s) => (p, s)
  | (p, _) => (p, new_stream 0)
  end.

(** *** The invariant of an open stream

While the stream is open the message with the response's id is
determined by the variables of the stream: it is [shown s]. *)

Definition empty_info : SearchInfo :=
  {| stages := []; query := Some (JString []); urls := Some (JArray []);
     error := undefined |}.

Definition record_of (s : Stream) : SearchInfo :=
  match searchData s with Some info => info | None => empty_info end.

Definition touched (s : Stream) : bool :=
  hasReceivedContent s
  || match searchData s with Some _ => true | None => false end.

Definition shown (s : Stream) : Message :=
  {| id := aiResponseId s; content := streamedContent s; isUser := false;
     type := str "message"; isLoading := Some (negb (touched s));
     searchInfo := Some (record_of s) |}.

Definition follow_up (x : Stage) : bool :=
  match x with Reading | Error => true | _ => false end.

(** No [Writing], and [Searching] nowhere but in front. *)
Definition well_staged (l : list Stage) : bool :=
  match l with
  | [] => true
  | first :: rest =>
    match first with Writing => false | _ => forallb follow_up rest end
  end.

Record Open (st : State) : Prop := {
  open_closed : closed (snd st) = false;
  open_shown : assistant_messages st = [shown (snd st)];
  open_received :
    streamedContent (snd st) <> [] -> hasReceivedContent (snd st) = true;
  open_staged : well_staged (stages (record_of (snd st))) = true
}.

(** What the events delivered so far say of the stream's search record. *)
Definition search_known (pre : list event) (st : State) : Prop :=
  (Exists is_search_start_event pre ->
   hd_error (stages (record_of (snd st))) = Some Searching) /\
  (~ Exists is_search_start_event pre -> searchData (snd st) = None).

(** What one parsed event can do to the state. *)
Inductive step_shape {host : Host} (data : json) (st st' : State) : Prop :=
| shape_same : st' = st -> step_shape data st st'
| shape_checkpoint x :
    st' = (setCheckpointId x (fst st), snd st) -> step_shape data st st'
| shape_content fragment :
    concat_operand (prop data (str "content")) = Some fragment ->
    event_type data = Some (str "content") ->
    st' = (setMessages
             (update_message (aiResponseId (snd st))
                (with_content (streamedContent (snd st) ++ fragment)))
             (fst st),
           set_streamedContent (streamedContent (snd st) ++ fragment)
             (snd st)) ->
    step_shape data st st'
| shape_search_start :
    event_type data = Some (str "search_start") ->
    st' = on_search_start data st -> step_shape data st st'
| shape_search_more x q u e :
    follow_up x = true ->
    search_progress data ->
    st' = show_search
            {| stages := stages (record_of (snd st)) ++ [x];
               query := q; urls := u; error := e |} st ->
    step_shape data st st'
| shape_end :
    event_type data = Some (str "end") -> st' = on_end st ->
    step_shape data st st'.

End Client.

(** ** The response and the event stream

[chat_stream] returns the texts the generator yields as the body of the
response.  The browser's [EventSource] reads the body line by line; a
line ends with a line feed, a carriage return, or both in that order.  A
line [data: ...] adds to the data of the event under way, a line
[event: ...] names its type, a blank line dispatches it, and [onmessage]
gets the events of type [message], which is the type of an event that
names none.  What follows the last line end is dropped. *)

Module Response.

Import Server.

(** The body of the response, for the run of the graph the generator is
    given. *)
Definition chat_stream (message : text) (checkpoint_id : option text)
    (new_checkpoint_id : text) (events : list graph_event)
    (ending : termination) : text :=
  concat (map frame
            (fst (generate_chat_responses message checkpoint_id
                    new_checkpoint_id events ending))).

End Response.

Module EventStream.

Local Open Scope N_scope.

(** The lines of a text, from the part of a line read so far.
    [after_cr] tells that the last character was a carriage return, whose
    line a line feed coming next does not end again. *)
Fixpoint lines_from (after_cr : bool) (line s : text) : list text :=
  match s with
  | [] => []
  | c :: r =>
    if c =? Chr.lf then
      if after_cr then lines_from false line r
      else line :: lines_from false [] r
    else if c =? Chr.cr then line :: lines_from true [] r
    else lines_from false (line ++ [c]) r
  end.

Definition lines (s : text) : list text := lines_from false [] s.

(** The name and the value of a field: what stands before and after the
    first colon, less one space in front of the value; a line without
    colon is a name. *)
Fixpoint field_of (line : text) : text * text :=
  match line with
  | [] => ([], [])
  | c :: r =>
    if c =? Chr.colon then
      ([], match r with
           | d :: r' => if d =? Chr.space then r' else r
           | [] => []
           end)
    else let (name, value) := field_of r in (c :: name, value)
  end.

(** The buffers of the event under way. *)
Record buffers : Type := {
  data : text;
  event_type : text
}.

Definition no_buffers : buffers := {| data := []; event_type := [] |}.

(** The data of the events [onmessage] gets, from the lines.  A blank
    line dispatches the data collected, less the line feed it ends with,
    unless there is none; a line that begins with a colon is a comment. *)
Fixpoint interpret (ls : list text) (b : buffers) : list text :=
  match ls with
  | [] => []
  | [] :: rest =>
    if is_empty (data b) then interpret rest no_buffers
    else
      (if is_empty (event_type b) || text_eqb (event_type b) (str "message")
       then [removelast (data b)] else [])
      ++ interpret rest no_buffers
  | (c :: _) as line :: rest =>
    if c =? Chr.colon then interpret rest b
    else
      let (name, value) := field_of line in
      if text_eqb name (str "data") then
        interpret rest {| data := data b ++ value ++ [Chr.lf];
                          event_type := event_type b |}
      else if text_eqb name (str "event") then
        interpret rest {| data := data b; event_type := value |}
      else interpret rest b
  end.

(** What [onmessage] is called with, in order.  One byte order mark in
    front is not part of the stream. *)
Definition messages (body : text) : list text :=
  interpret
    (lines (match body with
            | c :: r => if c =? 65279 then r else body
            | [] => []
            end))
    no_buffers.

End EventStream.

(** ** The input bar *)

Module InputBar.

(** [handleChange]: what stands in the input becomes the current message. *)
Definition handleChange (value : text) (p : Client.Page) : Client.Page :=
  Client.setCurrentMessage value p.

End InputBar.

(** ** The view: [SearchStages] and [MessageArea]

The components are modelled by the elements they return.  A child that is
a value of the page ([searchInfo.query], the error text) is kept as that
value. *)

(** What rendering takes from the browser besides [Host]: [JSON.stringify]
    of a parsed value, and the comparison [v > 0], which is [None] where
    converting [v] to a number throws. *)
Class Renderer : Type := {
  JSON_stringify : json -> text;
  greater_than_zero : json -> option bool
}.

Module View.

Import Client.

Definition Stage_eqb (a b : Stage) : bool :=
  match a, b with
  | Searching, Searching | Reading, Reading
  | Writing, Writing | Error, Error => true
  | _, _ => false
  end.

(** [stages.includes(stage)] *)
Definition includes (stage : Stage) (stages : list Stage) : bool :=
  existsb (Stage_eqb stage) stages.

(** [s.substring(0, 30)] *)
Definition substring30 (s : text) : text := firstn 30 s.

(** What stands under [Reading]: the chips of the sources, or the value at
    which the chain of [&&] stopped. *)
Inductive results : Type :=
| NoResults (v : jsval)
| Chips (labels : list text)      (* [urls] is an array: a chip per element *)
| OneChip (label : text).         (* [urls] is no array: one chip *)

(** The parts of the panel, as they stand from top to bottom.  The
    searching part holds whether the line down to the reading part is
    drawn, and the query. *)
Inductive part : Type :=
| SearchingTheWeb (line_to_reading : bool) (query : jsval)
| ReadingSources (sources : results)
| WritingAnswer
| SearchErrorNote (error : jsval).

(** What a component returns: [null], an element, or nothing because
    rendering threw. *)
Inductive rendering : Type :=
| Null
| Panel (parts : list part)
| Throws.

Definition default_search_error : text :=
  str "An error occurred during search.".

Section Rendering.

Context {host : Host} {renderer : Renderer}.

(** [typeof url === 'string' ? url : JSON.stringify(url).substring(0, 30)] *)
Definition chip_label (url : json) : text :=
  match url with
  | JString s => s
  | _ => substring30 (JSON_stringify url)
  end.

(** [urls.length > 0], [None] where it throws.  A parsed object has the
    [length] it holds as a member, a boolean or a number has none, and
    reading it off [null] throws. *)
Definition has_elements (urls : json) : option bool :=
  match urls with
  | JArray items => Some (match items with [] => false | _ :: _ => true end)
  | JString s => Some (negb (is_empty s))
  | JObject members =>
    match JSON.lookup (str "length") members with
    | Some v => greater_than_zero v
    | None => Some false
    end
  | JNull => None
  | JBool _ | JNumber _ => Some false
  end.

(** [searchInfo.urls && searchInfo.urls.length > 0 && (...)] *)
Definition sources_of (urls : jsval) : option results :=
  if ToBoolean urls then
    match urls with
    | Some v =>
      match has_elements v with
      | Some true =>
        Some (match v with
              | JArray items => Chips (map chip_label items)
              | JString s => OneChip (substring30 s)
              | _ => OneChip (substring30 (JSON_stringify v))
              end)
      | Some false => Some (NoResults (Some (JBool false)))
      | None => None
      end
    | None => None
    end
  else Some (NoResults urls).

(** [SearchStages] *)
Definition SearchStages (searchInfo : option SearchInfo) : rendering :=
  match searchInfo with
  | None => Null
  | Some info =>
    match stages info with
    | [] => Null
    | _ :: _ =>
      let shows stage := includes stage (stages info) in
      let searching :=
        if shows Searching
        then [SearchingTheWeb (shows Reading) (query info)] else [] in
      let writing := if shows Writing then [WritingAnswer] else [] in
      let failed :=
        if shows Error
        then [SearchErrorNote
                (js_or (error info) (Some (JString default_search_error)))]
        else [] in
      if shows Reading then
        match sources_of (urls info) with
        | Some sources =>
          Panel (searching ++ [ReadingSources sources] ++ writing ++ failed)
        | None => Throws
        end
      else Panel (searching ++ writing ++ failed)
    end
  end.

(** One message of [MessageArea]: its key, the side it stands on, the
    search panel above the bubble, and the bubble. *)
Record row : Type := {
  key : Z;
  justify_end : bool;
  status : rendering;
  body : bubble
}.

(** [!message.isUser && message.searchInfo && <SearchStages ... />] *)
Definition search_status (msg : Message) : rendering :=
  if isUser msg then Null
  else
    match searchInfo msg with
    | Some info => SearchStages (Some info)
    | None => Null
    end.

Definition render_message (msg : Message) : row :=
  {| key := id msg; justify_end := isUser msg;
     status := search_status msg; body := render_content msg |}.

(** [MessageArea] *)
Definition MessageArea (messages : list Message) : list row :=
  map render_message messages.

End Rendering.

(** The place of a stage, and of a part of the panel, in the order the
    panel is laid out in. *)
Definition stage_rank (stage : Stage) : nat :=
  match stage with
  | Searching => 0
  | Reading => 1
  | Writing => 2
  | Error => 3
  end.

Definition part_rank (x : part) : nat :=
  match x with
  | SearchingTheWeb _ _ => 0
  | ReadingSources _ => 1
  | WritingAnswer => 2
  | SearchErrorNote _ => 3
  end.

End View.

(** ** The agent graph's nodes: [tools_router] and [tool_node]

The nodes read a tool call's [name], [args] and [id] and hand the
arguments to the search tool; what the arguments, the ids and the search
results are is left open. *)

Module Agent.

Section Nodes.

Variables Args Id SearchResults : Type.

(** [search_tool.ainvoke(tool_args)], [None] when it raises, and Python's
    [str] on its result. *)
Variable search_tool_ainvoke : Args -> option SearchResults.
Variable str_of : SearchResults -> text.

Record ToolCall : Type := {
  name : text;
  args : Args;
  id : Id
}.

(** The messages of the state.  Of these only an [AIMessage] has the
    attribute [tool_calls]. *)
Inductive BaseMessage : Type :=
| HumanMessage (content : text)
| AIMessage (content : text) (tool_calls : list ToolCall)
| ToolMessage (content : text) (tool_call_id : Id) (name : text).

Inductive route : Type := to_tool_node | END.

(** [state["messages"][-1]], [None] for the [IndexError] on an empty list. *)
Definition last_message (messages : list BaseMessage) : option BaseMessage :=
  match messages with
  | [] => None
  | m :: ms => Some (last ms m)
  end.

Definition tools_router (messages : list BaseMessage) : option route :=
  match last_message messages with
  | None => None
  | Some (AIMessage _ tool_calls) =>
    Some (match tool_calls with [] => END | _ :: _ => to_tool_node end)
  | Some _ => Some END
  end.

(** The [for] loop of [tool_node], from the tool messages collected so
    far; [None] when the search raises. *)
Fixpoint process (tool_calls : list ToolCall)
    (tool_messages : list BaseMessage) : option (list BaseMessage) :=
  match tool_calls with
  | [] => Some tool_messages
  | tool_call :: rest =>
    if text_eqb (name tool_call) Server.tavily then
      match search_tool_ainvoke (args tool_call) with
      | Some search_results =>
        process rest
          (tool_messages
           ++ [ToolMessage (str_of search_results) (id tool_call)
                 (name tool_call)])
      | None => None
      end
    else process rest tool_messages
  end.

(** [tool_node]: the messages to add to the state; [None] when it raises,
    which reading [tool_calls] off a message that has none does too. *)
Definition tool_node (messages : list BaseMessage)
  : option (list BaseMessage) :=
  match last_message messages with
  | Some (AIMessage _ tool_calls) => process tool_calls []
  | _ => None
  end.

(** *** Observations on the nodes *)

Definition is_search (tool_call : ToolCall) : bool :=
  text_eqb (name tool_call) Server.tavily.

(** A tool message answers a call: it holds the text of what the search
    returned for the call's arguments, and the call's id and name. *)
Definition answers (tool_call : ToolCall) (m : BaseMessage) : Prop :=
  exists search_results,
    search_tool_ainvoke (args tool_call) = Some search_results /\
    m = ToolMessage (str_of search_results) (id tool_call) (name tool_call).

End Nodes.

Arguments name {Args Id} _.
Arguments args {Args Id} _.
Arguments id {Args Id} _.
Arguments HumanMessage {Args Id} _.
Arguments AIMessage {Args Id} _ _.
Arguments ToolMessage {Args Id} _ _ _.
Arguments last_message {Args Id} _.
Arguments tools_router {Args Id} _.
Arguments process {Args Id SearchResults} _ _ _ _.
Arguments tool_node {Args Id SearchResults} _ _ _.
Arguments is_search {Args Id} _.
Arguments answers {Args Id SearchResults} _ _ _ _.

End Agent.

(** ** Observations used to state the further properties *)

Module Protocol.

Import Server.
Local Open Scope N_scope.

(** A UTF-16 code unit. *)
Definition code_unit (c : N) : bool := c <? 65536.

(** Characters that may stand as they are inside the quotes of a JSON
    string: no control character, no double quote, no backslash. *)
Definition quotable (c : N) : bool :=
  (32 <=? c) && negb (c =? Chr.dquote) && negb (c =? Chr.backslash).

(** Characters the escaping of a search query gets right: the line feed,
    and the characters from the space on other than the single quote and
    the backslash. *)
Definition query_plain (c : N) : bool :=
  ((32 <=? c) && negb (c =? Chr.squote) && negb (c =? Chr.backslash))
  || (c =? Chr.lf).

Definition no_dquote_backslash (c : N) : bool :=
  negb (c =? Chr.dquote) && negb (c =? Chr.backslash).

Definition no_backslash (c : N) : bool := negb (c =? Chr.backslash).

Definition no_cr (c : N) : bool := negb (c =? Chr.cr).

(** Characters that end no line. *)
Definition inline (c : N) : bool :=
  negb (c =? Chr.lf) && negb (c =? Chr.cr).

(** The values the events of a stream parse to when their texts come
    through. *)
Definition checkpoint_event_of (checkpoint_id : text) : json :=
  JObject [(str "type", JString (str "checkpoint"));
           (str "checkpoint_id", JString checkpoint_id)].

Definition search_start_event_of (query : text) : json :=
  JObject [(str "type", JString (str "search_start"));
           (str "query", JString query)].

Definition search_results_event_of (urls : list text) : json :=
  JObject [(str "type", JString (str "search_results"));
           (str "urls", JArray (map JString urls))].

Definition end_event : json :=
  JObject [(str "type", JString (str "end"))].

(** The query a model output announces a search for: that of its first
    call of the search tool, the empty text when the call has none. *)
Definition announced_query (tool_calls : option (list tool_call))
  : option value :=
  match filter (fun call => text_eqb (name call) tavily)
               (match tool_calls with Some l => l | None => [] end) with
  | call :: _ => Some (get_query call)
  | [] => None
  end.

(** The URLs a finished search reports. *)
Definition reported_urls (tool : text) (output : tool_output)
  : option (list text) :=
  if text_eqb tool tavily then
    match output with
    | OutputList items => Some (urls_of items)
    | OutputOther => None
    end
  else None.

(** The text a graph event adds to the answer. *)
Definition streamed_text (event : graph_event) : text :=
  match event with
  | on_chat_model_stream (AIMessageChunk (Str chunk_content)) =>
    chunk_content
  | _ => []
  end.

(** Graph events whose texts the server's escaping gets right. *)
Definition clean (event : graph_event) : bool :=
  match event with
  | on_chat_model_stream (AIMessageChunk (Str chunk_content)) =>
    forallb plain chunk_content
  | on_chat_model_stream _ => false
  | on_chat_model_end tool_calls =>
    match announced_query tool_calls with
    | Some (Str search_query) => forallb query_plain search_query
    | Some NotStr => false
    | None => true
    end
  | on_tool_end tool output =>
    match reported_urls tool output with
    | Some urls => forallb (forallb code_unit) urls
    | None => true
    end
  | on_other => true
  end.

(** Graph events that bring no carriage return into the stream: the
    escaping takes care of the line feeds of a chunk and of a query, and
    leaves their carriage returns. *)
Definition unbroken (event : graph_event) : bool :=
  match event with
  | on_chat_model_stream (AIMessageChunk (Str chunk_content)) =>
    forallb no_cr chunk_content
  | on_chat_model_end tool_calls =>
    match announced_query tool_calls with
    | Some (Str search_query) => forallb no_cr search_query
    | _ => true
    end
  | _ => true
  end.

(** What the graph's events tell the page of a search: that one is
    announced, with its query, or that one has reported its URLs. *)
Inductive notice : Type :=
| Announced (search_query : text)
| Reported (urls : list text).

Definition notices (event : graph_event) : list notice :=
  match event with
  | on_chat_model_end tool_calls =>
    match announced_query tool_calls with
    | Some (Str search_query) => [Announced search_query]
    | _ => []
    end
  | on_tool_end tool output =>
    match reported_urls tool output with
    | Some urls => [Reported urls]
    | None => []
    end
  | _ => []
  end.

(** The types of the events a response carries, as the page reads them:
    for each message the browser dispatches, the [type] of the value its
    data parses to, when it parses and has one. *)
Definition wire_types (body : text) : list (option text) :=
  map Client.wire_type (EventStream.messages body).

(** The types of the events the loop over the graph's events sends. *)
Definition turn_types : list text :=
  [str "content"; str "search_start"; str "search_results"].

(** The type of the event a new conversation's stream opens with. *)
Definition opening_types (checkpoint_id : option text) : list text :=
  match checkpoint_id with
  | None => [str "checkpoint"]
  | Some _ => []
  end.

(** Events whose text holds no line end. *)
Definition on_one_line (e : sse) : bool :=
  match e with
  | checkpoint checkpoint_id => forallb inline checkpoint_id
  | content safe_content => forallb inline safe_content
  | search_start safe_query => forallb inline safe_query
  | search_results _ => true
  | end_ => true
  end.

(** Text that is not blank: some character of it is no white space. *)
Definition not_blank (t : text) : bool :=
  existsb (fun c => negb (is_js_whitespace c)) t.

(** The characters [encodeURIComponent] writes: the unreserved ones and
    the percent sign. *)
Definition segment_character (c : N) : bool :=
  URI.unreserved c || (c =? 37).

End Protocol.

Module Effects.

Import Client.
Local Open Scope Z_scope.

(** What an update of the message [target] may do to a list of messages:
    every message keeps its place, its id, its side and its type, and the
    messages with another id stay as they are. *)
Definition updates_only (target : Z) (before after : list Message) : Prop :=
  Forall2 (fun m m' =>
             id m' = id m /\ isUser m' = isUser m /\ type m' = type m /\
             (id m <> target -> m' = m))
          before after.

(** An update of one message as the handlers make them: it leaves the
    message as it is or ends its loading, and keeps what identifies it. *)
Definition settles (f : Message -> Message) : Prop :=
  forall m,
    id (f m) = id m /\ isUser (f m) = isUser m /\ type (f m) = type m /\
    (f m = m \/ isLoading (f m) = Some false).

(** What the handlers do to the page and the stream, seen from outside. *)
Definition framed (st st' : State) : Prop :=
  aiResponseId (snd st') = aiResponseId (snd st) /\
  currentMessage (fst st') = currentMessage (fst st) /\
  exists f, settles f /\
            messages (fst st')
            = update_message (aiResponseId (snd st)) f (messages (fst st)).

Section Records.

Context {host : Host}.

(** The search record the stream holds once it has handled the event of
    a notice, from the record it held before. *)
Definition noted (searchData : option SearchInfo) (n : Protocol.notice)
  : option SearchInfo :=
  Some match n with
       | Protocol.Announced search_query =>
         {| stages := [Searching]; query := Some (JString search_query);
            urls := Some (JArray []); error := undefined |}
       | Protocol.Reported urls_ =>
         {| stages := stages_with searchData Reading;
            query := query_or_empty searchData;
            urls := Some (JArray (map JString urls_));
            error := undefined |}
       end.

(** What a delivery keeps: the stream stays open, the answer grows by
    [added], the checkpoint id stays, and the search record follows the
    notices. *)
Definition extends (st st' : State) (added : text)
    (notes : list Protocol.notice) : Prop :=
  Open st' /\
  streamedContent (snd st') = streamedContent (snd st) ++ added /\
  checkpointId (fst st') = checkpointId (fst st) /\
  searchData (snd st') = fold_left noted notes (searchData (snd st)).

(** The search record of the response's message when the stream has
    ended with [end]. *)
Definition final_record (searchData : option SearchInfo) : SearchInfo :=
  match searchData with
  | Some info =>
    {| stages := stages info ++ [Writing]; query := query info;
       urls := urls info; error := error info |}
  | None => empty_info
  end.

End Records.

(** What a submission appends to the messages. *)
Definition appended (p0 : Page) (o : outcome) : list Message :=
  let n := newMessageId_of (messages p0) in
  [user_message n (currentMessage p0); placeholder (n + 1)]
  ++ match o with
     | ConnectionFailed => [connection_error_message n]
     | _ => []
     end.

End Effects.

(** ** Hosts and inputs for the examples *)

(** A browser with [EventSource]; the events of the examples carry no
    number but, at most, integers written without sign or leading zero, which
    are their own string and are zero only as [0]. *)
Definition browser : Host :=
  {| Number_toString := fun lexeme => lexeme;
     Number_isZero := fun lexeme => text_eqb lexeme (str "0");
     EventSource_constructs := fun _ => true |}.

(** The same where [new EventSource(url)] throws. *)
Definition browser_without_EventSource : Host :=
  {| Number_toString := fun lexeme => lexeme;
     Number_isZero := fun lexeme => text_eqb lexeme (str "0");
     EventSource_constructs := fun _ => false |}.

(** The page after typing [hi] into the input of a fresh page. *)
Definition hi_page : Client.Page :=
  Client.setCurrentMessage (str "hi") Client.initial_page.

(** The same page in a conversation whose thread id it holds. *)
Definition hi_again_page : Client.Page :=
  Client.setCheckpointId (Some (JString (str "abc-123"))) hi_page.

(** A text that closes the string it is put in and goes on with members
    of its own: [x], a double quote, then the members [type], with the
    value [checkpoint], and [checkpoint_id], whose value [evil] it leaves
    for the closing quote of the string. *)
Definition member_text : text :=
  str "x" ++ [Chr.dquote] ++ str ", "
  ++ Server.member (str "type") (Server.quoted (str "checkpoint"))
  ++ str ", "
  ++ Server.quoted (str "checkpoint_id") ++ str ": " ++ [Chr.dquote]
  ++ str "evil".

(** A server event as the [EventSource] delivers it. *)
Definition wire (e : Server.sse) : Client.event :=
  Client.message (Server.payload e).

(** A first Turn in which the model asks for one search and then
    answers: the graph's events, and the stream the server makes of them. *)
Definition search_graph_events : list Server.graph_event :=
  [Server.on_chat_model_stream (Server.AIMessageChunk (Server.Str []));
   Server.on_chat_model_end
     (Some [{| Server.name := Server.tavily;
               Server.query := Some (Server.Str (str "weather")) |}]);
   Server.on_tool_end Server.tavily
     (Server.OutputList [Server.ItemDict (Some (str "https://example.com/a"))]);
   Server.on_chat_model_stream
     (Server.AIMessageChunk (Server.Str (str "Sunny")));
   Server.on_chat_model_stream
     (Server.AIMessageChunk (Server.Str (str " day")));
   Server.on_chat_model_end None].

Definition search_stream : list Client.event :=
  map wire
      (fst (Server.generate_chat_responses (str "hi") None (str "abc-123")
              search_graph_events Server.Exhausted)).

(** The two search events of such a Turn. *)
Definition search_turn : list Client.event :=
  [wire (Server.search_start (str "weather"));
   wire (Server.search_results [str "https://example.com/a"])].

(** [JSON.stringify] on the values of the examples: texts without lone
    surrogates, integers written without sign or leading zero, objects
    whose keys differ and are no array indices. *)
Definition stringify_char (c : N) : text :=
  (if c =? Chr.dquote then [Chr.backslash; Chr.dquote]
   else if c =? Chr.backslash then [Chr.backslash; Chr.backslash]
   else if c =? 8 then str "\b"
   else if c =? Chr.tab then str "\t"
   else if c =? Chr.lf then str "\n"
   else if c =? 12 then str "\f"
   else if c =? Chr.cr then str "\r"
   else if c <? 32 then
     str "\u00" ++ [Server.hex_digit (c / 16); Server.hex_digit (c mod 16)]
   else [c])%N.

Definition stringify_string (s : text) : text :=
  Server.quoted (flat_map stringify_char s).

Fixpoint stringify (v : json) : text :=
  match v with
  | JNull => str "null"
  | JBool true => str "true"
  | JBool false => str "false"
  | JNumber lexeme => lexeme
  | JString s => stringify_string s
  | JArray items =>
    Chr.lbracket
    :: (fix elements (vs : list json) : text :=
          match vs with
          | [] => []
          | [v1] => stringify v1
          | v1 :: vs' => stringify v1 ++ Chr.comma :: elements vs'
          end) items
    ++ [Chr.rbracket]
  | JObject members =>
    Chr.lbrace
    :: (fix entries (ms : list (text * json)) : text :=
          match ms with
          | [] => []
          | [(k, v1)] => stringify_string k ++ Chr.colon :: stringify v1
          | (k, v1) :: ms' =>
            stringify_string k ++ Chr.colon :: stringify v1
            ++ Chr.comma :: entries ms'
          end) members
    ++ [Chr.rbrace]
  end.

(** A renderer for the examples; [v > 0] is given for the lengths an
    example's object may hold: a boolean, [null] or such an integer. *)
Definition browser_renderer : Renderer :=
  {| JSON_stringify := stringify;
     greater_than_zero := fun v =>
       match v with
       | JBool b => Some b
       | JNumber lexeme => Some (negb (text_eqb lexeme (str "0")))
       | _ => Some false
       end |}.

(** A search tool for the examples: the query is its own result. *)
Definition echo_search (query : text) : option (list text) := Some [query].

(** A state of the graph in which the model asks for a search. *)
Definition asking_state : list (Agent.BaseMessage text text) :=
  [Agent.HumanMessage (str "weather?");
   Agent.AIMessage []
     [{| Agent.name := Server.tavily; Agent.args := str "weather";
         Agent.id := str "call_1" |}]].

(** ** Tactics *)

(** Splits on the next test or call the parser's result hangs on. *)
Ltac parse_case :=
  match goal with
  | H : match ?x with _ => _ end = _ |- _ => destruct x eqn:?; try discriminate
  | H : (if ?x then _ else _) = _ |- _ => destruct x eqn:?; try discriminate
  | H : (let (_, _) := ?x in _) = _ |- _ => destruct x eqn:?; try discriminate
  end.

(** * Properties *)

(** ** [JSON.parse] always has fuel enough *)

Module JSONFacts.

Import JSON.

Lemma skip_ws_length (s : text) : length (skip_ws s) <= length s.
Proof.
  induction s as [|c r IH]; simpl; [lia|].
  destruct (is_ws c); simpl; lia.
Qed.

Lemma skip_ws_cons (s r : text) (c : N) :
  skip_ws s = c :: r -> length r < length s.
Proof.
  intros H. pose proof (skip_ws_length s) as L. rewrite H in L. simpl in L. lia.
Qed.

Lemma scan_string_length (s body rest : text) :
  scan_string s = Some (body, rest) -> length rest < length s.
Proof.
  assert (G : forall n s, length s <= n -> forall body rest,
               scan_string s = Some (body, rest) -> length rest < length s);
    [|eauto].
  clear. induction n as [|n IHn]; intros s L body rest H.
  { destruct s; [discriminate|simpl in L; lia]. }
  assert (IH : forall t b r, length t < length s ->
               scan_string t = Some (b, r) -> length r < length t)
    by (intros t b r Lt; apply IHn; lia).
  clear IHn.
  destruct s as [|c s1]; simpl in H; [discriminate|].
  destruct (N.eqb c Chr.dquote).
  { inversion H; subst. simpl. lia. }
  destruct (N.eqb c Chr.backslash).
  - destruct s1 as [|e s2]; [discriminate|].
    destruct (N.eqb e 117).
    + destruct s2 as [|h1 [|h2 [|h3 [|h4 s6]]]]; try discriminate.
      destruct (hex4 h1 h2 h3 h4); try discriminate.
      destruct (scan_string s6) as [[b r]|] eqn:E; try discriminate.
      inversion H; subst. apply IH in E; simpl in *; lia.
    + destruct (unescape e); try discriminate.
      destruct (scan_string s2) as [[b r]|] eqn:E; try discriminate.
      inversion H; subst. apply IH in E; simpl in *; lia.
  - destruct (N.ltb c 32); try discriminate.
    destruct (scan_string s1) as [[b r]|] eqn:E; try discriminate.
    inversion H; subst. apply IH in E; simpl in *; lia.
Qed.

Lemma span_digits_length (s ds r : text) :
  span_digits s = (ds, r) -> length r <= length s.
Proof.
  revert ds r. induction s as [|c s IH]; intros ds r H; simpl in H.
  - inversion H; simpl; lia.
  - destruct (is_digit c).
    + destruct (span_digits s) as [ds' r'] eqn:E. inversion H; subst.
      specialize (IH _ _ eq_refl). simpl; lia.
    + inversion H; subst; simpl; lia.
Qed.

Lemma digits1_length (s ds r : text) :
  digits1 s = Some (ds, r) -> length r <= length s.
Proof.
  unfold digits1. destruct (span_digits s) as [ds' r'] eqn:E.
  destruct ds'; intros H; inversion H; subst.
  eapply span_digits_length; eauto.
Qed.

Lemma scan_int_length (s i r : text) :
  scan_int s = Some (i, r) -> length r < length s.
Proof.
  unfold scan_int. destruct s as [|c s]; [discriminate|].
  destruct (N.eqb c Chr.zero).
  - intros H; inversion H; subst; simpl; lia.
  - destruct (is_digit c); [|discriminate].
    destruct (span_digits s) as [ds r'] eqn:E. intros H; inversion H; subst.
    apply span_digits_length in E. simpl; lia.
Qed.

Lemma scan_frac_length (s f r : text) :
  scan_frac s = Some (f, r) -> length r <= length s.
Proof.
  unfold scan_frac. destruct s as [|c s]; [intros H; inversion H; simpl; lia|].
  destruct (N.eqb c Chr.dot).
  - destruct (digits1 s) as [[ds r']|] eqn:E; [|discriminate].
    intros H; inversion H; subst. apply digits1_length in E. simpl; lia.
  - intros H; inversion H; subst; simpl; lia.
Qed.

Lemma scan_exp_length (s e r : text) :
  scan_exp s = Some (e, r) -> length r <= length s.
Proof.
  unfold scan_exp. destruct s as [|c s]; [intros H; inversion H; simpl; lia|].
  destruct (N.eqb c 101 || N.eqb c 69).
  - destruct s as [|g r0].
    + simpl. discriminate.
    + destruct (N.eqb g Chr.plus || N.eqb g Chr.minus).
      * destruct (digits1 r0) as [[ds r']|] eqn:E; [|discriminate].
        intros H; inversion H; subst. apply digits1_length in E. simpl; lia.
      * destruct (digits1 (g :: r0)) as [[ds r']|] eqn:E; [|discriminate].
        intros H; inversion H; subst. apply digits1_length in E.
        simpl in *; lia.
  - intros H; inversion H; subst; simpl; lia.
Qed.

Lemma scan_number_length (s l r : text) :
  scan_number s = Some (l, r) -> length r < length s.
Proof.
  unfold scan_number.
  set (p := match s with
            | [] => ([], s)
            | c :: r0 => if N.eqb c Chr.minus then ([c], r0) else ([], s)
            end).
  assert (Hp : length (snd p) <= length s).
  { subst p. destruct s as [|c r0]; simpl; [lia|].
    destruct (N.eqb c Chr.minus); simpl; lia. }
  destruct p as [sign s0]. simpl in Hp.
  destruct (scan_int s0) as [[i s1]|] eqn:E1; [|discriminate].
  destruct (scan_frac s1) as [[f s2]|] eqn:E2; [|discriminate].
  destruct (scan_exp s2) as [[e s3]|] eqn:E3; [|discriminate].
  intros H; inversion H; subst.
  apply scan_int_length in E1. apply scan_frac_length in E2.
  apply scan_exp_length in E3. lia.
Qed.

Lemma strip_prefix_length (p s r : text) :
  strip_prefix p s = Some r -> length r + length p = length s.
Proof.
  revert s. induction p as [|x p IH]; intros s H; simpl in H.
  - inversion H; subst. simpl; lia.
  - destruct s as [|y s]; [discriminate|].
    destruct (N.eqb x y); [|discriminate].
    apply IH in H. simpl; lia.
Qed.

(** A value, an element list and a member list take at least one character. *)
Lemma parse_consumes (n : nat) :
  (forall s v r, parse_value n s = Ok v r -> length r < length s) /\
  (forall s vs r, parse_elements n s = Ok vs r -> length r < length s) /\
  (forall s ms r, parse_members n s = Ok ms r -> length r < length s).
Proof.
  induction n as [|n (IHv & IHe & IHm)]; [repeat split; discriminate|].
  repeat split; intros s x r H;
    cbn [parse_value parse_elements parse_members] in H.
  - repeat parse_case;
      inversion H; subst;
      repeat match goal with
      | E : skip_ws _ = _ :: _ |- _ => apply skip_ws_cons in E
      | E : parse_members _ _ = Ok _ _ |- _ => apply IHm in E
      | E : parse_elements _ _ = Ok _ _ |- _ => apply IHe in E
      | E : scan_string _ = Some _ |- _ => apply scan_string_length in E
      | E : scan_number _ = Some _ |- _ => apply scan_number_length in E
      | E : strip_prefix _ _ = Some _ |- _ => apply strip_prefix_length in E
      end; simpl in *; try lia.
  - repeat parse_case;
      inversion H; subst;
      repeat match goal with
      | E : skip_ws _ = _ :: _ |- _ => apply skip_ws_cons in E
      | E : parse_value _ _ = Ok _ _ |- _ => apply IHv in E
      | E : parse_elements _ _ = Ok _ _ |- _ => apply IHe in E
      end; simpl in *; try lia.
  - repeat parse_case;
      inversion H; subst;
      repeat match goal with
      | E : skip_ws _ = _ :: _ |- _ => apply skip_ws_cons in E
      | E : parse_value _ _ = Ok _ _ |- _ => apply IHv in E
      | E : parse_members _ _ = Ok _ _ |- _ => apply IHm in E
      | E : scan_string _ = Some _ |- _ => apply scan_string_length in E
      end; simpl in *; try lia.
Qed.

Lemma parse_fuel (n : nat) :
  (forall s, 2 * length s < n -> parse_value n s <> OutOfFuel) /\
  (forall s, 2 * length s + 1 < n -> parse_elements n s <> OutOfFuel) /\
  (forall s, 2 * length s + 1 < n -> parse_members n s <> OutOfFuel).
Proof.
  induction n as [|n (IHv & IHe & IHm)]; [repeat split; intros; lia|].
  destruct (parse_consumes n) as (Cv & Ce & Cm).
  repeat split; intros s L H;
    cbn [parse_value parse_elements parse_members] in H.
  - repeat parse_case;
      repeat match goal with
      | E : skip_ws _ = _ :: _ |- _ => apply skip_ws_cons in E
      | E : parse_members _ _ = OutOfFuel |- _ =>
        apply IHm in E; [contradiction|]
      | E : parse_elements _ _ = OutOfFuel |- _ =>
        apply IHe in E; [contradiction|]
      end; simpl in *; try lia.
  - repeat parse_case;
      repeat match goal with
      | E : skip_ws _ = _ :: _ |- _ => apply skip_ws_cons in E
      | E : parse_value _ _ = Ok _ _ |- _ => apply Cv in E
      | E : parse_value _ _ = OutOfFuel |- _ =>
        apply IHv in E; [contradiction|]
      | E : parse_elements _ _ = OutOfFuel |- _ =>
        apply IHe in E; [contradiction|]
      end; simpl in *; try lia.
  - repeat parse_case;
      repeat match goal with
      | E : skip_ws _ = _ :: _ |- _ => apply skip_ws_cons in E
      | E : scan_string _ = Some _ |- _ => apply scan_string_length in E
      | E : parse_value _ _ = Ok _ _ |- _ => apply Cv in E
      | E : parse_value _ _ = OutOfFuel |- _ =>
        apply IHv in E; [contradiction|]
      | E : parse_members _ _ = OutOfFuel |- _ =>
        apply IHm in E; [contradiction|]
      end; simpl in *; try lia.
Qed.

(** The fuel [JSON.parse] gives itself is never used up: where it answers
    [None], the text is not JSON. *)
Lemma parse_fuel_enough (s : text) :
  parse_value (2 * length s + 1) s <> OutOfFuel.
Proof. apply (parse_fuel (2 * length s + 1)). lia. Qed.

End JSONFacts.

(** ** Facts about text *)

Lemma text_eqb_eq (a b : text) : text_eqb a b = true <-> a = b.
Proof.
  revert b. induction a as [|x a IH]; intros [|y b]; simpl; split;
    try congruence; try discriminate.
  - intros H. apply andb_true_iff in H as [H1 H2].
    apply N.eqb_eq in H1. apply IH in H2. congruence.
  - intros H. inversion H; subst. rewrite N.eqb_refl. simpl. now apply IH.
Qed.

Lemma text_eqb_refl (a : text) : text_eqb a a = true.
Proof. now apply text_eqb_eq. Qed.

Lemma is_empty_nil (t : text) : is_empty t = true <-> t = [].
Proof. destruct t; simpl; split; congruence. Qed.

Lemma trim_start_whitespace (s : text) :
  forallb is_js_whitespace s = true -> trim_start s = [].
Proof.
  induction s as [|c s IH]; simpl; [reflexivity|].
  intros H. apply andb_true_iff in H as [Hc Hs]. rewrite Hc. auto.
Qed.

Lemma trim_whitespace (s : text) :
  forallb is_js_whitespace s = true -> trim s = [].
Proof.
  intros H. unfold trim. now rewrite (trim_start_whitespace s H).
Qed.

(** ** The server's generator *)

Module ServerFacts.

Import Server.

Lemma stream_loop_returned events :
  Forall (fun e => on_event e <> None) events ->
  stream_loop events Exhausted = (yields events ++ [end_], Returned).
Proof.
  induction 1 as [|event events Hev _ IH]; simpl; [reflexivity|].
  destruct (on_event event) as [yielded|]; [|contradiction].
  rewrite IH. now rewrite app_assoc.
Qed.

End ServerFacts.

(** ** The claims about the server *)

Section ServerClaims.

Import Server ServerFacts.

(** *** Escaping *)

Lemma payload_content (safe_content : text) :
  payload (content safe_content)
  = content_prefix ++ safe_content ++ [Chr.dquote; Chr.rbrace].
Proof.
  unfold payload, object, member, quoted, content_prefix. simpl.
  now rewrite <- app_assoc.
Qed.

(** A [content] event parses when its escaped fragment reads as the inside
    of a JSON string. *)
Lemma parse_content_payload (safe_content body : text) :
  JSON.scan_string (safe_content ++ [Chr.dquote; Chr.rbrace])
  = Some (body, [Chr.rbrace]) ->
  JSON.parse (payload (content safe_content))
  = Some (Client.content_event_of body).
Proof.
  intros H. rewrite payload_content. unfold JSON.parse.
  remember (2 * length (content_prefix ++ safe_content
                        ++ [Chr.dquote; Chr.rbrace]) + 1)%nat
    as fuel eqn:F.
  destruct fuel as [|[|[|[|fuel]]]];
    try (rewrite length_app in F; simpl in F; lia).
  clear F. unfold content_prefix.
  cbn [JSON.parse_value JSON.parse_members JSON.parse_elements].
  simpl. rewrite H. reflexivity.
Qed.

Lemma safe_content_cons (c : N) (fragment : text) :
  safe_content_of (c :: fragment)
  = (if (c =? Chr.squote)%N then [Chr.backslash; Chr.squote]
     else if (c =? Chr.lf)%N then str "\n" else [c])
    ++ safe_content_of fragment.
Proof.
  unfold safe_content_of, replace. simpl.
  destruct (c =? Chr.squote)%N eqn:E; simpl.
  - reflexivity.
  - destruct (c =? Chr.lf)%N; reflexivity.
Qed.

Lemma scan_safe_content (fragment rest : text) :
  forallb plain fragment = true ->
  JSON.scan_string (safe_content_of fragment ++ Chr.dquote :: rest)
  = Some (fragment, rest).
Proof.
  induction fragment as [|c fragment IH]; intros P.
  - reflexivity.
  - simpl in P. apply andb_true_iff in P as [Pc Pf].
    rewrite safe_content_cons. specialize (IH Pf).
    unfold plain in Pc.
    destruct (c =? Chr.lf)%N eqn:L.
    + apply N.eqb_eq in L. subst c. simpl. rewrite IH. reflexivity.
    + rewrite orb_false_r in Pc.
      apply andb_true_iff in Pc as [Pc B]. apply andb_true_iff in Pc as [Pc S].
      apply andb_true_iff in Pc as [G Q].
      apply negb_true_iff in B, S, Q. rewrite S.
      cbn [app JSON.scan_string]. rewrite Q, B, IH.
      replace (c <? 32)%N with false
        by (symmetry; apply N.ltb_ge; now apply N.leb_le).
      reflexivity.
Qed.

(** The part of the round trip that holds: a fragment of printable
    characters other than quotes and backslashes, line breaks included,
    reaches the reducer as it left the model. *)
Lemma plain_fragment_round_trips (fragment : text) :
  forallb plain fragment = true ->
  JSON.parse (payload (content (safe_content_of fragment)))
  = Some (Client.content_event_of fragment).
Proof.
  intros P. apply parse_content_payload. now apply scan_safe_content.
Qed.

(** C3, a defect of the code.  The escaping of a streamed fragment leaves
    double quotes and backslashes as they are.  The event for the fragment
    [say "hi"] is not JSON, so [JSON.parse] throws and the reducer drops it;
    the event for the fragment [C:\new] parses, but to a text in which a
    line feed stands for the backslash and the [n].  Single quotes, which
    the escaping turns into the escape [\'] that JSON does not have, break
    the event as well. *)
Theorem C3_quote_and_backslash_do_not_round_trip :
  JSON.parse (payload (content (safe_content_of
                (str "say " ++ [Chr.dquote] ++ str "hi" ++ [Chr.dquote]))))
  = None /\
  JSON.parse (payload (content (safe_content_of (str "C:\new"))))
  = Some (Client.content_event_of (str "C:" ++ [Chr.lf] ++ str "ew")) /\
  JSON.parse (payload (content (safe_content_of (str "It's")))) = None.
Proof. repeat split; vm_compute; reflexivity. Qed.

End ServerClaims.

(** ** The reducer, one event at a time *)

Module ClientFacts.

Import Client.
#[local] Open Scope Z_scope.
#[local] Arguments str : simpl never.

Section WithHost.

Context {host : Host}.

Lemma filter_update_message target f prev :
  (forall m, id (f m) = id m) ->
  filter (fun msg => id msg =? target) (update_message target f prev)
  = map f (filter (fun msg => id msg =? target) prev).
Proof.
  intros Hf. unfold update_message.
  induction prev as [|m prev IH]; simpl; [reflexivity|].
  destruct (id m =? target) eqn:E; simpl.
  - rewrite Hf, E. simpl. now rewrite IH.
  - now rewrite E, IH.
Qed.

Lemma update_message_ids target f prev :
  (forall m, id (f m) = id m) ->
  map id (update_message target f prev) = map id prev.
Proof.
  intros Hf. unfold update_message. rewrite map_map.
  apply map_ext. intros m. destruct (id m =? target); auto.
Qed.

Lemma well_staged_app l x :
  well_staged l = true -> follow_up x = true -> well_staged (l ++ [x]) = true.
Proof.
  destruct l as [|first rest]; simpl.
  - destruct x; simpl; congruence.
  - destruct first; try discriminate; intros H Hx;
      rewrite forallb_app; simpl; now rewrite H, Hx.
Qed.

Lemma stages_with_record s x :
  stages_with (searchData s) x = stages (record_of s) ++ [x].
Proof. unfold stages_with, record_of. now destruct (searchData s). Qed.

(** *** One event at a time *)

Lemma is_literal_type v name :
  is_literal (prop v (str "type")) name = true -> event_type v = Some name.
Proof.
  unfold is_literal, event_type.
  destruct (prop v (str "type")) as [[| | |s| |]|]; try discriminate.
  intros H. apply text_eqb_eq in H. now subst.
Qed.

Lemma on_type_shape v st st' :
  on_type v st = Some st' -> step_shape v st st'.
Proof.
  unfold on_type.
  destruct (is_literal _ (str "checkpoint")) eqn:E1.
  { intros H; inversion H; subst. eapply shape_checkpoint; eauto. }
  destruct (is_literal _ (str "content")) eqn:E2.
  { unfold on_content. destruct st as [p s].
    destruct (concat_operand _) as [fragment|] eqn:C; [|discriminate].
    intros H; inversion H; subst.
    eapply shape_content; eauto using is_literal_type. }
  destruct (is_literal _ (str "search_start")) eqn:E3.
  { intros H; inversion H; subst.
    apply shape_search_start; auto using is_literal_type. }
  destruct (is_literal _ (str "search_results")) eqn:E4.
  { intros H; inversion H; subst. unfold on_search_results.
    apply is_literal_type in E4.
    destruct (prop v (str "urls")) as [[| | |u| |]|];
      try (eapply shape_search_more;
           [| |rewrite stages_with_record; reflexivity];
           [reflexivity|now left]).
    destruct (JSON.parse u); [|now apply shape_same].
    eapply shape_search_more;
      [| |rewrite stages_with_record; reflexivity];
      [reflexivity|now left]. }
  destruct (is_literal _ (str "search_error")) eqn:E5.
  { intros H; inversion H; subst. unfold on_search_error.
    apply is_literal_type in E5.
    eapply shape_search_more;
      [| |rewrite stages_with_record; reflexivity];
      [reflexivity|now right]. }
  destruct (is_literal _ (str "end")) eqn:E6.
  { intros H; inversion H; subst.
    apply shape_end; auto using is_literal_type. }
  intros H; inversion H; subst. now apply shape_same.
Qed.

Lemma on_data_shape v st st' :
  on_data v st = Some st' -> step_shape v st st'.
Proof.
  destruct v; try apply on_type_shape. discriminate.
Qed.

Lemma onmessage_shape event_data st :
  onmessage event_data st = st \/
  exists v, JSON.parse event_data = Some v /\
            step_shape v st (onmessage event_data st).
Proof.
  unfold onmessage. destruct (JSON.parse event_data) as [v|]; [|now left].
  destruct (on_data v st) as [st'|] eqn:E; [|now left].
  right. exists v. split; [reflexivity|]. now apply on_data_shape.
Qed.

Lemma shown_with_content s streamed :
  with_content streamed (shown s) = shown (set_streamedContent streamed s).
Proof. reflexivity. Qed.

Lemma shown_with_search s info :
  with_content_and_search (streamedContent s) info (shown s)
  = shown (set_searchData info s).
Proof.
  unfold shown, with_content_and_search, touched; simpl.
  now rewrite orb_true_r.
Qed.

Lemma Open_show_search st info :
  Open st -> well_staged (stages info) = true -> Open (show_search info st).
Proof.
  intros [Hc Hs Hr Hw] Hi. destruct st as [p s]; simpl in *.
  split; simpl; auto.
  unfold assistant_messages in *; simpl in *.
  rewrite filter_update_message by reflexivity.
  rewrite Hs. simpl. now rewrite shown_with_search.
Qed.

(** An event that leaves the stream open keeps the invariant. *)
Lemma Open_dispatch st e :
  Open st -> closed (snd (dispatch st e)) = false -> Open (dispatch st e).
Proof.
  intros O. pose proof O as [Hc Hs Hr Hw]. unfold dispatch. rewrite Hc.
  destruct e as [event_data|].
  - destruct (onmessage_shape event_data st) as [->|(v & _ & S)]; [auto|].
    destruct S as [->|x ->|fragment C T ->|T ->|x q u e F G ->|T ->]; auto.
    + destruct st as [p s]. split; simpl in *; auto.
    + destruct st as [p s]; simpl in *. split; simpl; auto.
      unfold assistant_messages in *; simpl in *.
      rewrite filter_update_message by reflexivity.
      rewrite Hs. reflexivity.
    + intros _. now apply Open_show_search.
    + intros _. apply Open_show_search; auto. simpl.
      now apply well_staged_app.
    + unfold on_end. destruct st as [p s]; simpl.
      destruct (searchData s); simpl; discriminate.
  - unfold onerror. destruct st as [p s]; simpl.
    destruct (is_empty (streamedContent s)); simpl; discriminate.
Qed.

Lemma dispatch_closed st e :
  closed (snd st) = true -> dispatch st e = st.
Proof. unfold dispatch. now intros ->. Qed.

Lemma run_closed events st :
  closed (snd st) = true -> run events st = st.
Proof.
  unfold run. induction events as [|e events IH]; simpl; [reflexivity|].
  intros Hc. rewrite dispatch_closed by assumption. auto.
Qed.

Lemma run_app pre post st : run (pre ++ post) st = run post (run pre st).
Proof. unfold run. apply fold_left_app. Qed.

(** What closes the stream: a transport failure or an [end] event. *)
Lemma dispatch_closes st e :
  closed (snd st) = false -> closed (snd (dispatch st e)) = true ->
  e = failure /\ dispatch st e = onerror st \/
  is_end_event e /\ dispatch st e = on_end st.
Proof.
  intros Hc. unfold dispatch. rewrite Hc.
  destruct e as [event_data|]; [|now left].
  destruct (onmessage_shape event_data st) as [->|(v & P & S)]; [congruence|].
  destruct S as [->|x ->|fragment C T ->|T ->|x q u e F G ->|T ->];
    try (destruct st as [p s]; simpl in *; congruence).
  intros _. right. split; [|reflexivity]. exists event_data, v. auto.
Qed.

(** A run is open all along, or was closed by one event from an open
    state and ignored the events after it. *)
Lemma run_Open events st :
  Open st ->
  Open (run events st) \/
  exists pre e post,
    events = pre ++ e :: post /\ Open (run pre st) /\
    closed (snd (dispatch (run pre st) e)) = true /\
    run events st = dispatch (run pre st) e.
Proof.
  intros O. induction events as [|e events IH] using rev_ind; [now left|].
  rewrite run_app.
  change (run [e] (run events st)) with (dispatch (run events st) e).
  destruct IH as [IH|(pre & e' & post & -> & Op & Cl & R)].
  - destruct (closed (snd (dispatch (run events st) e))) eqn:C.
    + right. exists events, e, [].
      split; [reflexivity|]. split; [assumption|].
      split; [assumption|reflexivity].
    + left. now apply Open_dispatch.
  - right. exists pre, e', (post ++ [e]).
    rewrite <- app_assoc.
    split; [reflexivity|]. split; [assumption|]. split; [assumption|].
    rewrite R. now apply dispatch_closed.
Qed.

End WithHost.
End ClientFacts.

(** ** [handleSubmit] *)

Module SubmitFacts.

Import Client ClientFacts.
#[local] Open Scope Z_scope.
#[local] Arguments str : simpl never.

Section WithHost.

Context {host : Host}.

Lemma fold_max_ge (l : list Z) (a : Z) :
  a <= fold_left Z.max l a /\ forall x, In x l -> x <= fold_left Z.max l a.
Proof.
  revert a. induction l as [|y l IH]; intros a; simpl.
  - split; [lia|contradiction].
  - destruct (IH (Z.max a y)) as [H1 H2]. split; [lia|].
    intros x [->|Hx]; [lia|auto].
Qed.

(** The new id is above every id of the list. *)
Lemma newMessageId_fresh (msgs : list Message) (m : Message) :
  In m msgs -> id m < newMessageId_of msgs.
Proof.
  destruct msgs as [|first others]; [contradiction|].
  unfold newMessageId_of, max_id.
  destruct (fold_max_ge (map id others) (id first)) as [H1 H2].
  intros [<-|Hm]; [lia|].
  specialize (H2 (id m) (in_map id _ _ Hm)). lia.
Qed.

Lemma handleSubmit_connected p0 p url s :
  handleSubmit p0 = (p, Connected url s) ->
  let newMessageId := newMessageId_of (messages p0) in
  s = new_stream (newMessageId + 1) /\
  checkpointId p = checkpointId p0 /\
  messages p = messages p0 ++ [user_message newMessageId (currentMessage p0);
                               placeholder (newMessageId + 1)].
Proof.
  unfold handleSubmit.
  destruct (is_empty (trim (currentMessage p0))); [discriminate|].
  destruct (request_url _ _) as [u|]; [|discriminate].
  destruct (EventSource_constructs u); [|discriminate].
  intros H; inversion H; subst; simpl.
  repeat split. now rewrite <- app_assoc.
Qed.

Lemma filter_fresh (msgs : list Message) (n : Z) :
  (forall m, In m msgs -> id m < n) ->
  filter (fun msg => id msg =? n) msgs = [].
Proof.
  induction msgs as [|m msgs IH]; simpl; [reflexivity|].
  intros H. destruct (id m =? n) eqn:E.
  - apply Z.eqb_eq in E. specialize (H m (or_introl eq_refl)). lia.
  - apply IH. intros; apply H; auto.
Qed.

(** Right after a submission the stream is open and the placeholder is
    the one message with the response's id. *)
Lemma Open_after_submit p0 p url s :
  handleSubmit p0 = (p, Connected url s) -> Open (p, s).
Proof.
  intros H. apply handleSubmit_connected in H as (-> & _ & Hm).
  split; simpl; try reflexivity; [|congruence].
  unfold assistant_messages. simpl. rewrite Hm, filter_app.
  rewrite filter_fresh
    by (intros m Hin; pose proof (newMessageId_fresh _ _ Hin); lia).
  simpl.
  replace (newMessageId_of (messages p0) =? newMessageId_of (messages p0) + 1)
    with false by (symmetry; apply Z.eqb_neq; lia).
  now rewrite Z.eqb_refl.
Qed.

(** A submission whose stream opens keeps ids pairwise distinct. *)
Lemma handleSubmit_connected_NoDup p0 p url s :
  handleSubmit p0 = (p, Connected url s) ->
  NoDup (map id (messages p0)) -> NoDup (map id (messages p)).
Proof.
  intros H N. apply handleSubmit_connected in H as (_ & _ & Hm).
  rewrite Hm, map_app. simpl.
  assert (F : forall x, In x (map id (messages p0)) ->
                        x < newMessageId_of (messages p0)).
  { intros x Hx. apply in_map_iff in Hx as (m & <- & Hm0).
    now apply newMessageId_fresh. }
  apply NoDup_app; [assumption| |].
  - constructor; [simpl; lia|]. constructor; [simpl; tauto|constructor].
  - intros x Hx [<-|[<-|[]]]; apply F in Hx; lia.
Qed.

End WithHost.
End SubmitFacts.

(** ** The claims about the client *)

Section ReducerClaims.

Import Client ClientFacts SubmitFacts.
#[local] Open Scope Z_scope.
#[local] Arguments str : simpl never.
Context {host : Host}.

Lemma event_type_prop v name :
  event_type v = Some name -> prop v (str "type") = Some (JString name).
Proof.
  unfold event_type.
  destruct (prop v (str "type")) as [[| | |s| |]|]; try discriminate.
  now intros [= ->].
Qed.

Lemma on_data_content v fragment st :
  event_type v = Some (str "content") ->
  prop v (str "content") = Some (JString fragment) ->
  on_data v st
  = Some (setMessages
            (update_message (aiResponseId (snd st))
               (with_content (streamedContent (snd st) ++ fragment)))
            (fst st),
          set_streamedContent (streamedContent (snd st) ++ fragment) (snd st)).
Proof.
  intros T C. pose proof (event_type_prop _ _ T) as P.
  destruct st as [p s].
  destruct v; try discriminate;
    unfold on_data, on_type, on_content; rewrite P, C; reflexivity.
Qed.

Lemma on_data_search_start v st :
  event_type v = Some (str "search_start") ->
  on_data v st = Some (on_search_start v st).
Proof.
  intros T. pose proof (event_type_prop _ _ T) as P.
  destruct v; try discriminate; unfold on_data, on_type; rewrite P;
    reflexivity.
Qed.

Lemma on_data_end v st :
  event_type v = Some (str "end") -> on_data v st = Some (on_end st).
Proof.
  intros T. pose proof (event_type_prop _ _ T) as P.
  destruct v; try discriminate; unfold on_data, on_type; rewrite P;
    reflexivity.
Qed.

Lemma passing_keeps st e :
  Open st -> passing_event e ->
  Open (dispatch st e) /\
  streamedContent (snd (dispatch st e)) = streamedContent (snd st).
Proof.
  intros O (event_data & -> & NC & NE).
  assert (K : closed (snd (dispatch st (message event_data))) = false ->
              streamedContent (snd (dispatch st (message event_data)))
              = streamedContent (snd st) ->
              Open (dispatch st (message event_data)) /\
              streamedContent (snd (dispatch st (message event_data)))
              = streamedContent (snd st))
    by (intros C S; split; [now apply Open_dispatch|exact S]).
  pose proof (open_closed _ O) as Cl.
  unfold dispatch in *. rewrite Cl in *.
  destruct (onmessage_shape event_data st) as [Eq|(v & P & S)];
    [rewrite Eq in *; auto|].
  unfold wire_type in NC, NE. rewrite P in NC, NE.
  destruct S as [Eq|x Eq|fragment Cf T Eq|T Eq|x q u er F G Eq|T Eq];
    try contradiction; rewrite Eq in *; clear Eq; destruct st; auto.
Qed.

Lemma run_carry events fragments st :
  Open st -> carry events fragments ->
  Open (run events st) /\
  streamedContent (snd (run events st))
  = streamedContent (snd st) ++ concat fragments.
Proof.
  intros O F. revert st O.
  induction F
    as [|fragment e events fragments E F IH|e events fragments E F IH];
    intros st O.
  - simpl. now rewrite app_nil_r.
  - change (run (e :: events) st) with (run events (dispatch st e)).
    destruct E as (event_data & v & -> & P & T & C).
    assert (D : dispatch st (message event_data)
                = (setMessages
                     (update_message (aiResponseId (snd st))
                        (with_content (streamedContent (snd st) ++ fragment)))
                     (fst st),
                   set_streamedContent (streamedContent (snd st) ++ fragment)
                     (snd st))).
    { unfold dispatch, onmessage. rewrite (open_closed _ O), P.
      now rewrite (on_data_content _ _ _ T C). }
    assert (O' : Open (dispatch st (message event_data))).
    { apply Open_dispatch; [assumption|]. rewrite D. simpl.
      apply (open_closed _ O). }
    destruct (IH _ O') as [O'' S]. split; [assumption|].
    rewrite S, D. simpl. now rewrite <- app_assoc.
  - change (run (e :: events) st) with (run events (dispatch st e)).
    destruct (passing_keeps _ _ O E) as [O' S'].
    destruct (IH _ O') as [O'' S]. split; [assumption|].
    now rewrite S, S'.
Qed.

Lemma run_content_events fragments events st :
  Open st ->
  Forall2 content_event fragments events ->
  Open (run events st) /\
  streamedContent (snd (run events st))
  = streamedContent (snd st) ++ concat fragments.
Proof.
  intros O F. apply run_carry; [assumption|].
  induction F; [constructor|now constructor].
Qed.

(** C8.  An event whose payload is not JSON, or whose [type] is none of
    those the handler knows, changes nothing -- neither the accumulated
    text, nor the stage record, nor the messages, nor the stream, which
    stays as open as it was -- and the events after it are consumed as if
    it had not been there. *)
Theorem C8_malformed_and_unknown_events_are_skipped
    (event_data : text) (st : State) :
  (JSON.parse event_data = None \/
   exists v, JSON.parse event_data = Some v /\ recognized v = false) ->
  onmessage event_data st = st /\
  forall rest, run (message event_data :: rest) st = run rest st.
Proof.
  intros H.
  assert (M : onmessage event_data st = st).
  { unfold onmessage. destruct H as [->|(v & -> & R)]; [reflexivity|].
    unfold recognized, known_types in R. simpl in R.
    repeat (apply orb_false_iff in R as [? R]).
    destruct v; try reflexivity; unfold on_data, on_type;
      repeat match goal with
             | E : is_literal _ _ = false |- _ => rewrite E; clear E
             end; reflexivity. }
  split; [exact M|]. intros rest.
  change (run (message event_data :: rest) st)
    with (run rest (dispatch st (message event_data))).
  unfold dispatch. rewrite M. now destruct (closed (snd st)).
Qed.

(** C10.  Submitting an input that is empty or all white space leaves
    the page as it is -- messages, input and checkpoint id -- and opens no
    stream. *)
Theorem C10_blank_submission_is_ignored (p : Page) :
  forallb is_js_whitespace (currentMessage p) = true ->
  handleSubmit p = (p, Ignored).
Proof.
  intros H. unfold handleSubmit. now rewrite (trim_whitespace _ H).
Qed.

Lemma well_staged_searching_first l j :
  well_staged l = true -> nth_error l j = Some Searching -> j = 0%nat.
Proof.
  destruct l as [|first rest]; [destruct j; discriminate|].
  destruct j as [|j]; [reflexivity|]. simpl.
  intros W N. apply nth_error_In in N.
  assert (F : forallb follow_up rest = true)
    by (destruct first; simpl in *; (discriminate || assumption)).
  rewrite forallb_forall in F. apply F in N. discriminate.
Qed.

Lemma well_staged_no_writing l : well_staged l = true -> ~ In Writing l.
Proof.
  destruct l as [|first rest]; [auto|]. simpl. intros W [->|N]; [discriminate|].
  assert (F : forallb follow_up rest = true)
    by (destruct first; simpl in *; (discriminate || assumption)).
  rewrite forallb_forall in F. apply F in N. discriminate.
Qed.

Lemma searching_first_ordered l :
  (forall j, nth_error l j = Some Searching -> j = 0%nat) ->
  reading_after_searching l.
Proof.
  intros S i j Ri Sj. pose proof (S _ Sj) as ->.
  destruct i; [|lia]. rewrite Ri in Sj. discriminate.
Qed.

Lemma well_staged_ordered l :
  well_staged l = true ->
  reading_after_searching l /\ reading_after_searching (l ++ [Writing]).
Proof.
  intros W. split; apply searching_first_ordered; intros j N.
  - eapply well_staged_searching_first; eauto.
  - destruct (Nat.lt_ge_cases j (length l)) as [L|L].
    + rewrite nth_error_app1 in N by assumption.
      eapply well_staged_searching_first; eauto.
    + rewrite nth_error_app2 in N by assumption.
      destruct (j - length l)%nat as [|[|k]]; discriminate.
Qed.

(** What [end] does to the shown message. *)
Lemma on_end_shown st :
  Open st ->
  assistant_messages (on_end st)
  = [match searchData (snd st) with
     | Some info =>
       with_search {| stages := stages info ++ [Writing]; query := query info;
                      urls := urls info; error := error info |} (shown (snd st))
     | None => shown (snd st)
     end].
Proof.
  intros [_ Hs _ _]. destruct st as [p s]. unfold on_end.
  unfold assistant_messages in *. simpl in *.
  destruct (searchData s); simpl; [|exact Hs].
  rewrite filter_update_message by reflexivity. now rewrite Hs.
Qed.

Lemma onerror_shown st :
  Open st ->
  assistant_messages (onerror st)
  = [if is_empty (streamedContent (snd st))
     then with_content generic_error (shown (snd st))
     else shown (snd st)].
Proof.
  intros [_ Hs _ _]. destruct st as [p s]. unfold onerror.
  unfold assistant_messages in *. simpl in *.
  destruct (is_empty (streamedContent s)); simpl; [|exact Hs].
  rewrite filter_update_message by reflexivity. now rewrite Hs.
Qed.

Lemma run_open_Open events st :
  Open st -> closed (snd (run events st)) = false -> Open (run events st).
Proof.
  intros O C.
  destruct (run_Open events _ O) as [?|(pre & e & post & _ & _ & Cl & R)];
    [assumption|]. rewrite R in C. congruence.
Qed.

(** C1.  After a submission, whatever other events the stream delivers
    before, between and after them -- the checkpoint of a new
    conversation, the events of a search, events the handler drops -- for
    every sequence of [content] events with fragments [f1 .. fn] the
    accumulated text [streamedContent] is the concatenation
    [f1 ++ ... ++ fn], whatever the boundaries between fragments, and
    that text is the content of the assistant message on display; it
    still is once an [end] event has closed the stream. *)
Theorem C1_content_fragments_concatenate
    (p0 p : Page) (url : text) (s : Stream)
    (fragments : list text) (events last : list event) :
  handleSubmit p0 = (p, Connected url s) ->
  carry events fragments ->
  last = [] \/ (exists e, last = [e] /\ is_end_event e) ->
  let st := run (events ++ last) (p, s) in
  streamedContent (snd st) = concat fragments /\
  exists msg, assistant_messages st = [msg] /\
              content msg = concat fragments.
Proof.
  intros H F L. pose proof (Open_after_submit _ _ _ _ H) as O.
  destruct (run_carry _ _ _ O F) as [O' S].
  apply handleSubmit_connected in H as (-> & _ & _).
  simpl in S. cbv zeta. rewrite run_app.
  destruct L as [->|(e & -> & event_data & v & -> & P & T)].
  - simpl. split; [exact S|].
    eexists. split; [apply (open_shown _ O')|exact S].
  - change (run [message event_data] ?x) with (dispatch x (message event_data)).
    assert (D : dispatch (run events (p, new_stream (newMessageId_of
                                                      (messages p0) + 1)))
                  (message event_data)
                = on_end (run events (p, new_stream (newMessageId_of
                                                       (messages p0) + 1)))).
    { unfold dispatch, onmessage.
      now rewrite (open_closed _ O'), P, (on_data_end _ _ T). }
    rewrite D, (on_end_shown _ O').
    destruct (run events _) as [p1 s1]. unfold on_end. simpl in *.
    destruct (searchData s1); simpl;
      (split; [exact S|]); eexists; (split; [reflexivity|exact S]).
Qed.

(** *** Under the server's order of emission *)

Lemma is_search_start_event_dec e :
  is_search_start_event e \/ ~ is_search_start_event e.
Proof.
  destruct e as [event_data|];
    [|right; intros (d & v & X & _); discriminate X].
  destruct (JSON.parse event_data) as [v|] eqn:P;
    [|right; intros (d & v & X & P' & _); injection X as <-; congruence].
  destruct (event_type v) as [t|] eqn:T;
    [|right; intros (d & v' & X & P' & T'); injection X as <-; congruence].
  destruct (text_eqb t (str "search_start")) eqn:E.
  - apply text_eqb_eq in E. subst t. left. exists event_data, v. auto.
  - right. intros (d & v' & X & P' & T'). injection X as <-.
    assert (v' = v) by congruence. subst v'.
    rewrite T in T'. injection T' as ->. now rewrite text_eqb_refl in E.
Qed.

Lemma search_started_dec pre :
  Exists is_search_start_event pre \/ ~ Exists is_search_start_event pre.
Proof.
  induction pre as [|e pre [IH|IH]].
  - right. intros E. inversion E.
  - left. now constructor 2.
  - destruct (is_search_start_event_dec e) as [S|S].
    + left. now constructor.
    + right. intros E. inversion E; contradiction.
Qed.

Lemma search_known_dispatch pre e st :
  Open st -> search_known pre st ->
  (is_search_progress_event e -> Exists is_search_start_event pre) ->
  closed (snd (dispatch st e)) = false ->
  search_known (pre ++ [e]) (dispatch st e).
Proof.
  intros O [K1 K2] Causal Cl.
  destruct (is_search_start_event_dec e) as [(d & v & -> & P & T)|NS].
  - assert (D : dispatch st (message d) = on_search_start v st).
    { unfold dispatch, onmessage.
      now rewrite (open_closed _ O), P, (on_data_search_start _ _ T). }
    rewrite D. split.
    + intros _. now destruct st.
    + intros N. exfalso. apply N. apply Exists_app. right.
      constructor. exists d, v. auto.
  - assert (X : Exists is_search_start_event (pre ++ [e]) <->
                Exists is_search_start_event pre).
    { rewrite Exists_app. split; [intros [?|E]; [assumption|]|auto].
      inversion E as [? ? E'|? ? E']; [contradiction|inversion E']. }
    assert (Same : record_of (snd (dispatch st e)) = record_of (snd st) /\
                   searchData (snd (dispatch st e)) = searchData (snd st) ->
                   search_known (pre ++ [e]) (dispatch st e)).
    { intros [R S]. split; rewrite X, ?R, ?S; assumption. }
    unfold dispatch in *. rewrite (open_closed _ O) in *.
    destruct e as [event_data|].
    + destruct (onmessage_shape event_data st) as [Eq|(v & P & S)];
        [rewrite Eq in *; now apply Same|].
      destruct S as [Eq|x Eq|fragment Cf T Eq|T Eq|x q u er F G Eq|T Eq];
        rewrite Eq in *; clear Eq.
      * now apply Same.
      * apply Same. now destruct st.
      * apply Same. now destruct st.
      * exfalso. apply NS. exists event_data, v. auto.
      * assert (E : Exists is_search_start_event pre)
          by (apply Causal; exists event_data, v; auto).
        split; [|rewrite X; contradiction].
        intros _. specialize (K1 E). destruct st as [p1 s1]. simpl in *.
        destruct (stages (record_of s1)); [discriminate|exact K1].
      * exfalso. destruct st as [p1 s1]. unfold on_end in Cl. simpl in Cl.
        destruct (searchData s1); simpl in Cl; discriminate Cl.
    + exfalso. destruct st as [p1 s1]. unfold onerror in Cl. simpl in Cl.
      destruct (is_empty (streamedContent s1)); simpl in Cl; discriminate Cl.
Qed.

Lemma causal_order_prefix pre post :
  causal_order (pre ++ post) -> causal_order pre.
Proof.
  intros C a e b E. apply (C a e (b ++ post)). rewrite E.
  now rewrite <- app_assoc.
Qed.

Lemma search_known_run events st :
  Open st -> searchData (snd st) = None -> causal_order events ->
  closed (snd (run events st)) = false ->
  search_known events (run events st).
Proof.
  intros O N. induction events as [|e events IH] using rev_ind; intros C Cl.
  - split; [intros E; inversion E|auto].
  - rewrite run_app in *.
    change (run [e] (run events st)) with (dispatch (run events st) e) in *.
    assert (Cl' : closed (snd (run events st)) = false).
    { destruct (closed (snd (run events st))) eqn:X; [|reflexivity].
      rewrite dispatch_closed in Cl by assumption. congruence. }
    apply search_known_dispatch; auto.
    + now apply run_open_Open.
    + apply IH; [now apply causal_order_prefix in C|assumption].
    + intros Pr. apply (C events e []); auto.
Qed.

Lemma search_known_leads pre st :
  search_known pre st -> searching_leads (stages (record_of (snd st))).
Proof.
  intros [K1 K2]. destruct (search_started_dec pre) as [E|E].
  - right. auto.
  - left. unfold record_of. now rewrite (K2 E).
Qed.

Lemma search_known_leads_writing pre st info :
  search_known pre st -> searchData (snd st) = Some info ->
  searching_leads (stages info ++ [Writing]).
Proof.
  intros [K1 K2] SD. destruct (search_started_dec pre) as [E|E].
  - right. specialize (K1 E). unfold record_of in K1. rewrite SD in K1.
    destruct (stages info); [discriminate|exact K1].
  - rewrite (K2 E) in SD. discriminate.
Qed.

(** C7.  Whatever events a Turn's stream delivers, in the stage list of
    the assistant message [Reading] never stands at a position before
    [Searching]; [Writing] is in the list only if an [end] event was among
    the events; and while the stream is open [Writing] is not in the
    list, and an [end] event appends it exactly when the stream holds a
    search record ([searchData] is not [null]).  When the events come in
    the server's order, a search reporting only after it started, a list
    that is not empty begins with [Searching]. *)
Theorem C7_stages_are_ordered_and_writing_comes_with_end
    (p0 p : Page) (url : text) (s : Stream) (events : list event) :
  handleSubmit p0 = (p, Connected url s) ->
  let st := run events (p, s) in
  exists msg info,
    assistant_messages st = [msg] /\ searchInfo msg = Some info /\
    reading_after_searching (stages info) /\
    (causal_order events -> searching_leads (stages info)) /\
    (In Writing (stages info) -> Exists is_end_event events) /\
    (closed (snd st) = false ->
     ~ In Writing (stages info) /\
     forall e, is_end_event e ->
       exists msg' info',
         assistant_messages (dispatch st e) = [msg'] /\
         searchInfo msg' = Some info' /\
         stages info' = match searchData (snd st) with
                        | Some _ => stages info ++ [Writing]
                        | None => stages info
                        end).
Proof.
  intros H. pose proof (Open_after_submit _ _ _ _ H) as O.
  assert (N0 : searchData (snd (p, s)) = None)
    by (apply handleSubmit_connected in H as (-> & _ & _); reflexivity).
  simpl.
  destruct (run_Open events _ O) as [O'|(pre & e & post & -> & O' & Cl & R)].
  - (* still open *)
    exists (shown (snd (run events (p, s)))),
           (record_of (snd (run events (p, s)))).
    pose proof (open_staged _ O') as W.
    split; [apply (open_shown _ O')|]. split; [reflexivity|].
    split; [apply (well_staged_ordered _ W)|].
    split; [intros Ca; apply (search_known_leads events);
            apply search_known_run; auto using open_closed|].
    split; [intros N; now apply well_staged_no_writing in N|].
    intros _. split; [now apply well_staged_no_writing|].
    intros e (event_data & v & -> & P & T).
    assert (D : dispatch (run events (p, s)) (message event_data)
                = on_end (run events (p, s))).
    { unfold dispatch, onmessage.
      now rewrite (open_closed _ O'), P, (on_data_end _ _ T). }
    rewrite D, (on_end_shown _ O'). unfold shown, record_of.
    destruct (searchData (snd (run events (p, s)))) as [info|];
      eexists; eexists; split; try reflexivity; split; reflexivity.
  - (* closed by [e] *)
    rewrite R. pose proof (open_staged _ O') as W.
    assert (K : causal_order (pre ++ e :: post) ->
                search_known pre (run pre (p, s))).
    { intros Ca. apply search_known_run; auto using open_closed.
      now apply causal_order_prefix in Ca. }
    destruct (dispatch_closes _ e (open_closed _ O') Cl) as [[-> D]|[E D]];
      rewrite D.
    + rewrite (onerror_shown _ O').
      exists (if is_empty (streamedContent (snd (run pre (p, s))))
              then with_content generic_error (shown (snd (run pre (p, s))))
              else shown (snd (run pre (p, s)))),
             (record_of (snd (run pre (p, s)))).
      split; [reflexivity|].
      split; [now destruct (is_empty _)|].
      split; [apply (well_staged_ordered _ W)|].
      split; [intros Ca; apply (search_known_leads pre); auto|].
      split; [intros N; now apply well_staged_no_writing in N|].
      intros C. rewrite D in Cl. congruence.
    + rewrite (on_end_shown _ O').
      destruct (searchData (snd (run pre (p, s)))) as [info|] eqn:SD.
      * assert (RI : record_of (snd (run pre (p, s))) = info)
          by (unfold record_of; now rewrite SD).
        rewrite RI in W.
        eexists; eexists; split; [reflexivity|]. split; [reflexivity|]. simpl.
        split; [apply (well_staged_ordered _ W)|].
        split; [intros Ca;
                apply (search_known_leads_writing pre _ _ (K Ca) SD)|].
        split; [intros _; apply Exists_app; right; now constructor|].
        intros C. rewrite D in Cl. congruence.
      * exists (shown (snd (run pre (p, s)))),
               (record_of (snd (run pre (p, s)))).
        split; [reflexivity|]. split; [reflexivity|].
        split; [apply (well_staged_ordered _ W)|].
        split; [intros Ca; apply (search_known_leads pre); auto|].
        split; [intros N; now apply well_staged_no_writing in N|].
        intros C. rewrite D in Cl. congruence.
Qed.

End ReducerClaims.

(** ** The claims at concrete inputs *)

Section Examples.

Import Client ClientFacts SubmitFacts.
#[local] Open Scope Z_scope.
#[local] Arguments str : simpl never.
#[local] Existing Instance browser.

(** The whole way, server to page, for a Turn with one search: the thread
    id is stored, the stages end as searching, reading, writing, and the
    answer is on display. *)
Example search_scenario :
  let st := run search_stream (submitted hi_page) in
  checkpointId (fst st) = Some (JString (str "abc-123")) /\
  closed (snd st) = true /\
  map (fun msg => option_map stages (searchInfo msg)) (assistant_messages st)
  = [Some [Searching; Reading; Writing]] /\
  map render_content (assistant_messages st) = [Text (str "Sunny day")].
Proof. repeat split; vm_compute; reflexivity. Qed.

(** C1 on the stream of the Turn with one search: the checkpoint and
    the two search events pass, the three [content] events carry the
    empty fragment, [Sunny] and [ day], and [end] closes the stream. *)
Lemma C1_witness :
  let events :=
    [wire (Server.checkpoint (str "abc-123")); wire (Server.content []);
     wire (Server.search_start (str "weather"));
     wire (Server.search_results [str "https://example.com/a"]);
     wire (Server.content (str "Sunny"));
     wire (Server.content (str " day"))] in
  let last := [wire Server.end_] in
  let fragments := [[]; str "Sunny"; str " day"] in
  events ++ last = search_stream /\
  exists p url s,
    handleSubmit hi_page = (p, Connected url s) /\
    carry events fragments /\
    (last = [] \/ (exists e, last = [e] /\ is_end_event e)) /\
    streamedContent (snd (run (events ++ last) (p, s))) = str "Sunny day" /\
    exists msg, assistant_messages (run (events ++ last) (p, s)) = [msg] /\
                content msg = str "Sunny day".
Proof.
  intros events last fragments. split; [reflexivity|].
  eexists; eexists; eexists.
  assert (F : carry events fragments).
  { apply carry_passing;
      [eexists; split; [reflexivity|split; vm_compute; discriminate]|].
    apply carry_content;
      [eexists; eexists; split; [reflexivity|];
       split; [vm_compute; reflexivity|split; reflexivity]|].
    apply carry_passing;
      [eexists; split; [reflexivity|split; vm_compute; discriminate]|].
    apply carry_passing;
      [eexists; split; [reflexivity|split; vm_compute; discriminate]|].
    apply carry_content;
      [eexists; eexists; split; [reflexivity|];
       split; [vm_compute; reflexivity|split; reflexivity]|].
    apply carry_content;
      [eexists; eexists; split; [reflexivity|];
       split; [vm_compute; reflexivity|split; reflexivity]|].
    constructor. }
  assert (L : last = [] \/ (exists e, last = [e] /\ is_end_event e)).
  { right. eexists. split; [reflexivity|].
    eexists; eexists. split; [reflexivity|].
    split; [vm_compute; reflexivity|reflexivity]. }
  split; [reflexivity|]. split; [exact F|]. split; [exact L|].
  exact (C1_content_fragments_concatenate (host := browser) hi_page _ _ _
           fragments events last eq_refl F L).
Defined.

(** C8 on a payload that is not JSON and on an event of type [ping]. *)
Lemma C8_witness :
  let st := submitted hi_page in
  (JSON.parse (str "{oops") = None /\
   onmessage (str "{oops") st = st /\
   forall rest, run (message (str "{oops") :: rest) st = run rest st) /\
  (let ping := Server.object
                 [Server.member (str "type") (Server.quoted (str "ping"))] in
   (exists v, JSON.parse ping = Some v /\ recognized v = false) /\
   onmessage ping st = st /\
   forall rest, run (message ping :: rest) st = run rest st).
Proof.
  intros st. split.
  - split; [reflexivity|].
    exact (C8_malformed_and_unknown_events_are_skipped (host := browser)
             (str "{oops") st (or_introl eq_refl)).
  - intros ping.
    assert (U : exists v, JSON.parse ping = Some v /\ recognized v = false)
      by (eexists; split; [vm_compute; reflexivity|reflexivity]).
    split; [exact U|].
    exact (C8_malformed_and_unknown_events_are_skipped (host := browser)
             ping st (or_intror U)).
Defined.

(** C10 on an input of a space, a tab and a space. *)
Lemma C10_witness :
  let p := setCurrentMessage [Chr.space; Chr.tab; Chr.space] initial_page in
  forallb is_js_whitespace (currentMessage p) = true /\
  handleSubmit p = (p, Ignored).
Proof.
  intros p. split; [reflexivity|].
  exact (C10_blank_submission_is_ignored (host := browser) p eq_refl).
Defined.

(** C7 on a Turn with one search: the stages are [Searching; Reading], and
    an [end] event would append [Writing]. *)
Lemma C7_witness :
  exists p url s,
    handleSubmit hi_page = (p, Connected url s) /\
    exists msg info,
      assistant_messages (run search_turn (p, s)) = [msg] /\
      searchInfo msg = Some info /\
      stages info = [Searching; Reading] /\
      reading_after_searching (stages info) /\
      (causal_order search_turn -> searching_leads (stages info)) /\
      (In Writing (stages info) -> Exists is_end_event search_turn) /\
      (closed (snd (run search_turn (p, s))) = false ->
       ~ In Writing (stages info) /\
       forall e, is_end_event e ->
         exists msg' info',
           assistant_messages (dispatch (run search_turn (p, s)) e) = [msg'] /\
           searchInfo msg' = Some info' /\
           stages info' = match searchData (snd (run search_turn (p, s))) with
                          | Some _ => stages info ++ [Writing]
                          | None => stages info
                          end).
Proof.
  eexists; eexists; eexists. split; [reflexivity|].
  destruct (C7_stages_are_ordered_and_writing_comes_with_end (host := browser)
              hi_page _ _ _ search_turn eq_refl)
    as (msg & info & A & I & rest).
  exists msg, info. split; [exact A|]. split; [exact I|].
  split; [|exact rest].
  vm_compute in A. injection A as <-. injection I as <-. reflexivity.
Defined.

(** C6 fails as stated: after a search and its results the stages are
    [Searching; Reading]; a second [search_start] in the same Turn leaves
    [Searching] alone, in the stream's record and in the message. *)
Lemma C6_counterexample :
  let before := run search_turn (submitted hi_page) in
  let after := dispatch before (wire (Server.search_start (str "forecast"))) in
  option_map stages (searchData (snd before)) = Some [Searching; Reading] /\
  option_map stages (searchData (snd after)) = Some [Searching] /\
  map (fun msg => option_map stages (searchInfo msg))
      (assistant_messages before) = [Some [Searching; Reading]] /\
  map (fun msg => option_map stages (searchInfo msg))
      (assistant_messages after) = [Some [Searching]].
Proof. repeat split; vm_compute; reflexivity. Qed.

(** C5 fails as stated, in both its parts.  A [content] event with an
    empty fragment was received (the server sends one when the model asks
    for a tool), then the transport fails: the generic failure text
    replaces the accumulated text on display.  And a Turn that ends by
    [end] with no event before it shows no text at all: the placeholder
    stays loading, and the typing animation stays. *)
Lemma C5_counterexample :
  (let st := run [wire (Server.content []); failure] (submitted hi_page) in
   hasReceivedContent (snd st) = true /\
   streamedContent (snd st) = [] /\
   map render_content (assistant_messages st) = [Text generic_error] /\
   map render_content (assistant_messages st)
   <> [Text (streamedContent (snd st))]) /\
  (let st := run [wire Server.end_] (submitted hi_page) in
   hasReceivedContent (snd st) = false /\
   closed (snd st) = true /\
   map render_content (assistant_messages st) = [PremiumTypingAnimation]).
Proof. repeat split; vm_compute; try reflexivity. discriminate. Qed.

(** C9, a defect of the code.  Where [new EventSource(url)] throws, the
    [catch] appends its message under the id [newMessageId + 1], which the
    placeholder appended before the [try] already has: submitting [hi] on
    a fresh page leaves the ids 1, 2, 3, 3. *)
Theorem C9_connection_error_message_repeats_an_id :
  let p := fst (handleSubmit (host := browser_without_EventSource) hi_page) in
  map id (messages p) = [1; 2; 3; 3] /\ ~ NoDup (map id (messages p)).
Proof.
  split; [reflexivity|].
  intros N. vm_compute in N.
  inversion N as [|? ? _ N1]. inversion N1 as [|? ? _ N2].
  inversion N2 as [|? ? X _]. apply X. now left.
Qed.

End Examples.

(** * The stream on the wire, and the page as a whole

The text of the events on the wire and the response as the browser reads
it, with the claims about what the stream carries; the way from the
graph's events to the screen; submissions and their requests; the edges
of the reducer; the search panel and the stage record, with the claims
about the end of a Turn; and the nodes of the agent graph. *)

(** ** [JSON.parse] and its fuel *)

Module JSONFuel.

Import JSON JSONFacts.

(** More fuel does not change an answer. *)
Lemma parse_more_fuel (n : nat) :
  (forall s m, n <= m -> parse_value n s <> OutOfFuel ->
               parse_value m s = parse_value n s) /\
  (forall s m, n <= m -> parse_elements n s <> OutOfFuel ->
               parse_elements m s = parse_elements n s) /\
  (forall s m, n <= m -> parse_members n s <> OutOfFuel ->
               parse_members m s = parse_members n s).
Proof.
  induction n as [|n (IHv & IHe & IHm)].
  { repeat split; intros s m _ H; now contradiction H. }
  repeat split; intros s m L H; (destruct m as [|m]; [lia|]);
    assert (L' : n <= m) by lia;
    cbn [parse_value parse_elements parse_members] in *.
  - destruct (skip_ws s) as [|c r]; [reflexivity|].
    destruct (N.eqb c Chr.lbrace).
    { destruct (skip_ws r) as [|c' r']; [reflexivity|].
      destruct (N.eqb c' Chr.rbrace); [reflexivity|].
      rewrite (IHm r m L'); [reflexivity|].
      intros E. rewrite E in H. now contradiction H. }
    destruct (N.eqb c Chr.lbracket).
    { destruct (skip_ws r) as [|c' r']; [reflexivity|].
      destruct (N.eqb c' Chr.rbracket); [reflexivity|].
      rewrite (IHe r m L'); [reflexivity|].
      intros E. rewrite E in H. now contradiction H. }
    reflexivity.
  - assert (V : parse_value n s <> OutOfFuel).
    { intros E. rewrite E in H. now contradiction H. }
    rewrite (IHv s m L' V).
    destruct (parse_value n s) as [v r| |]; try reflexivity.
    destruct (skip_ws r) as [|c r']; [reflexivity|].
    destruct (N.eqb c Chr.comma); [|reflexivity].
    rewrite (IHe r' m L'); [reflexivity|].
    intros E. rewrite E in H. now contradiction H.
  - destruct (skip_ws s) as [|q s1]; [reflexivity|].
    destruct (N.eqb q Chr.dquote); [|reflexivity].
    destruct (scan_string s1) as [[key s2]|]; [|reflexivity].
    destruct (skip_ws s2) as [|k s3]; [reflexivity|].
    destruct (N.eqb k Chr.colon); [|reflexivity].
    assert (V : parse_value n s3 <> OutOfFuel).
    { intros E. rewrite E in H. now contradiction H. }
    rewrite (IHv s3 m L' V).
    destruct (parse_value n s3) as [v s4| |]; try reflexivity.
    destruct (skip_ws s4) as [|c s5]; [reflexivity|].
    destruct (N.eqb c Chr.comma); [|reflexivity].
    rewrite (IHm s5 m L'); [reflexivity|].
    intros E. rewrite E in H. now contradiction H.
Qed.

(** A value read with some fuel is the value [JSON.parse] reads. *)
Lemma parse_by_fuel (n : nat) (s : text) (v : json) (r : text) :
  parse_value n s = Ok v r -> skip_ws r = [] -> parse s = Some v.
Proof.
  intros P W. unfold parse.
  assert (E : parse_value (2 * length s + 1) s = Ok v r).
  { destruct (Nat.le_gt_cases n (2 * length s + 1)) as [L|L].
    - rewrite <- P. apply (parse_more_fuel n); [assumption|].
      rewrite P. discriminate.
    - rewrite <- P. symmetry.
      apply (parse_more_fuel (2 * length s + 1)); [lia|].
      apply parse_fuel_enough. }
  now rewrite E, W.
Qed.

End JSONFuel.

(** ** The events on the wire *)

Module WireFacts.

Import Server Protocol JSONFuel.
#[local] Open Scope N_scope.

(** What holds of the numbers below sixteen, by trying them. *)
Lemma below_sixteen (P : N -> bool) :
  forallb P (map N.of_nat (seq 0 16)) = true ->
  forall n, n < 16 -> P n = true.
Proof.
  intros H n L. rewrite forallb_forall in H. apply H.
  apply in_map_iff. exists (N.to_nat n). split; [apply N2Nat.id|].
  apply in_seq. lia.
Qed.

Lemma hex_value_hex_digit (d : N) :
  d < 16 -> JSON.hex_value (hex_digit d) = Some d.
Proof.
  intros H.
  pose proof (below_sixteen
                (fun n => match JSON.hex_value (hex_digit n) with
                          | Some x => x =? n
                          | None => false
                          end) eq_refl d H) as T.
  cbv beta in T. destruct (JSON.hex_value (hex_digit d)); [|discriminate].
  apply N.eqb_eq in T. now subst.
Qed.

Lemma hex4_hex_digits (c : N) :
  c < 65536 ->
  JSON.hex4 (hex_digit (c / 4096 mod 16)) (hex_digit (c / 256 mod 16))
            (hex_digit (c / 16 mod 16)) (hex_digit (c mod 16)) = Some c.
Proof.
  intros H. unfold JSON.hex4.
  rewrite !hex_value_hex_digit by (apply N.mod_lt; discriminate).
  f_equal. zify. Z.to_euclidean_division_equations. lia.
Qed.

Lemma scan_dumps_char (c : N) (tail body rest : text) :
  c < 65536 ->
  JSON.scan_string tail = Some (body, rest) ->
  JSON.scan_string (dumps_char c ++ tail) = Some (c :: body, rest).
Proof.
  intros U T. unfold dumps_char.
  destruct (c =? Chr.dquote) eqn:E1.
  { apply N.eqb_eq in E1. subst c. simpl. now rewrite T. }
  destruct (c =? Chr.backslash) eqn:E2.
  { apply N.eqb_eq in E2. subst c. simpl. now rewrite T. }
  destruct (c =? Chr.lf) eqn:E3.
  { apply N.eqb_eq in E3. subst c. simpl. now rewrite T. }
  destruct (c =? Chr.cr) eqn:E4.
  { apply N.eqb_eq in E4. subst c. simpl. now rewrite T. }
  destruct (c =? Chr.tab) eqn:E5.
  { apply N.eqb_eq in E5. subst c. simpl. now rewrite T. }
  destruct (c =? 8) eqn:E6.
  { apply N.eqb_eq in E6. subst c. simpl. now rewrite T. }
  destruct (c =? 12) eqn:E7.
  { apply N.eqb_eq in E7. subst c. simpl. now rewrite T. }
  destruct ((32 <=? c) && (c <=? 126)) eqn:E8.
  { apply andb_true_iff in E8 as [G _]. apply N.leb_le in G.
    cbn [app JSON.scan_string]. rewrite E1, E2, T.
    replace (c <? 32) with false by (symmetry; now apply N.ltb_ge).
    reflexivity. }
  cbn -[N.div N.modulo]. rewrite (hex4_hex_digits c U), T. reflexivity.
Qed.

Lemma scan_dumps (s rest : text) :
  forallb code_unit s = true ->
  JSON.scan_string (flat_map dumps_char s ++ Chr.dquote :: rest)
  = Some (s, rest).
Proof.
  induction s as [|c s IH]; intros U; [reflexivity|].
  simpl in U. apply andb_true_iff in U as [Uc Us].
  simpl. rewrite <- app_assoc.
  apply scan_dumps_char; [now apply N.ltb_lt|auto].
Qed.


Lemma skip_ws_dquote (s : text) :
  JSON.skip_ws (Chr.dquote :: s) = Chr.dquote :: s.
Proof. reflexivity. Qed.

Lemma parse_value_string (n : nat) (s body rest : text) :
  (0 < n)%nat ->
  JSON.scan_string s = Some (body, rest) ->
  JSON.parse_value n (Chr.dquote :: s) = JSON.Ok (JString body) rest /\
  JSON.parse_value n (Chr.space :: Chr.dquote :: s)
  = JSON.Ok (JString body) rest.
Proof.
  intros L H. destruct n as [|n]; [lia|].
  split; cbn [JSON.parse_value]; simpl; now rewrite H.
Qed.

Lemma dumps_string_app (u t : text) :
  dumps_string u ++ t = Chr.dquote :: flat_map dumps_char u ++ Chr.dquote :: t.
Proof. unfold dumps_string. simpl. now rewrite <- app_assoc. Qed.

Lemma join_cons (sep p : text) (ps : list text) :
  ps <> [] -> join sep (p :: ps) = p ++ sep ++ join sep ps.
Proof. destruct ps; [congruence|reflexivity]. Qed.

(** The elements [json.dumps] writes for a list of strings that is not
    empty, read back. *)
Lemma parse_dumped_elements (urls : list text) (rest : text) (n : nat) :
  urls <> [] ->
  Forall (fun url => forallb code_unit url = true) urls ->
  (length urls < n)%nat ->
  let elements :=
    join (str ", ") (map dumps_string urls) ++ Chr.rbracket :: rest in
  JSON.parse_elements n elements = JSON.Ok (map JString urls) rest /\
  JSON.parse_elements n (Chr.space :: elements)
  = JSON.Ok (map JString urls) rest.
Proof.
  revert n. induction urls as [|u urls IH]; intros n NE U L; [congruence|].
  inversion U as [|? ? Uu Us]; subst.
  destruct n as [|n]; simpl in L; [lia|].
  assert (N0 : (0 < n)%nat) by lia.
  destruct urls as [|u' urls].
  - cbn [map join]. cbv zeta. rewrite dumps_string_app.
    destruct (parse_value_string n _ _ _ N0
                (scan_dumps u (Chr.rbracket :: rest) Uu)) as [P1 P2].
    split; cbn [JSON.parse_elements]; rewrite ?P1, ?P2; reflexivity.
  - assert (IH' := IH n ltac:(discriminate) Us ltac:(simpl in *; lia)).
    destruct IH' as [_ IH'].
    remember (u' :: urls) as more eqn:M.
    cbv zeta. cbn [map].
    rewrite join_cons by (subst more; discriminate).
    rewrite <- !app_assoc, dumps_string_app.
    match goal with
    | |- context [flat_map dumps_char u ++ Chr.dquote :: ?t] =>
      destruct (parse_value_string n _ _ _ N0 (scan_dumps u t Uu))
        as [P1 P2]
    end.
    split; cbn [JSON.parse_elements]; rewrite ?P1, ?P2;
      change (str ", " ++ ?x) with (Chr.comma :: Chr.space :: x);
      cbn [JSON.skip_ws]; change (JSON.is_ws Chr.comma) with false;
      cbv iota; change (Chr.comma =? Chr.comma) with true; cbv iota;
      cbv zeta in IH'; rewrite IH'; reflexivity.
Qed.

Lemma payload_search_results (urls : list text) :
  payload (search_results urls)
  = str "{" ++ quoted (str "type") ++ str ": "
    ++ quoted (str "search_results") ++ str ", " ++ quoted (str "urls")
    ++ str ": " ++ Chr.lbracket
    :: join (str ", ") (map dumps_string urls) ++ [Chr.rbracket; Chr.rbrace].
Proof.
  unfold payload, object, member, dumps_list. simpl.
  rewrite <- !app_assoc. reflexivity.
Qed.

Lemma join_dumps_head (urls : list text) (t : text) :
  urls <> [] ->
  exists x, join (str ", ") (map dumps_string urls) ++ t = Chr.dquote :: x.
Proof.
  destruct urls as [|u [|u' urls]]; [congruence| |]; intros _.
  - simpl. eauto.
  - cbn [map]. rewrite join_cons by discriminate. simpl. eauto.
Qed.

(** A [search_results] event reads back as the list of URLs it was made
    from. *)
Lemma parse_search_results (urls : list text) :
  Forall (fun url => forallb code_unit url = true) urls ->
  JSON.parse (payload (search_results urls))
  = Some (search_results_event_of urls).
Proof.
  intros U. rewrite payload_search_results.
  destruct urls as [|u urls].
  - vm_compute. reflexivity.
  - remember (u :: urls) as l eqn:Hl.
    assert (NE : l <> []) by (subst l; discriminate).
    apply (parse_by_fuel (S (S (S (S (S (length l))))))) with (r := []);
      [|reflexivity].
    destruct (parse_dumped_elements l [Chr.rbrace] (S (length l)) NE U
                ltac:(lia)) as [E _].
    cbv zeta in E. remember (S (length l)) as k eqn:K. clear K.
    destruct (join_dumps_head l [Chr.rbracket; Chr.rbrace] NE) as [x X].
    cbn [JSON.parse_value JSON.parse_members]. simpl.
    rewrite X in *. cbn [JSON.skip_ws]. simpl. rewrite E. reflexivity.
Qed.


(** *** Events that carry one text *)

Lemma scan_quotable (s rest : text) :
  forallb quotable s = true ->
  JSON.scan_string (s ++ Chr.dquote :: rest) = Some (s, rest).
Proof.
  induction s as [|c s IH]; intros Q; [reflexivity|].
  simpl in Q. apply andb_true_iff in Q as [Qc Qs].
  unfold quotable in Qc.
  apply andb_true_iff in Qc as [Qc B]. apply andb_true_iff in Qc as [G D].
  apply negb_true_iff in B, D.
  cbn [app JSON.scan_string]. rewrite D, B, (IH Qs).
  replace (c <? 32) with false
    by (symmetry; apply N.ltb_ge; now apply N.leb_le).
  reflexivity.
Qed.

Lemma parse_checkpoint (checkpoint_id : text) :
  forallb quotable checkpoint_id = true ->
  JSON.parse (payload (checkpoint checkpoint_id))
  = Some (checkpoint_event_of checkpoint_id).
Proof.
  intros Q.
  apply (parse_by_fuel 4) with (r := []); [|reflexivity].
  unfold payload, object, member, quoted.
  cbn [JSON.parse_value JSON.parse_members]. simpl.
  rewrite <- app_assoc. cbn [app].
  now rewrite (scan_quotable _ _ Q).
Qed.

Lemma safe_query_cons (c : N) (query : text) :
  safe_query_of (c :: query)
  = (if c =? Chr.dquote then [Chr.backslash; Chr.dquote]
     else if c =? Chr.squote then [Chr.backslash; Chr.squote]
     else if c =? Chr.lf then str "\n" else [c])
    ++ safe_query_of query.
Proof.
  unfold safe_query_of, replace. simpl.
  destruct (c =? Chr.dquote) eqn:D; simpl.
  - reflexivity.
  - destruct (c =? Chr.squote) eqn:S; simpl.
    + reflexivity.
    + destruct (c =? Chr.lf); reflexivity.
Qed.

Lemma scan_safe_query (query rest : text) :
  forallb query_plain query = true ->
  JSON.scan_string (safe_query_of query ++ Chr.dquote :: rest)
  = Some (query, rest).
Proof.
  induction query as [|c query IH]; intros P; [reflexivity|].
  simpl in P. apply andb_true_iff in P as [Pc Pq].
  rewrite safe_query_cons. specialize (IH Pq). unfold query_plain in Pc.
  destruct (c =? Chr.dquote) eqn:D.
  { apply N.eqb_eq in D. subst c. simpl. now rewrite IH. }
  destruct (c =? Chr.lf) eqn:L.
  { apply N.eqb_eq in L. subst c. simpl. now rewrite IH. }
  rewrite orb_false_r in Pc.
  apply andb_true_iff in Pc as [Pc B]. apply andb_true_iff in Pc as [G S].
  apply negb_true_iff in B, S. rewrite S.
  cbn [app JSON.scan_string]. rewrite D, B, IH.
  replace (c <? 32) with false
    by (symmetry; apply N.ltb_ge; now apply N.leb_le).
  reflexivity.
Qed.

Lemma parse_search_start (query : text) :
  forallb query_plain query = true ->
  JSON.parse (payload (search_start (safe_query_of query)))
  = Some (search_start_event_of query).
Proof.
  intros P.
  apply (parse_by_fuel 4) with (r := []); [|reflexivity].
  unfold payload, object, member, quoted.
  cbn [JSON.parse_value JSON.parse_members]. simpl.
  rewrite <- app_assoc. cbn [app].
  now rewrite (scan_safe_query _ _ P).
Qed.

Lemma parse_end : JSON.parse (payload end_) = Some end_event.
Proof. vm_compute. reflexivity. Qed.


(** *** Texts the escaping breaks *)

Lemma scan_broken_content (fragment rest : text) :
  forallb no_dquote_backslash fragment = true ->
  forallb plain fragment = false ->
  JSON.scan_string (safe_content_of fragment ++ rest) = None.
Proof.
  induction fragment as [|c fragment IH]; intros N P; [discriminate|].
  simpl in N, P. apply andb_true_iff in N as [Nc Nf].
  unfold no_dquote_backslash in Nc. apply andb_true_iff in Nc as [D B].
  apply negb_true_iff in D, B.
  rewrite safe_content_cons, <- app_assoc.
  destruct (c =? Chr.squote) eqn:S.
  { reflexivity. }
  destruct (c =? Chr.lf) eqn:L.
  { apply N.eqb_eq in L. subst c. simpl in P.
    cbn [str app JSON.scan_string]. simpl. now rewrite (IH Nf P). }
  cbn [app JSON.scan_string]. rewrite D, B.
  destruct (c <? 32) eqn:C; [reflexivity|].
  assert (Pc : plain c = true).
  { unfold plain. rewrite D, B, S, L. simpl.
    rewrite !andb_true_r, orb_false_r. apply N.leb_le.
    now apply N.ltb_ge in C. }
  rewrite Pc in P. simpl in P. now rewrite (IH Nf P).
Qed.

Lemma parse_broken_content (safe_content : text) :
  JSON.scan_string (safe_content ++ [Chr.dquote; Chr.rbrace]) = None ->
  JSON.parse (payload (content safe_content)) = None.
Proof.
  intros H. rewrite payload_content. unfold JSON.parse.
  remember (2 * length (content_prefix ++ safe_content
                        ++ [Chr.dquote; Chr.rbrace]) + 1)%nat
    as fuel eqn:F.
  destruct fuel as [|[|[|[|fuel]]]];
    try (rewrite length_app in F; simpl in F; lia).
  clear F. unfold content_prefix.
  cbn [JSON.parse_value JSON.parse_members JSON.parse_elements].
  simpl. rewrite H. reflexivity.
Qed.


Lemma scan_broken_query (query rest : text) :
  forallb no_backslash query = true ->
  forallb query_plain query = false ->
  JSON.scan_string (safe_query_of query ++ rest) = None.
Proof.
  induction query as [|c query IH]; intros N P; [discriminate|].
  simpl in N, P. apply andb_true_iff in N as [B Nq].
  unfold no_backslash in B. apply negb_true_iff in B.
  rewrite safe_query_cons, <- app_assoc.
  destruct (c =? Chr.dquote) eqn:D.
  { apply N.eqb_eq in D. subst c. simpl in P.
    cbn [app JSON.scan_string]. simpl. now rewrite (IH Nq P). }
  destruct (c =? Chr.squote) eqn:S.
  { reflexivity. }
  destruct (c =? Chr.lf) eqn:L.
  { apply N.eqb_eq in L. subst c. simpl in P.
    cbn [str app JSON.scan_string]. simpl. now rewrite (IH Nq P). }
  cbn [app JSON.scan_string]. rewrite D, B.
  destruct (c <? 32) eqn:C; [reflexivity|].
  assert (Pc : query_plain c = true).
  { unfold query_plain. rewrite B, S, L. simpl.
    rewrite !andb_true_r, orb_false_r. apply N.leb_le.
    now apply N.ltb_ge in C. }
  rewrite Pc in P. simpl in P. now rewrite (IH Nq P).
Qed.

Lemma parse_broken_query (safe_query : text) :
  JSON.scan_string (safe_query ++ [Chr.dquote; Chr.rbrace]) = None ->
  JSON.parse (payload (search_start safe_query)) = None.
Proof.
  intros H. unfold JSON.parse.
  remember (2 * length (payload (search_start safe_query)) + 1)%nat
    as fuel eqn:F.
  unfold payload, object, member, quoted in *.
  destruct fuel as [|[|[|[|fuel]]]]; try (simpl in F; lia).
  clear F.
  cbn [JSON.parse_value JSON.parse_members JSON.parse_elements].
  simpl. rewrite <- app_assoc. cbn [app]. rewrite H. reflexivity.
Qed.

End WireFacts.

Section WireClaims.

Import Server Protocol WireFacts.

(** X3.  A [search_results] event always reads back as it was meant: the
    payload the server makes of a list of URLs with [json.dumps] parses,
    and parses to the event that holds these URLs, in order and
    character for character. *)
Theorem search_results_event_round_trips (urls : list text) :
  forallb (forallb code_unit) urls = true ->
  JSON.parse (payload (search_results urls))
  = Some (search_results_event_of urls).
Proof.
  intros U. apply parse_search_results.
  apply Forall_forall. now apply forallb_forall.
Qed.

(** X4.  For a fragment that holds neither a double quote nor a
    backslash, the [content] event the server makes of it parses exactly
    when the fragment is made of line feeds and of characters from the
    space on other than the single quote, and then it parses to the
    fragment itself.  A single quote, or a control character other than
    the line feed, makes the event unreadable. *)
Theorem content_event_parses_exactly_when_plain (fragment : text) :
  forallb no_dquote_backslash fragment = true ->
  JSON.parse (payload (content (safe_content_of fragment)))
  = if forallb plain fragment
    then Some (Client.content_event_of fragment) else None.
Proof.
  intros N. destruct (forallb plain fragment) eqn:P.
  - now apply plain_fragment_round_trips.
  - apply parse_broken_content. now apply scan_broken_content.
Qed.

(** X5.  For a query that holds no backslash, the [search_start] event
    the server makes of it parses exactly when the query is made of line
    feeds and of characters from the space on other than the single
    quote -- double quotes included -- and then it parses to the query
    itself. *)
Theorem search_start_event_parses_exactly_when_plain (query : text) :
  forallb no_backslash query = true ->
  JSON.parse (payload (search_start (safe_query_of query)))
  = if forallb query_plain query
    then Some (search_start_event_of query) else None.
Proof.
  intros N. destruct (forallb query_plain query) eqn:P.
  - now apply parse_search_start.
  - apply parse_broken_query. now apply scan_broken_query.
Qed.

End WireClaims.

(** ** The response as the browser reads it *)

Module StreamFacts.

Import Server Protocol EventStream.
#[local] Open Scope N_scope.

Lemma lines_inline (s line rest : text) :
  forallb inline s = true ->
  lines_from false line (s ++ Chr.lf :: rest)
  = (line ++ s) :: lines_from false [] rest.
Proof.
  revert line. induction s as [|c s IH]; intros line I.
  - simpl. now rewrite app_nil_r.
  - simpl in I. apply andb_true_iff in I as [Ic Is].
    unfold inline in Ic. apply andb_true_iff in Ic as [L C].
    apply negb_true_iff in L, C.
    cbn [app lines_from]. rewrite L, C, (IH _ Is).
    now rewrite <- app_assoc.
Qed.

Lemma field_of_data (s : text) :
  field_of (str "data: " ++ s) = (str "data", s).
Proof. reflexivity. Qed.

(** The lines of a sequence of frames. *)
Lemma lines_frames (payloads : list text) :
  Forall (fun p => forallb inline p = true) payloads ->
  lines_from false []
    (concat (map (fun p => str "data: " ++ p ++ [Chr.lf; Chr.lf]) payloads))
  = flat_map (fun p => [str "data: " ++ p; []]) payloads.
Proof.
  induction 1 as [|p payloads I _ IH]; [reflexivity|].
  cbn [map concat flat_map].
  assert (A : forall t, (str "data: " ++ p ++ [Chr.lf; Chr.lf]) ++ t
                        = (str "data: " ++ p) ++ Chr.lf :: Chr.lf :: t).
  { intros t. rewrite <- !app_assoc. reflexivity. }
  rewrite A, lines_inline.
  - cbn [app lines_from]. simpl (Chr.lf =? Chr.lf). cbv iota.
    rewrite IH. reflexivity.
  - rewrite forallb_app, I. reflexivity.
Qed.

Lemma interpret_frames (payloads : list text) :
  Forall (fun p => p <> []) payloads ->
  interpret (flat_map (fun p => [str "data: " ++ p; []]) payloads) no_buffers
  = payloads.
Proof.
  induction 1 as [|p payloads NE _ IH]; [reflexivity|].
  cbn [flat_map app]. 
  change (str "data: " ++ p) with (100 :: (str "ata: " ++ p)).
  cbn [interpret]. simpl (100 =? Chr.colon). cbv iota.
  change (100 :: (str "ata: " ++ p)) with (str "data: " ++ p).
  rewrite field_of_data. simpl (text_eqb (str "data") (str "data")).
  cbv iota. cbn [data event_type no_buffers app is_empty orb].
  destruct p as [|c p]; [congruence|]. cbn [app is_empty].
  rewrite IH. f_equal.
  change (c :: p ++ [Chr.lf]) with ((c :: p) ++ [Chr.lf]).
  apply removelast_last.
Qed.


Lemma messages_no_mark (body : text) :
  (forall r, body <> 65279 :: r) ->
  messages body = interpret (lines body) no_buffers.
Proof.
  intros H. unfold messages. destruct body as [|c r]; [reflexivity|].
  destruct (c =? 65279) eqn:E; [|reflexivity].
  apply N.eqb_eq in E. subst c. now contradiction (H r).
Qed.

Lemma read_back (out : list sse) :
  Forall (fun e => forallb inline (payload e) = true) out ->
  messages (concat (map frame out)) = map payload out.
Proof.
  intros I. rewrite messages_no_mark by (now destruct out).
  unfold lines.
  replace (map frame out)
    with (map (fun p => str "data: " ++ p ++ [Chr.lf; Chr.lf])
              (map payload out))
    by (rewrite map_map; reflexivity).
  rewrite lines_frames by (now apply Forall_map).
  apply interpret_frames. apply Forall_map.
  apply Forall_forall. intros e _. now destruct e.
Qed.

Lemma inline_safe_content (t : text) :
  forallb no_cr t = true -> forallb inline (safe_content_of t) = true.
Proof.
  induction t as [|c t IH]; intros H; [reflexivity|].
  simpl in H. apply andb_true_iff in H as [Hc Ht].
  rewrite safe_content_cons, forallb_app, (IH Ht), andb_true_r.
  destruct (c =? Chr.squote); [reflexivity|].
  destruct (c =? Chr.lf) eqn:L; [reflexivity|].
  unfold no_cr in Hc. simpl. unfold inline. now rewrite L, Hc.
Qed.

Lemma inline_safe_query (t : text) :
  forallb no_cr t = true -> forallb inline (safe_query_of t) = true.
Proof.
  induction t as [|c t IH]; intros H; [reflexivity|].
  simpl in H. apply andb_true_iff in H as [Hc Ht].
  rewrite WireFacts.safe_query_cons, forallb_app, (IH Ht), andb_true_r.
  destruct (c =? Chr.dquote); [reflexivity|].
  destruct (c =? Chr.squote); [reflexivity|].
  destruct (c =? Chr.lf) eqn:L; [reflexivity|].
  unfold no_cr in Hc. simpl. unfold inline. now rewrite L, Hc.
Qed.

Lemma inline_hex_digit (n : N) : inline (hex_digit n) = true.
Proof.
  unfold inline, hex_digit, Chr.lf, Chr.cr.
  destruct (n <? 10) eqn:E.
  - apply N.ltb_lt in E.
    replace (48 + n =? 10) with false by (symmetry; apply N.eqb_neq; lia).
    replace (48 + n =? 13) with false by (symmetry; apply N.eqb_neq; lia).
    reflexivity.
  - replace (87 + n =? 10) with false by (symmetry; apply N.eqb_neq; lia).
    replace (87 + n =? 13) with false by (symmetry; apply N.eqb_neq; lia).
    reflexivity.
Qed.

Lemma inline_dumps_char (c : N) : forallb inline (dumps_char c) = true.
Proof.
  unfold dumps_char.
  repeat match goal with
         | |- context [if ?b then _ else _] =>
           destruct b eqn:?; [try reflexivity|]
         end.
  - simpl. unfold inline.
    repeat match goal with
           | H : (_ =? _) = false |- _ => rewrite H; clear H
           end. reflexivity.
  - cbn -[N.div N.modulo]. now rewrite !inline_hex_digit.
Qed.

Lemma inline_dumps_string (s : text) : forallb inline (dumps_string s) = true.
Proof.
  unfold dumps_string. cbn [forallb]. rewrite forallb_app. simpl.
  rewrite andb_true_r.
  induction s as [|c s IH]; [reflexivity|].
  simpl. now rewrite forallb_app, inline_dumps_char, IH.
Qed.

Lemma inline_join (sep : text) (parts : list text) :
  forallb inline sep = true ->
  Forall (fun p => forallb inline p = true) parts ->
  forallb inline (join sep parts) = true.
Proof.
  intros S. induction 1 as [|p parts P _ IH]; [reflexivity|].
  destruct parts as [|q parts]; [exact P|].
  change (join sep (p :: q :: parts)) with (p ++ sep ++ join sep (q :: parts)).
  now rewrite !forallb_app, P, S, IH.
Qed.

Lemma inline_payload (e : sse) :
  on_one_line e = true -> forallb inline (payload e) = true.
Proof.
  destruct e as [i|c|q|us|]; simpl on_one_line; intros H;
    unfold payload, object, member, quoted; cbn [join];
    repeat (rewrite ?forallb_app; cbn [forallb app]);
    rewrite ?H; try reflexivity.
  unfold dumps_list. cbn [forallb]. rewrite forallb_app.
  rewrite inline_join; [reflexivity|reflexivity|].
  apply Forall_map. apply Forall_forall. intros u _.
  apply inline_dumps_string.
Qed.

Lemma on_event_on_one_line (event : graph_event) (yielded : list sse) :
  unbroken event = true -> on_event event = Some yielded ->
  forallb on_one_line yielded = true.
Proof.
  destruct event as [[[t|]|]|tcs|tool output|]; simpl; intros U H;
    try discriminate.
  - injection H as <-. simpl. now rewrite inline_safe_content.
  - unfold announced_query in U.
    destruct (filter _ _) as [|call calls]; [injection H as <-; reflexivity|].
    destruct (get_query call) as [search_query|]; [|discriminate].
    injection H as <-. simpl. now rewrite inline_safe_query.
  - destruct (text_eqb tool tavily); [destruct output|];
      injection H as <-; reflexivity.
  - injection H as <-. reflexivity.
Qed.

Lemma stream_loop_on_one_line (events : list graph_event)
    (ending : termination) :
  forallb unbroken events = true ->
  forallb on_one_line (fst (stream_loop events ending)) = true.
Proof.
  induction events as [|event events IH]; intros U; simpl.
  - destruct ending; reflexivity.
  - simpl in U. apply andb_true_iff in U as [Ue Ues].
    destruct (on_event event) as [yielded|] eqn:E; [|reflexivity].
    destruct (stream_loop events ending) as [rest c]. simpl in *.
    now rewrite forallb_app, (on_event_on_one_line _ _ Ue E), IH.
Qed.

Lemma clean_unbroken (event : graph_event) :
  clean event = true -> unbroken event = true.
Proof.
  assert (P : forall t, forallb plain t = true -> forallb no_cr t = true).
  { intros t H. rewrite forallb_forall in *. intros c Hc.
    specialize (H c Hc). unfold plain, no_cr in *.
    destruct (c =? Chr.cr) eqn:E; [|reflexivity].
    apply N.eqb_eq in E. subst c. discriminate. }
  assert (Q : forall t, forallb query_plain t = true ->
                        forallb no_cr t = true).
  { intros t H. rewrite forallb_forall in *. intros c Hc.
    specialize (H c Hc). unfold query_plain, no_cr in *.
    destruct (c =? Chr.cr) eqn:E; [|reflexivity].
    apply N.eqb_eq in E. subst c. discriminate. }
  destruct event as [[[t|]|]|tcs|tool output|]; simpl; auto;
    try discriminate.
  destruct (announced_query tcs) as [[search_query|]|]; auto.
Qed.

Lemma generated_on_one_line (message : text) (checkpoint_id : option text)
    (new_checkpoint_id : text) (events : list graph_event)
    (ending : termination) :
  forallb unbroken events = true ->
  forallb inline new_checkpoint_id = true ->
  Forall (fun e => forallb inline (payload e) = true)
    (fst (generate_chat_responses message checkpoint_id new_checkpoint_id
            events ending)).
Proof.
  intros U I. apply Forall_forall. intros e He. apply inline_payload.
  revert e He. apply forallb_forall.
  unfold generate_chat_responses.
  pose proof (stream_loop_on_one_line events ending U) as L.
  destruct (stream_loop events ending) as [rest c]. simpl in L.
  destruct checkpoint_id; simpl; [exact L|]. now rewrite I, L.
Qed.

Lemma quotable_inline (t : text) :
  forallb quotable t = true -> forallb inline t = true.
Proof.
  intros H. rewrite forallb_forall in *. intros c Hc.
  specialize (H c Hc). unfold quotable, inline in *.
  destruct (c =? Chr.lf) eqn:L;
    [apply N.eqb_eq in L; subst c; discriminate|].
  destruct (c =? Chr.cr) eqn:C;
    [apply N.eqb_eq in C; subst c; discriminate|].
  reflexivity.
Qed.

End StreamFacts.


Section ResponseClaims.

Import Server Protocol Response StreamFacts.

(** X2.  What [EventSource] reads from the body of the response is what
    the generator yielded: as long as no chunk and no search query holds
    a carriage return and the checkpoint id holds no line end, the
    events the page gets carry, one for one and in order, the texts of
    the events the generator yielded -- also when the generator stops
    short. *)
Theorem response_is_read_back
    (message : text) (checkpoint_id : option text) (new_checkpoint_id : text)
    (events : list graph_event) (ending : termination) :
  forallb unbroken events = true ->
  forallb inline new_checkpoint_id = true ->
  EventStream.messages
    (chat_stream message checkpoint_id new_checkpoint_id events ending)
  = map payload
        (fst (generate_chat_responses message checkpoint_id
                new_checkpoint_id events ending)).
Proof.
  intros U I. unfold chat_stream. apply read_back.
  now apply generated_on_one_line.
Qed.

End ResponseClaims.

(** ** The stream of a Turn that completes *)

Module ServerMore.

Import Server ServerFacts.

(** A loop that returns has gone through all the events, none of which
    made it raise. *)
Lemma stream_loop_completed events ending out :
  stream_loop events ending = (out, Returned) ->
  ending = Exhausted /\ Forall (fun e => on_event e <> None) events /\
  out = yields events ++ [end_].
Proof.
  revert out. induction events as [|event events IH]; intros out H;
    simpl in H.
  - destruct ending; inversion H; subst. repeat split; constructor.
  - destruct (on_event event) as [yielded|] eqn:E; [|discriminate].
    destruct (stream_loop events ending) as [rest c] eqn:L.
    inversion H; subst.
    destruct (IH _ eq_refl) as (-> & F & ->).
    split; [reflexivity|]. split.
    + constructor; [congruence|assumption].
    + simpl. now rewrite E, app_assoc.
Qed.

End ServerMore.

(** ** The types of the events on the wire *)

Module WireTypeFacts.

Import Server ServerFacts Protocol Response WireFacts StreamFacts.
#[local] Arguments str : simpl never.

Lemma wire_type_parsed (event_data : text) (data : json) (ty : text) :
  JSON.parse event_data = Some data -> Client.event_type data = Some ty ->
  Client.wire_type event_data = Some ty.
Proof. intros P T. unfold Client.wire_type. now rewrite P. Qed.

(** What a clean graph event yields reads as events of the Turn's types. *)
Lemma clean_yield_types (event : graph_event) :
  clean event = true ->
  exists yielded types,
    on_event event = Some yielded /\
    map (fun y => Client.wire_type (payload y)) yielded = map Some types /\
    Forall (fun ty => In ty turn_types) types.
Proof.
  intros C. destruct event as [[[chunk_content|]|]|tcs|tool output|];
    simpl in C; try discriminate.
  - exists [content (safe_content_of chunk_content)], [str "content"].
    split; [reflexivity|]. split.
    + cbn [map]. now rewrite (wire_type_parsed _ _ (str "content")
                            (plain_fragment_round_trips _ C) eq_refl).
    + constructor; [simpl; auto|constructor].
  - unfold announced_query in C. simpl.
    destruct (filter _ _) as [|call calls];
      [exists [], []; repeat split; constructor|].
    destruct (get_query call) as [search_query|]; [|discriminate].
    exists [search_start (safe_query_of search_query)], [str "search_start"].
    split; [reflexivity|]. split.
    + cbn [map]. now rewrite (wire_type_parsed _ _ (str "search_start")
                            (parse_search_start _ C) eq_refl).
    + constructor; [simpl; auto|constructor].
  - unfold reported_urls in C. simpl.
    destruct (text_eqb tool tavily);
      [|exists [], []; repeat split; constructor].
    destruct output as [items|];
      [|exists [], []; repeat split; constructor].
    exists [search_results (urls_of items)], [str "search_results"].
    split; [reflexivity|]. split.
    + cbn [map].
      assert (U : Forall (fun url => forallb code_unit url = true)
                    (urls_of items))
        by (apply Forall_forall; now apply forallb_forall).
      now rewrite (wire_type_parsed _ _ (str "search_results")
                     (parse_search_results _ U) eq_refl).
    + constructor; [simpl; auto|constructor].
  - exists [], []. repeat split; constructor.
Qed.

Lemma clean_yields_types (events : list graph_event) :
  forallb clean events = true ->
  Forall (fun e => on_event e <> None) events /\
  exists types,
    map (fun y => Client.wire_type (payload y)) (yields events)
    = map Some types /\
    Forall (fun ty => In ty turn_types) types.
Proof.
  induction events as [|event events IH]; intros C.
  - split; [constructor|]. exists []. split; [reflexivity|constructor].
  - simpl in C. apply andb_true_iff in C as [Ce Ces].
    destruct (clean_yield_types _ Ce) as (yielded & types & Y & M & F).
    destruct (IH Ces) as (N & types' & M' & F').
    split; [constructor; [congruence|assumption]|].
    exists (types ++ types'). simpl. rewrite Y, !map_app, M, M'.
    split; [reflexivity|]. apply Forall_app. now split.
Qed.

(** A loop that raises has yielded what the events before the failure
    yield. *)
Lemma stream_loop_raises (processed remaining : list graph_event)
    (ending : termination) :
  Forall (fun e => on_event e <> None) processed ->
  (remaining = [] /\ ending = Raised \/
   exists e rest, remaining = e :: rest /\ on_event e = None) ->
  stream_loop (processed ++ remaining) ending
  = (yields processed, Propagated).
Proof.
  intros F R. induction F as [|event processed Hev _ IH]; simpl.
  - destruct R as [[-> ->]|(e & rest & -> & E)]; simpl;
      [reflexivity|now rewrite E].
  - destruct (on_event event) as [yielded|]; [|contradiction].
    now rewrite IH.
Qed.

Lemma stream_loop_raised (processed : list graph_event) :
  Forall (fun e => on_event e <> None) processed ->
  stream_loop processed Raised = (yields processed, Propagated).
Proof.
  intros F.
  pose proof (stream_loop_raises processed [] Raised F
                (or_introl (conj eq_refl eq_refl))) as H.
  now rewrite app_nil_r in H.
Qed.

Lemma opening_wire_types (checkpoint_id : option text)
    (new_checkpoint_id : text) :
  forallb quotable new_checkpoint_id = true ->
  map (fun y => Client.wire_type (payload y))
      (match checkpoint_id with
       | None => [checkpoint new_checkpoint_id]
       | Some _ => []
       end)
  = map Some (opening_types checkpoint_id).
Proof.
  intros Q. destruct checkpoint_id; [reflexivity|]. cbn [map].
  now rewrite (wire_type_parsed _ _ (str "checkpoint")
                 (parse_checkpoint _ Q) eq_refl).
Qed.

(** The events the page reads from the response of a clean Turn are the
    events the generator yielded. *)
Lemma clean_read_back (message : text) (checkpoint_id : option text)
    (new_checkpoint_id : text) (events : list graph_event)
    (ending : termination) :
  forallb clean events = true ->
  forallb quotable new_checkpoint_id = true ->
  EventStream.messages
    (chat_stream message checkpoint_id new_checkpoint_id events ending)
  = map payload
      (fst (generate_chat_responses message checkpoint_id new_checkpoint_id
              events ending)).
Proof.
  intros C Q. unfold chat_stream. apply read_back.
  apply generated_on_one_line; [|now apply quotable_inline].
  rewrite forallb_forall in *. intros e He. apply clean_unbroken. auto.
Qed.

End WireTypeFacts.

Section WireClaimsOfTheStream.

Import Server ServerFacts ServerMore Protocol Response WireTypeFacts.
#[local] Arguments str : simpl never.

(** C2, a defect of the code.  When the model or the search tool fails
    -- the event iterator raises, or the loop body raises on an event --
    after a part of the Turn whose texts came through, the exception
    comes out of the generator; the response then carries the events of
    the part that was processed and nothing after them: the page reads
    no [error] event and no [end] event. *)
Theorem C2_failed_turn_sends_neither_error_nor_end
    (message_ : text) (checkpoint_id : option text)
    (new_checkpoint_id : text)
    (processed remaining : list graph_event) (ending : termination) :
  forallb clean processed = true ->
  forallb quotable new_checkpoint_id = true ->
  (remaining = [] /\ ending = Raised \/
   exists e rest, remaining = e :: rest /\ on_event e = None) ->
  let events := processed ++ remaining in
  let body := chat_stream message_ checkpoint_id new_checkpoint_id events
                ending in
  snd (generate_chat_responses message_ checkpoint_id new_checkpoint_id
         events ending) = Propagated /\
  EventStream.messages body
  = map payload
      (match checkpoint_id with
       | None => [checkpoint new_checkpoint_id]
       | Some _ => []
       end ++ yields processed) /\
  ~ In (Some (str "error")) (wire_types body) /\
  ~ In (Some (str "end")) (wire_types body).
Proof.
  intros C Q R. cbv zeta.
  destruct (clean_yields_types _ C) as (F & types & M & T).
  assert (G : generate_chat_responses message_ checkpoint_id
                new_checkpoint_id (processed ++ remaining) ending
              = generate_chat_responses message_ checkpoint_id
                  new_checkpoint_id processed Raised).
  { unfold generate_chat_responses.
    now rewrite (stream_loop_raises _ _ _ F R), (stream_loop_raised _ F). }
  assert (B : chat_stream message_ checkpoint_id new_checkpoint_id
                (processed ++ remaining) ending
              = chat_stream message_ checkpoint_id new_checkpoint_id
                  processed Raised)
    by (unfold chat_stream; now rewrite G).
  assert (Y : generate_chat_responses message_ checkpoint_id
                new_checkpoint_id processed Raised
              = (match checkpoint_id with
                 | None => [checkpoint new_checkpoint_id]
                 | Some _ => []
                 end ++ yields processed, Propagated)).
  { unfold generate_chat_responses.
    rewrite (stream_loop_raised _ F). now destruct checkpoint_id. }
  assert (W : wire_types
                (chat_stream message_ checkpoint_id new_checkpoint_id
                   processed Raised)
              = map Some (opening_types checkpoint_id ++ types)).
  { unfold wire_types. rewrite (clean_read_back _ _ _ _ _ C Q), Y. simpl.
    rewrite map_map, !map_app, M.
    now rewrite (opening_wire_types checkpoint_id _ Q). }
  rewrite G, B, W, (clean_read_back _ _ _ _ _ C Q), Y.
  split; [reflexivity|]. split; [reflexivity|].
  assert (N : forall ty, ~ In ty turn_types -> ty <> str "checkpoint" ->
                         ~ In (Some ty) (map Some (opening_types checkpoint_id
                                                   ++ types))).
  { intros ty NT NC I. apply in_map_iff in I as (ty' & E & I).
    injection E as ->. apply in_app_or in I as [I|I].
    - destruct checkpoint_id; [contradiction|].
      destruct I as [I|[]]. congruence.
    - rewrite Forall_forall in T. auto. }
  split; apply N; try discriminate;
    intros [X|[X|[X|[]]]]; discriminate X.
Qed.

(** C4, a defect of the code.  The escaping of a chunk leaves its double
    quotes as they are, so a chunk can close the string it is put in and
    go on with a [type] and a [checkpoint_id] of its own, which are the
    ones [JSON.parse] keeps.  On an existing thread the page then reads a
    [checkpoint] event where the claim has none, and stores its id; in a
    new conversation it reads two, and ends with the id of the second,
    not with the thread id the server minted. *)
Theorem C4_chunk_reads_as_a_checkpoint :
  let events := [on_chat_model_stream (AIMessageChunk (Str member_text))] in
  (let body := chat_stream (str "hi") (Some (str "abc-123")) (str "def-456")
                 events Exhausted in
   wire_types body = [Some (str "checkpoint"); Some (str "end")] /\
   Client.checkpointId
     (fst (Client.run (host := browser)
             (map Client.message (EventStream.messages body))
             (Client.submitted (host := browser) hi_again_page)))
   = Some (JString (str "evil"))) /\
  (let body := chat_stream (str "hi") None (str "abc-123") events
                 Exhausted in
   wire_types body
   = [Some (str "checkpoint"); Some (str "checkpoint"); Some (str "end")] /\
   Client.checkpointId
     (fst (Client.run (host := browser)
             (map Client.message (EventStream.messages body))
             (Client.submitted (host := browser) hi_page)))
   = Some (JString (str "evil"))).
Proof. repeat split; vm_compute; reflexivity. Qed.

(** X6.  A Turn whose texts come through and whose generator returns:
    the graph's events were exhausted, and the events the page reads from
    the response are the [checkpoint] event exactly when the conversation
    is new, and first; then events of the types [content],
    [search_start] and [search_results] only; then one [end] event, the
    last. *)
Theorem completed_stream_ends_with_end
    (message_ : text) (checkpoint_id : option text)
    (new_checkpoint_id : text)
    (events : list graph_event) (ending : termination) :
  forallb clean events = true ->
  forallb quotable new_checkpoint_id = true ->
  snd (generate_chat_responses message_ checkpoint_id new_checkpoint_id
         events ending) = Returned ->
  ending = Exhausted /\
  exists types,
    wire_types
      (chat_stream message_ checkpoint_id new_checkpoint_id events ending)
    = map Some (opening_types checkpoint_id ++ types ++ [str "end"]) /\
    Forall (fun ty => In ty turn_types) types.
Proof.
  intros C Q R.
  destruct (clean_yields_types _ C) as (F & types & M & T).
  assert (E : ending = Exhausted).
  { unfold generate_chat_responses in R.
    destruct (stream_loop events ending) as [rest c] eqn:L.
    assert (c = Returned) as -> by (now destruct checkpoint_id).
    now destruct (stream_loop_completed _ _ _ L). }
  subst ending. split; [reflexivity|]. exists types.
  split; [|exact T].
  unfold wire_types. rewrite (clean_read_back _ _ _ _ _ C Q).
  unfold generate_chat_responses. rewrite (stream_loop_returned _ F).
  rewrite map_map.
  replace (fst (if match checkpoint_id with None => true | Some _ => false end
                then (checkpoint new_checkpoint_id
                      :: yields events ++ [end_], Returned)
                else (yields events ++ [end_], Returned)))
    with (match checkpoint_id with
          | None => [checkpoint new_checkpoint_id]
          | Some _ => []
          end ++ yields events ++ [end_])
    by (now destruct checkpoint_id).
  rewrite !map_app, M, (opening_wire_types checkpoint_id _ Q). cbn [map].
  now rewrite (wire_type_parsed _ _ (str "end") WireFacts.parse_end eq_refl).
Qed.

End WireClaimsOfTheStream.

(** ** What the handlers leave alone *)

Module FrameFacts.

Import Client ClientFacts Effects.
#[local] Open Scope Z_scope.
#[local] Arguments str : simpl never.

Section WithHost.

Context {host : Host}.

Lemma update_message_id target prev :
  update_message target (fun m => m) prev = prev.
Proof.
  unfold update_message. induction prev as [|m prev IH]; simpl; [reflexivity|].
  rewrite IH. now destruct (id m =? target).
Qed.

Lemma update_message_compose target f g prev :
  (forall m, id (g m) = id m) ->
  update_message target f (update_message target g prev)
  = update_message target (fun m => f (g m)) prev.
Proof.
  intros G. unfold update_message. rewrite map_map. apply map_ext.
  intros m. destruct (id m =? target) eqn:E; [|now rewrite E].
  now rewrite G, E.
Qed.

Lemma settles_id : settles (fun m => m).
Proof. intros m. repeat split; auto. Qed.

Lemma settles_compose f g :
  settles f -> settles g -> settles (fun m => f (g m)).
Proof.
  intros F G m. destruct (F (g m)) as (F1 & F2 & F3 & F4).
  destruct (G m) as (G1 & G2 & G3 & G4).
  repeat split; try congruence.
  destruct G4 as [G4|G4];
    [rewrite G4 in *; exact (proj2 (proj2 (proj2 (F m))))|].
  destruct F4 as [F4|F4]; [right; congruence|now right].
Qed.

Lemma framed_refl st : framed st st.
Proof.
  split; [reflexivity|]. split; [reflexivity|].
  exists (fun m => m). split; [apply settles_id|].
  now rewrite update_message_id.
Qed.

Lemma framed_trans st1 st2 st3 :
  framed st1 st2 -> framed st2 st3 -> framed st1 st3.
Proof.
  intros (A1 & C1 & g & G & M1) (A2 & C2 & f & F & M2).
  split; [congruence|]. split; [congruence|].
  exists (fun m => f (g m)). split; [now apply settles_compose|].
  rewrite M2, M1, A1. apply update_message_compose.
  intros m. apply G.
Qed.

Lemma framed_update (f : Message -> Message) (p : Page) (s s' : Stream) :
  settles f -> aiResponseId s' = aiResponseId s ->
  framed (p, s) (setMessages (update_message (aiResponseId s) f) p, s').
Proof.
  intros F A. split; [exact A|]. split; [reflexivity|].
  exists f. split; [exact F|reflexivity].
Qed.

Lemma settles_with_content c : settles (with_content c).
Proof. intros m. repeat split. now right. Qed.

Lemma settles_with_content_and_search c info :
  settles (with_content_and_search c info).
Proof. intros m. repeat split. now right. Qed.

Lemma settles_with_search info : settles (with_search info).
Proof. intros m. repeat split. now right. Qed.

Lemma framed_dispatch st e : framed st (dispatch st e).
Proof.
  unfold dispatch. destruct (closed (snd st)); [apply framed_refl|].
  destruct e as [event_data|].
  - destruct (onmessage_shape event_data st) as [->|(v & _ & S)];
      [apply framed_refl|].
    destruct S as [->|x ->|fragment C T ->|T ->|x q u e F G ->|T ->];
      destruct st as [p s]; simpl.
    + apply framed_refl.
    + split; [reflexivity|]. split; [reflexivity|].
      exists (fun m => m). split; [apply settles_id|].
      simpl. now rewrite update_message_id.
    + apply framed_update; [apply settles_with_content|reflexivity].
    + apply framed_update;
        [apply settles_with_content_and_search|reflexivity].
    + apply framed_update;
        [apply settles_with_content_and_search|reflexivity].
    + unfold on_end. simpl. destruct (searchData s).
      * apply framed_update; [apply settles_with_search|reflexivity].
      * split; [reflexivity|]. split; [reflexivity|].
        exists (fun m => m). split; [apply settles_id|].
        simpl. now rewrite update_message_id.
  - destruct st as [p s]. unfold onerror.
    destruct (is_empty (streamedContent s)).
    + apply framed_update; [apply settles_with_content|reflexivity].
    + split; [reflexivity|]. split; [reflexivity|].
      exists (fun m => m). split; [apply settles_id|].
      simpl. now rewrite update_message_id.
Qed.

Lemma framed_run events st : framed st (run events st).
Proof.
  revert st. induction events as [|e events IH]; intros st;
    [apply framed_refl|].
  change (run (e :: events) st) with (run events (dispatch st e)).
  eapply framed_trans; [apply framed_dispatch|apply IH].
Qed.

Lemma settles_updates_only target f prev :
  settles f -> updates_only target prev (update_message target f prev).
Proof.
  intros F. unfold updates_only, update_message.
  induction prev as [|m prev IH]; simpl; constructor; [|exact IH].
  destruct (F m) as (F1 & F2 & F3 & _).
  destruct (id m =? target) eqn:E.
  - repeat split; auto. intros N. apply Z.eqb_eq in E. contradiction.
  - repeat split; auto.
Qed.

End WithHost.
End FrameFacts.

Section FrameClaims.

Import Client ClientFacts SubmitFacts Effects FrameFacts.
#[local] Open Scope Z_scope.
Context {host : Host}.

(** X7.  Whatever a stream delivers, its handlers leave the list of
    messages as long as it was and in the same order, change no id, no
    side and no type, and leave every message but the one with the
    response's id as it is; the input field is not touched. *)
Theorem stream_updates_only_its_message (events : list event) (st : State) :
  let st' := run events st in
  updates_only (aiResponseId (snd st))
    (messages (fst st)) (messages (fst st')) /\
  currentMessage (fst st') = currentMessage (fst st) /\
  aiResponseId (snd st') = aiResponseId (snd st).
Proof.
  destruct (framed_run events st) as (A & C & f & F & M).
  cbv zeta. rewrite M. split; [now apply settles_updates_only|].
  split; assumption.
Qed.

End FrameClaims.

(** ** A Turn, from the graph's events to the screen *)

Module TurnFacts.

Import Server Client Protocol Effects WireFacts ClientFacts SubmitFacts.
#[local] Open Scope Z_scope.
#[local] Arguments str : simpl never.

Section WithHost.

Context {host : Host}.

Lemma dispatch_parsed (st st' : State) (event_data : text) (data : json) :
  closed (snd st) = false ->
  JSON.parse event_data = Some data ->
  on_data data st = Some st' ->
  dispatch st (message event_data) = st'.
Proof.
  intros C P D. unfold dispatch, onmessage. now rewrite C, P, D.
Qed.

Lemma on_data_checkpoint (checkpoint_id : text) (st : State) :
  on_data (checkpoint_event_of checkpoint_id) st
  = Some (setCheckpointId (Some (JString checkpoint_id)) (fst st), snd st).
Proof. reflexivity. Qed.

Lemma on_data_search_started (query_ : text) (st : State) :
  on_data (search_start_event_of query_) st
  = Some (show_search
            {| stages := [Searching]; query := Some (JString query_);
               urls := Some (JArray []); error := undefined |} st).
Proof. reflexivity. Qed.

Lemma on_data_search_results (urls_ : list text) (st : State) :
  on_data (search_results_event_of urls_) st
  = Some (show_search
            {| stages := stages_with (searchData (snd st)) Reading;
               query := query_or_empty (searchData (snd st));
               urls := Some (JArray (map JString urls_));
               error := undefined |} st).
Proof. reflexivity. Qed.

Lemma on_data_ended (st : State) : on_data end_event st = Some (on_end st).
Proof. reflexivity. Qed.

Lemma on_data_fragment (fragment : text) (st : State) :
  on_data (content_event_of fragment) st
  = Some (setMessages
            (update_message (aiResponseId (snd st))
               (with_content (streamedContent (snd st) ++ fragment)))
            (fst st),
          set_streamedContent (streamedContent (snd st) ++ fragment) (snd st)).
Proof. destruct st. reflexivity. Qed.


Lemma extends_refl (st : State) : Open st -> extends st st [] [].
Proof.
  intros O. split; [assumption|]. split; [now rewrite app_nil_r|].
  split; reflexivity.
Qed.

Lemma extends_trans (st1 st2 st3 : State) (a b : text)
    (m n : list notice) :
  extends st1 st2 a m -> extends st2 st3 b n ->
  extends st1 st3 (a ++ b) (m ++ n).
Proof.
  intros (_ & S1 & C1 & R1) (O & S2 & C2 & R2).
  split; [assumption|]. split; [now rewrite S2, S1, app_assoc|].
  split; [congruence|]. now rewrite fold_left_app, <- R1.
Qed.

Lemma deliver_content (fragment : text) (st : State) :
  Open st -> forallb plain fragment = true ->
  extends st (dispatch st (wire (Server.content (safe_content_of fragment))))
    fragment [].
Proof.
  intros O P. unfold wire.
  assert (D := dispatch_parsed st _ _ _ (open_closed _ O)
             (plain_fragment_round_trips _ P) (on_data_fragment _ _)).
  rewrite D. split; [|split; [|split]; reflexivity].
  rewrite <- D. apply Open_dispatch; [assumption|].
  rewrite D. apply (open_closed _ O).
Qed.

Lemma deliver_search_start (query_ : text) (st : State) :
  Open st -> forallb query_plain query_ = true ->
  extends st
    (dispatch st (wire (Server.search_start (safe_query_of query_))))
    [] [Announced query_].
Proof.
  intros O P. unfold wire.
  assert (D := dispatch_parsed st _ _ _ (open_closed _ O)
             (parse_search_start _ P) (on_data_search_started _ _)).
  rewrite D.
  split; [|destruct st; split; [|split]; simpl;
           [now rewrite app_nil_r|reflexivity|reflexivity]].
  rewrite <- D. apply Open_dispatch; [assumption|].
  rewrite D. destruct st. apply (open_closed _ O).
Qed.

Lemma deliver_search_results (urls_ : list text) (st : State) :
  Open st -> forallb (forallb code_unit) urls_ = true ->
  extends st (dispatch st (wire (Server.search_results urls_)))
    [] [Reported urls_].
Proof.
  intros O U. unfold wire.
  assert (U' : Forall (fun url => forallb code_unit url = true) urls_)
    by (apply Forall_forall; now apply forallb_forall).
  assert (D := dispatch_parsed st _ _ _ (open_closed _ O)
             (parse_search_results _ U') (on_data_search_results _ _)).
  rewrite D.
  split; [|destruct st; split; [|split]; simpl;
           [now rewrite app_nil_r|reflexivity|reflexivity]].
  rewrite <- D. apply Open_dispatch; [assumption|].
  rewrite D. destruct st. apply (open_closed _ O).
Qed.

Lemma deliver_checkpoint (checkpoint_id : text) (st : State) :
  Open st -> forallb quotable checkpoint_id = true ->
  let st' := dispatch st (wire (Server.checkpoint checkpoint_id)) in
  Open st' /\ streamedContent (snd st') = streamedContent (snd st) /\
  checkpointId (fst st') = Some (JString checkpoint_id) /\
  searchData (snd st') = searchData (snd st).
Proof.
  intros O Q. unfold wire.
  assert (D := dispatch_parsed st _ _ _ (open_closed _ O)
             (parse_checkpoint _ Q) (on_data_checkpoint _ _)).
  cbv zeta. rewrite D. split; [|split; [|split]; reflexivity].
  rewrite <- D. apply Open_dispatch; [assumption|].
  rewrite D. apply (open_closed _ O).
Qed.

(** What the events a clean graph event yields do to the page. *)
Lemma deliver_clean (event : graph_event) (st : State) :
  Open st -> clean event = true ->
  exists yielded,
    on_event event = Some yielded /\
    extends st (run (map wire yielded) st) (streamed_text event)
      (notices event).
Proof.
  intros O C. destruct event as [[[chunk_content|]|]|tcs|tool output|];
    simpl in C; try discriminate.
  - eexists. split; [reflexivity|]. now apply deliver_content.
  - unfold notices, announced_query in *. simpl.
    destruct (filter _ _) as [|call calls].
    + eexists. split; [reflexivity|]. now apply extends_refl.
    + destruct (get_query call) as [search_query|]; [|discriminate].
      eexists. split; [reflexivity|]. now apply deliver_search_start.
  - unfold notices, reported_urls in *. simpl.
    destruct (text_eqb tool tavily).
    + destruct output as [items|].
      * eexists. split; [reflexivity|]. now apply deliver_search_results.
      * eexists. split; [reflexivity|]. now apply extends_refl.
    + eexists. split; [reflexivity|]. now apply extends_refl.
  - eexists. split; [reflexivity|]. now apply extends_refl.
Qed.

Lemma deliver_yields (events : list graph_event) (st : State) :
  Open st -> forallb clean events = true ->
  Forall (fun e => on_event e <> None) events /\
  extends st (run (map wire (yields events)) st)
    (flat_map streamed_text events) (flat_map notices events).
Proof.
  revert st. induction events as [|event events IH]; intros st O C.
  - split; [constructor|now apply extends_refl].
  - simpl in C. apply andb_true_iff in C as [Ce Ces].
    destruct (deliver_clean event st O Ce) as (yielded & Y & E).
    destruct (IH _ (proj1 E) Ces) as [F E'].
    split; [constructor; [congruence|assumption]|].
    simpl. rewrite Y, map_app, run_app.
    eapply extends_trans; eauto.
Qed.

Lemma deliver_end (st : State) :
  Open st ->
  let st' := dispatch st (wire end_) in
  closed (snd st') = true /\
  checkpointId (fst st') = checkpointId (fst st) /\
  exists msg,
    assistant_messages st' = [msg] /\
    content msg = streamedContent (snd st) /\
    (streamedContent (snd st) <> [] -> isLoading msg = Some false) /\
    isUser msg = false /\
    searchInfo msg = Some (final_record (searchData (snd st))).
Proof.
  intros O. unfold wire. cbv zeta.
  rewrite (dispatch_parsed st _ _ _ (open_closed _ O) parse_end
             (on_data_ended _)).
  pose proof (on_end_shown st O) as M.
  pose proof (open_received _ O) as R.
  destruct st as [p s]. unfold on_end in *. simpl in *.
  destruct (searchData s) as [info|] eqn:SD; simpl.
  - split; [reflexivity|]. split; [reflexivity|].
    eexists. split; [exact M|]. repeat split.
  - split; [reflexivity|]. split; [reflexivity|].
    eexists. split; [exact M|]. split; [reflexivity|].
    split; [|split; [reflexivity|]].
    + intros NE. simpl. unfold touched. now rewrite (R NE).
    + simpl. unfold record_of. now rewrite SD.
Qed.

(** The page at the end of a Turn whose texts come through. *)
Lemma clean_turn_ends (p0 p : Page) (url : text) (s : Stream)
    (message_ : text) (checkpoint_id : option text)
    (new_checkpoint_id : text) (events : list graph_event) :
  handleSubmit p0 = (p, Connected url s) ->
  forallb clean events = true ->
  forallb quotable new_checkpoint_id = true ->
  let body := Response.chat_stream message_ checkpoint_id new_checkpoint_id
                events Exhausted in
  let st := run (map message (EventStream.messages body)) (p, s) in
  let answer := flat_map streamed_text events in
  closed (snd st) = true /\
  checkpointId (fst st)
  = match checkpoint_id with
    | None => Some (JString new_checkpoint_id)
    | Some _ => checkpointId p0
    end /\
  exists msg,
    assistant_messages st = [msg] /\ content msg = answer /\
    (answer <> [] -> isLoading msg = Some false) /\
    isUser msg = false /\
    searchInfo msg
    = Some (final_record (fold_left noted (flat_map notices events) None)).
Proof.
  intros H C Q. pose proof (Open_after_submit _ _ _ _ H) as O.
  apply handleSubmit_connected in H as (Hs & Hc & _).
  assert (Finish : forall st1,
             Open st1 -> streamedContent (snd st1) = [] ->
             searchData (snd st1) = None ->
             let st := run (map wire (yields events ++ [end_])) st1 in
             closed (snd st) = true /\
             checkpointId (fst st) = checkpointId (fst st1) /\
             exists msg,
               assistant_messages st = [msg] /\
               content msg = flat_map streamed_text events /\
               (flat_map streamed_text events <> [] ->
                isLoading msg = Some false) /\
               isUser msg = false /\
               searchInfo msg
               = Some (final_record
                         (fold_left noted (flat_map notices events) None))).
  { intros st1 O1 S1 N1. cbv zeta. rewrite map_app, run_app.
    destruct (deliver_yields events st1 O1 C) as (_ & O2 & S2 & C2 & R2).
    rewrite S1 in S2. rewrite N1 in R2. simpl in S2.
    change (run (map wire [end_]) ?x) with (dispatch x (wire end_)).
    destruct (deliver_end _ O2) as (Cl & C3 & msg & M & Cm & L & U & I).
    split; [exact Cl|]. split; [congruence|].
    exists msg. rewrite <- S2, <- R2. auto. }
  destruct (deliver_yields events (p, s) O C) as (F & _).
  assert (U : forallb unbroken events = true).
  { rewrite forallb_forall in *. intros e He.
    apply StreamFacts.clean_unbroken. auto. }
  cbv zeta. unfold Response.chat_stream.
  rewrite (StreamFacts.read_back _
             (StreamFacts.generated_on_one_line _ _ _ _ _ U
                (StreamFacts.quotable_inline _ Q))).
  rewrite map_map. change (fun e => message (payload e)) with wire.
  unfold generate_chat_responses.
  rewrite (ServerFacts.stream_loop_returned _ F).
  destruct checkpoint_id as [c|]; simpl fst.
  - destruct (Finish (p, s) O ltac:(subst s; reflexivity)
                ltac:(subst s; reflexivity)) as (Cl & Cp & M).
    split; [exact Cl|]. split; [simpl in Cp; congruence|exact M].
  - change (run (map wire (checkpoint new_checkpoint_id :: ?l)) ?x)
      with (run (map wire l)
                (dispatch x (wire (checkpoint new_checkpoint_id)))).
    destruct (deliver_checkpoint new_checkpoint_id (p, s) O Q)
      as (O1 & S1 & C1 & N1).
    destruct (Finish _ O1 ltac:(rewrite S1; subst s; reflexivity)
                ltac:(rewrite N1; subst s; reflexivity))
      as (Cl & Cp & M).
    split; [exact Cl|]. split; [congruence|exact M].
Qed.

End WithHost.
End TurnFacts.

Section TurnClaims.

Import Server Client Protocol Effects Response TurnFacts View.
Context {host : Host} {renderer : Renderer}.

(** X1.  A Turn, end to end.  When the texts of the graph's events are
    such that the server's escaping gets them right, and the iteration
    ends without raising, the page that reads the response with its
    [EventSource] ends the Turn with the stream closed, the thread id of
    a new conversation stored as the checkpoint id, and one message for
    the response whose content is the model's chunks put together in
    order; unless that text is empty, it is what the bubble shows. *)
Theorem clean_turn_reaches_the_page
    (p0 p : Page) (url : text) (s : Stream) (message_ : text)
    (checkpoint_id : option text) (new_checkpoint_id : text)
    (events : list graph_event) :
  handleSubmit p0 = (p, Connected url s) ->
  forallb clean events = true ->
  forallb quotable new_checkpoint_id = true ->
  let body := chat_stream message_ checkpoint_id new_checkpoint_id events
                Exhausted in
  let st := run (map message (EventStream.messages body)) (p, s) in
  let answer := flat_map streamed_text events in
  closed (snd st) = true /\
  checkpointId (fst st)
  = match checkpoint_id with
    | None => Some (JString new_checkpoint_id)
    | Some _ => checkpointId p0
    end /\
  exists msg,
    assistant_messages st = [msg] /\ content msg = answer /\
    (answer <> [] -> render_content msg = Text answer).
Proof.
  intros H C Q.
  destruct (clean_turn_ends p0 p url s message_ checkpoint_id
              new_checkpoint_id events H C Q)
    as (Cl & Cp & msg & M & Cm & L & _ & _).
  cbv zeta. split; [exact Cl|]. split; [exact Cp|].
  exists msg. split; [exact M|]. split; [exact Cm|].
  intros NE. unfold render_content. rewrite (L NE), Cm.
  destruct (flat_map streamed_text events); [congruence|reflexivity].
Qed.

(** X23.  A Turn with one search, end to end.  When the graph's events
    announce one search and then report its URLs, and the texts come
    through, the panel above the response shows at the end of the Turn
    three parts: the searching part with the query and the line down,
    the reading part with one chip for each URL, and the writing part. *)
Theorem clean_turn_shows_its_search
    (p0 p : Page) (url : text) (s : Stream) (message_ : text)
    (checkpoint_id : option text) (new_checkpoint_id : text)
    (events : list graph_event) (search_query : text) (urls_ : list text) :
  handleSubmit p0 = (p, Connected url s) ->
  forallb clean events = true ->
  forallb quotable new_checkpoint_id = true ->
  flat_map notices events = [Announced search_query; Reported urls_] ->
  let body := chat_stream message_ checkpoint_id new_checkpoint_id events
                Exhausted in
  let st := run (map message (EventStream.messages body)) (p, s) in
  exists msg,
    assistant_messages st = [msg] /\
    search_status msg
    = Panel [SearchingTheWeb true (Some (JString search_query));
             ReadingSources
               (match urls_ with
                | [] => NoResults (Some (JBool false))
                | _ :: _ => Chips urls_
                end);
             WritingAnswer].
Proof.
  intros H C Q N.
  destruct (clean_turn_ends p0 p url s message_ checkpoint_id
              new_checkpoint_id events H C Q)
    as (_ & _ & msg & M & _ & _ & U & I).
  cbv zeta. exists msg. split; [exact M|].
  unfold search_status. rewrite U, I, N.
  assert (Qy : forall urls0,
             query_or_empty
               (Some {| stages := [Searching];
                        query := Some (JString search_query);
                        urls := urls0; error := undefined |})
             = Some (JString search_query)).
  { intros urls0. unfold query_or_empty, js_or. simpl.
    now destruct search_query. }
  cbn [fold_left noted final_record stages query urls error
       stages_with app].
  unfold noted. rewrite Qy. unfold SearchStages, sources_of. simpl.
  destruct urls_ as [|u us]; [reflexivity|].
  simpl. rewrite map_map. simpl. now rewrite map_id.
Qed.

End TurnClaims.

(** ** Submissions and their requests *)

Module SubmitMore.

Import Client ClientFacts SubmitFacts Protocol Effects.
#[local] Open Scope Z_scope.
#[local] Arguments str : simpl never.

Lemma existsb_rev {A} (f : A -> bool) (l : list A) :
  existsb f (rev l) = existsb f l.
Proof.
  induction l as [|x l IH]; simpl; [reflexivity|].
  rewrite existsb_app, IH. simpl. rewrite orb_false_r. apply orb_comm.
Qed.

Lemma trim_start_not_blank (s : text) :
  not_blank s = true -> not_blank (trim_start s) = true.
Proof.
  unfold not_blank. induction s as [|c s IH]; simpl; [discriminate|].
  destruct (is_js_whitespace c) eqn:W; simpl; [exact IH|].
  now rewrite W.
Qed.

Lemma trim_not_blank (s : text) : not_blank s = true -> trim s <> [].
Proof.
  intros H. apply trim_start_not_blank in H.
  assert (R : not_blank (rev (trim_start s)) = true)
    by (unfold not_blank in *; now rewrite existsb_rev).
  apply trim_start_not_blank in R.
  assert (T : not_blank (trim s) = true)
    by (unfold trim, trim_end, not_blank in *; now rewrite existsb_rev).
  intros E. rewrite E in T. discriminate.
Qed.

Section WithHost.

Context {host : Host}.

Lemma handleSubmit_taken (p0 p : Page) (o : outcome) :
  handleSubmit p0 = (p, o) -> o <> Ignored ->
  currentMessage p = [] /\ checkpointId p = checkpointId p0 /\
  messages p = messages p0 ++ appended p0 o.
Proof.
  unfold handleSubmit, appended.
  destruct (is_empty (trim (currentMessage p0))).
  { intros [= <- <-] N. now contradiction N. }
  destruct (request_url _ _) as [u|].
  - destruct (EventSource_constructs u); intros [= <- <-] _; simpl;
      repeat split; now rewrite <- !app_assoc.
  - intros [= <- <-] _; simpl. repeat split; now rewrite <- !app_assoc.
Qed.

Lemma handleSubmit_not_blank (p0 : Page) :
  not_blank (currentMessage p0) = true -> snd (handleSubmit p0) <> Ignored.
Proof.
  intros H. apply trim_not_blank in H. unfold handleSubmit.
  destruct (trim (currentMessage p0)); [congruence|]. simpl.
  destruct (request_url _ _) as [u|]; [|discriminate].
  destruct (EventSource_constructs u); discriminate.
Qed.

End WithHost.
End SubmitMore.

Section SubmitClaims.

Import Client ClientFacts SubmitFacts Protocol Effects SubmitMore.
#[local] Open Scope Z_scope.
Context {host : Host}.

(** X8.  An input that is not blank is always taken: the user's message,
    with the text exactly as typed, and the loading placeholder are
    appended to the messages there were, with the next two ids; the input
    field is emptied and the checkpoint id kept.  Only when opening the
    connection fails does a third message, the report of it, follow. *)
Theorem non_blank_submission_is_taken (p0 : Page) :
  not_blank (currentMessage p0) = true ->
  let p := fst (handleSubmit p0) in
  let o := snd (handleSubmit p0) in
  let n := newMessageId_of (messages p0) in
  o <> Ignored /\
  currentMessage p = [] /\ checkpointId p = checkpointId p0 /\
  messages p
  = messages p0
    ++ [user_message n (currentMessage p0); placeholder (n + 1)]
    ++ match o with
       | ConnectionFailed => [connection_error_message n]
       | _ => []
       end.
Proof.
  intros H. pose proof (handleSubmit_not_blank p0 H) as N.
  cbv zeta. split; [exact N|].
  apply (handleSubmit_taken p0); [|exact N].
  now destruct (handleSubmit p0).
Qed.

(** X9.  After a submission that was taken the input field is empty, so
    submitting again at once is ignored: nothing is appended and no second
    stream is opened. *)
Theorem resubmission_is_ignored (p0 p : Page) (o : outcome) :
  handleSubmit p0 = (p, o) -> o <> Ignored ->
  handleSubmit p = (p, Ignored).
Proof.
  intros H N. apply handleSubmit_taken in H as (E & _ & _); [|exact N].
  unfold handleSubmit. now rewrite E.
Qed.

(** X10.  Unless opening the connection fails, a submission keeps the ids
    of the messages pairwise distinct, and with them the keys of the rows
    [MessageArea] renders. *)
Theorem submission_keeps_ids_distinct
    {renderer : Renderer} (p0 p : Page) (o : outcome) :
  handleSubmit p0 = (p, o) -> o <> ConnectionFailed ->
  NoDup (map id (messages p0)) ->
  NoDup (map id (messages p)) /\
  NoDup (map View.key (View.MessageArea (messages p))).
Proof.
  intros H N D.
  assert (K : map View.key (View.MessageArea (messages p))
              = map id (messages p)).
  { unfold View.MessageArea. rewrite map_map. reflexivity. }
  rewrite K. cut (NoDup (map id (messages p))); [tauto|].
  destruct o as [|url s| |].
  - unfold handleSubmit in H.
    destruct (is_empty (trim (currentMessage p0)));
      [now injection H as <-|].
    destruct (request_url _ _) as [u|]; [|discriminate].
    destruct (EventSource_constructs u); discriminate.
  - eapply handleSubmit_connected_NoDup; eauto.
  - now contradiction N.
  - apply handleSubmit_taken in H as (_ & _ & M); [|discriminate].
    rewrite M. unfold appended. rewrite app_nil_r, map_app. simpl.
    assert (F : forall x, In x (map id (messages p0)) ->
                          x < newMessageId_of (messages p0)).
    { intros x Hx. apply in_map_iff in Hx as (m & <- & Hm0).
      now apply newMessageId_fresh. }
    apply NoDup_app; [assumption| |].
    + constructor; [simpl; lia|]. constructor; [simpl; tauto|constructor].
    + intros x Hx [<-|[<-|[]]]; apply F in Hx; lia.
Qed.

End SubmitClaims.

Module URIFacts.

Import Protocol.
#[local] Open Scope N_scope.

Lemma unreserved_ascii (c : N) : URI.unreserved c = true -> c < 128.
Proof.
  unfold URI.unreserved. intros H.
  repeat (apply orb_true_iff in H as [H|H]);
    try (apply andb_true_iff in H as [_ H]; apply N.leb_le in H; lia);
    apply N.eqb_eq in H; lia.
Qed.

Lemma unreserved_quotable (c : N) :
  URI.unreserved c = true -> quotable c = true.
Proof.
  unfold URI.unreserved, quotable. intros H.
  assert (32 <= c /\ c <> Chr.dquote /\ c <> Chr.backslash) as (G & D & B).
  { unfold Chr.dquote, Chr.backslash.
    repeat (apply orb_true_iff in H as [H|H]);
      try (apply andb_true_iff in H as [H1 H2];
           apply N.leb_le in H1, H2; lia);
      apply N.eqb_eq in H; lia. }
  apply N.leb_le in G. apply N.eqb_neq in D, B. now rewrite G, D, B.
Qed.

(** Text made of unreserved characters is its own encoding. *)
Lemma encode_unreserved (t : text) :
  forallb URI.unreserved t = true -> URI.encode t = Some t.
Proof.
  induction t as [|c t IH]; intros U; [reflexivity|].
  simpl in U. apply andb_true_iff in U as [Uc Ut].
  cbn [URI.encode]. pose proof (unreserved_ascii c Uc) as A.
  apply N.ltb_lt in A. rewrite A, Uc, (IH Ut). reflexivity.
Qed.

Lemma hex_upper_unreserved (n : N) :
  n < 16 -> URI.unreserved (URI.hex_upper n) = true.
Proof.
  apply (WireFacts.below_sixteen (fun k => URI.unreserved (URI.hex_upper k))).
  reflexivity.
Qed.

Lemma percent_segment (byte : N) :
  byte < 256 -> forallb segment_character (URI.percent byte) = true.
Proof.
  intros H. unfold URI.percent, segment_character. cbn [forallb].
  rewrite !hex_upper_unreserved.
  - reflexivity.
  - apply N.mod_lt. discriminate.
  - zify. Z.to_euclidean_division_equations. lia.
Qed.

Lemma encode_segment (n : nat) :
  forall t e, (length t <= n)%nat ->
    forallb code_unit t = true -> URI.encode t = Some e ->
    forallb segment_character e = true.
Proof.
  induction n as [|n IH]; intros t e L U E.
  { destruct t; [|simpl in L; lia]. now injection E as <-. }
  destruct t as [|c t]; [now injection E as <-|].
  simpl in L, U. apply andb_true_iff in U as [Uc Ut].
  unfold code_unit in Uc. apply N.ltb_lt in Uc.
  cbn [URI.encode] in E.
  assert (Step : forall pre r e',
             forallb segment_character pre = true ->
             (length r <= n)%nat -> forallb code_unit r = true ->
             option_map (app pre) (URI.encode r) = Some e' ->
             forallb segment_character e' = true).
  { intros pre r e' P Lr Ur Er.
    destruct (URI.encode r) as [er|] eqn:R; [|discriminate].
    injection Er as <-. rewrite forallb_app, P. simpl. eapply IH; eauto. }
  destruct (c <? 128) eqn:C1.
  { eapply Step with (4 := E); [|lia|assumption].
    destruct (URI.unreserved c) eqn:Un.
    - unfold segment_character. simpl. now rewrite Un.
    - apply percent_segment. apply N.ltb_lt in C1. lia. }
  destruct (c <? 2048) eqn:C2.
  { eapply Step with (4 := E); [|lia|assumption].
    apply N.ltb_lt in C2.
    rewrite forallb_app, !percent_segment; [reflexivity| |];
      zify; Z.to_euclidean_division_equations; lia. }
  destruct ((c <? 55296) || (57344 <=? c)) eqn:C3.
  { eapply Step with (4 := E); [|lia|assumption].
    rewrite !forallb_app, !percent_segment; [reflexivity| | |];
      zify; Z.to_euclidean_division_equations; lia. }
  destruct (c <? 56320) eqn:C4; [|discriminate].
  destruct t as [|low t]; [discriminate|].
  destruct ((56320 <=? low) && (low <? 57344)) eqn:C5; [|discriminate].
  simpl in Ut. apply andb_true_iff in Ut as [_ Ut].
  eapply Step with (4 := E); [|simpl in L; lia|assumption].
  apply andb_true_iff in C5 as [L1 L2].
  apply N.leb_le in L1. apply N.ltb_lt in L2, C4.
  apply orb_false_iff in C3 as [C3 _]. apply N.ltb_ge in C3.
  rewrite !forallb_app, !percent_segment; [reflexivity| | | |];
    zify; Z.to_euclidean_division_equations; nia.
Qed.

End URIFacts.

Section RequestClaims.

Import Client ClientFacts SubmitFacts Protocol SubmitMore URIFacts.
Import WireFacts TurnFacts.
#[local] Open Scope Z_scope.
Context {host : Host}.

Lemma handleSubmit_url (p0 p : Page) (url : text) (s : Stream) :
  handleSubmit p0 = (p, Connected url s) ->
  request_url (currentMessage p0) (checkpointId p0) = Some url.
Proof.
  unfold handleSubmit.
  destruct (is_empty (trim (currentMessage p0))); [discriminate|].
  destruct (request_url _ _) as [u|]; [|discriminate].
  destruct (EventSource_constructs u); [|discriminate].
  now intros [= _ <- _].
Qed.

(** X11.  The URL a submission connects to is the endpoint followed by the
    encoded input and, at most, the checkpoint parameter.  The encoded
    input holds unreserved characters and percent signs only, so that no
    character of the input -- no slash, question mark, ampersand, hash or
    space -- ends the path or adds a parameter. *)
Theorem request_path_is_encoded (p0 p : Page) (url : text) (s : Stream) :
  handleSubmit p0 = (p, Connected url s) ->
  forallb code_unit (currentMessage p0) = true ->
  exists segment rest,
    encodeURIComponent (currentMessage p0) = Some segment /\
    url = endpoint ++ segment ++ rest /\
    forallb segment_character segment = true /\
    (rest = [] \/ exists c, rest = str "?checkpoint_id=" ++ c).
Proof.
  intros H U. apply handleSubmit_url in H. unfold request_url in H.
  destruct (encodeURIComponent (currentMessage p0)) as [segment|] eqn:E;
    [|discriminate].
  cbv zeta in H.
  assert (S : forallb segment_character segment = true)
    by (eapply encode_segment; eauto).
  destruct (ToBoolean (checkpointId p0)).
  - destruct (checkpointId p0) as [v|].
    + destruct (ToString v) as [t|]; [|discriminate].
      destruct (encodeURIComponent t) as [c|]; [|discriminate].
      injection H as <-. exists segment, (str "?checkpoint_id=" ++ c).
      rewrite app_assoc. repeat split; eauto.
    + injection H as <-. exists segment, []. rewrite app_nil_r. auto.
  - injection H as <-. exists segment, []. rewrite app_nil_r. auto.
Qed.

(** X12.  Once the [checkpoint] event of a Turn has been handled, the
    next submission asks for the same thread: its URL ends with the
    checkpoint parameter holding the id the server minted.  The event
    itself changes no message. *)
Theorem next_request_carries_the_checkpoint
    (st : State) (checkpoint_id input : text) :
  closed (snd st) = false ->
  checkpoint_id <> [] ->
  forallb URI.unreserved checkpoint_id = true ->
  let p := fst (dispatch st (wire (Server.checkpoint checkpoint_id))) in
  messages p = messages (fst st) /\
  forall p' url s',
    handleSubmit (InputBar.handleChange input p) = (p', Connected url s') ->
    exists segment,
      encodeURIComponent input = Some segment /\
      url = endpoint ++ segment ++ str "?checkpoint_id=" ++ checkpoint_id.
Proof.
  intros C NE U.
  assert (Q : forallb quotable checkpoint_id = true).
  { rewrite forallb_forall in *. intros c Hc.
    apply unreserved_quotable. auto. }
  unfold wire. cbv zeta.
  rewrite (dispatch_parsed st _ _ _ C (parse_checkpoint _ Q)
             (on_data_checkpoint _ _)).
  split; [reflexivity|].
  intros p' url s' H. apply handleSubmit_url in H.
  unfold InputBar.handleChange, request_url in H. simpl in H.
  cbv zeta in H.
  destruct (encodeURIComponent input) as [segment|]; [|discriminate].
  exists segment. split; [reflexivity|].
  destruct checkpoint_id as [|c t]; [congruence|].
  unfold encodeURIComponent in H. simpl negb in H. cbv iota in H.
  rewrite (encode_unreserved _ U) in H. injection H as <-.
  now rewrite app_assoc.
Qed.

End RequestClaims.

(** ** Edges of the reducer *)

Module ReducerMore.

Import Client ClientFacts SubmitFacts Protocol Effects FrameFacts TurnFacts.
#[local] Open Scope Z_scope.
#[local] Arguments str : simpl never.

Section WithHost.

Context {host : Host}.

Lemma on_data_search_results_branch (v : json) (st : State) :
  event_type v = Some (str "search_results") ->
  on_data v st = Some (on_search_results v st).
Proof.
  intros T. pose proof (event_type_prop _ _ T) as P.
  destruct v; try discriminate; unfold on_data, on_type; rewrite P;
    reflexivity.
Qed.

Lemma on_data_content_branch (v : json) (st : State) :
  event_type v = Some (str "content") ->
  on_data v st = on_content v st.
Proof.
  intros T. pose proof (event_type_prop _ _ T) as P.
  destruct v; try discriminate; unfold on_data, on_type; rewrite P;
    reflexivity.
Qed.

(** The message a stream writes to, once it has been touched, is not
    loading, and stays so. *)
Lemma settled_stays (st st' : State) (msg : Message) :
  framed st st' ->
  assistant_messages st = [msg] -> isLoading msg = Some false ->
  exists msg', assistant_messages st' = [msg'] /\
               isLoading msg' = Some false.
Proof.
  intros (A & _ & f & F & M) Hm L. unfold assistant_messages in *.
  rewrite A, M, filter_update_message by (intros m; apply F).
  rewrite Hm. simpl. eexists. split; [reflexivity|].
  destruct (F msg) as (_ & _ & _ & [->|X]); assumption.
Qed.

End WithHost.
End ReducerMore.

Section ReducerEdgeClaims.

Import Client ClientFacts SubmitFacts Protocol Effects FrameFacts.
Import TurnFacts ReducerMore.
#[local] Open Scope Z_scope.
Context {host : Host}.

(** X13.  A [content] event that has no [content] member, or has [null]
    there, still counts as content: the text [undefined], or [null], is
    appended to the answer. *)
Theorem content_without_text_is_appended
    (st : State) (event_data : text) (data : json) :
  closed (snd st) = false ->
  JSON.parse event_data = Some data ->
  event_type data = Some (str "content") ->
  let st' := dispatch st (message event_data) in
  (prop data (str "content") = None ->
   streamedContent (snd st') = streamedContent (snd st) ++ str "undefined") /\
  (prop data (str "content") = Some JNull ->
   streamedContent (snd st') = streamedContent (snd st) ++ str "null").
Proof.
  intros C P T. cbv zeta. unfold dispatch, onmessage.
  rewrite C, P, (on_data_content_branch _ _ T).
  unfold on_content. destruct st as [p s].
  split; intros ->; reflexivity.
Qed.

(** X14.  A [search_results] event may hold its URLs as text: the text is
    parsed, and what it parses to is stored as the URLs, with the reading
    stage added.  When the text is not JSON the event is dropped as a
    whole -- no stage is added and nothing else changes. *)
Theorem search_results_may_hold_text
    (st : State) (event_data urls_text : text) (data : json) :
  closed (snd st) = false ->
  JSON.parse event_data = Some data ->
  event_type data = Some (str "search_results") ->
  prop data (str "urls") = Some (JString urls_text) ->
  dispatch st (message event_data)
  = match JSON.parse urls_text with
    | Some parsed =>
      show_search
        {| stages := stages_with (searchData (snd st)) Reading;
           query := query_or_empty (searchData (snd st));
           urls := Some parsed; error := undefined |} st
    | None => st
    end.
Proof.
  intros C P T U. unfold dispatch, onmessage.
  rewrite C, P, (on_data_search_results_branch _ _ T).
  unfold on_search_results. rewrite U.
  now destruct (JSON.parse urls_text).
Qed.

(** X15.  Once a [content] event has been handled, the typing animation is
    gone for good: whatever the stream delivers afterwards, the bubble of
    the response shows text or the waiting note. *)
Theorem typing_animation_ends_with_the_first_content
    (p0 p : Page) (url : text) (s : Stream)
    (pre post : list event) (e : event) (fragment : text) :
  handleSubmit p0 = (p, Connected url s) ->
  closed (snd (run pre (p, s))) = false ->
  content_event fragment e ->
  exists msg,
    assistant_messages (run (pre ++ e :: post) (p, s)) = [msg] /\
    render_content msg <> PremiumTypingAnimation.
Proof.
  intros H C E. pose proof (Open_after_submit _ _ _ _ H) as O.
  pose proof (run_open_Open pre _ O C) as O1.
  destruct (run_content_events [fragment] [e] _ O1
              (Forall2_cons _ _ E (Forall2_nil _))) as [O2 S2].
  change (run [e] ?x) with (dispatch x e) in *.
  assert (R : run (pre ++ e :: post) (p, s)
              = run post (dispatch (run pre (p, s)) e)).
  { now rewrite run_app. }
  rewrite R.
  assert (T : hasReceivedContent (snd (dispatch (run pre (p, s)) e)) = true).
  { destruct E as (d & v & -> & Pd & Tv & Cv).
    unfold dispatch, onmessage.
    now rewrite C, Pd, (on_data_content _ _ _ Tv Cv). }
  destruct (settled_stays _ _ _ (framed_run post _) (open_shown _ O2))
    as (msg & M & L).
  { simpl. unfold touched. now rewrite T. }
  exists msg. split; [exact M|]. unfold render_content. rewrite L.
  destruct (is_empty (content msg)); discriminate.
Qed.

End ReducerEdgeClaims.

(** ** The search panel *)

Module ViewFacts.

Import Client ClientFacts View.
#[local] Arguments str : simpl never.

Lemma Stage_eqb_eq (a b : Stage) : Stage_eqb a b = true <-> a = b.
Proof. destruct a, b; simpl; split; congruence. Qed.

Lemma includes_In (stage : Stage) (l : list Stage) :
  includes stage l = true <-> In stage l.
Proof.
  unfold includes. rewrite existsb_exists. split.
  - intros (x & Hx & E). apply Stage_eqb_eq in E. now subst.
  - intros H. exists stage. split; [assumption|]. now apply Stage_eqb_eq.
Qed.

Section WithHost.

Context {host : Host} {renderer : Renderer}.

(** The panel of a record that holds no stage is not rendered. *)
Lemma search_status_empty (msg : Message) (info : SearchInfo) :
  searchInfo msg = Some info -> stages info = [] ->
  search_status msg = Null.
Proof.
  intros S E. unfold search_status, SearchStages. rewrite S, E.
  now destruct (isUser msg).
Qed.


(** The panel of a record that holds the reading stage. *)
Lemma SearchStages_reading (info : SearchInfo) :
  In Reading (stages info) ->
  SearchStages (Some info)
  = match sources_of (urls info) with
    | Some sources =>
      Panel ((if includes Searching (stages info)
              then [SearchingTheWeb true (query info)] else [])
             ++ [ReadingSources sources]
             ++ (if includes Writing (stages info)
                 then [WritingAnswer] else [])
             ++ (if includes Error (stages info)
                 then [SearchErrorNote
                         (js_or (error info)
                            (Some (JString default_search_error)))]
                 else []))
    | None => Throws
    end.
Proof.
  intros R. unfold SearchStages.
  destruct (stages info) as [|x l] eqn:E; [contradiction|].
  rewrite <- E in *. apply includes_In in R. now rewrite R.
Qed.

End WithHost.
End ViewFacts.

Section ViewClaims.

Import Client ClientFacts SubmitFacts Protocol TurnFacts View ViewFacts.
#[local] Open Scope Z_scope.
Context {host : Host} {renderer : Renderer}.

(** X16.  The search panel is laid out in one fixed order -- searching,
    reading, writing, error -- with one part for each stage that occurs
    in the record, however often and in whatever order the stages were
    recorded. *)
Theorem panel_order_is_fixed (info : SearchInfo) (parts : list part) :
  SearchStages (Some info) = Panel parts ->
  StronglySorted lt (map part_rank parts) /\
  forall stage,
    In stage (stages info) <-> In (stage_rank stage) (map part_rank parts).
Proof.
  unfold SearchStages.
  destruct (stages info) as [|first more] eqn:E; [discriminate|].
  rewrite <- E. clear E first more.
  assert (I : forall stage,
             In stage (stages info) <-> includes stage (stages info) = true)
    by (intros; symmetry; apply includes_In).
  cbv zeta.
  destruct (includes Searching (stages info)) eqn:B1;
    destruct (includes Reading (stages info)) eqn:B2;
    destruct (includes Writing (stages info)) eqn:B3;
    destruct (includes Error (stages info)) eqn:B4;
    try destruct (sources_of (urls info)); try discriminate;
    intros [= <-]; (split; [repeat constructor|]);
    intros stage; rewrite I; destruct stage;
    rewrite ?B1, ?B2, ?B3, ?B4; simpl; intuition congruence.
Qed.


(** X17.  A Turn whose stream brings no search event shows no search panel
    above the response, at any point and also once the stream has ended,
    in whatever way it ended. *)
Theorem turn_without_search_shows_no_panel
    (p0 p : Page) (url : text) (s : Stream) (events : list event) :
  handleSubmit p0 = (p, Connected url s) ->
  Forall (fun e => ~ is_search_start_event e /\
                   ~ is_search_progress_event e) events ->
  exists msg,
    assistant_messages (run events (p, s)) = [msg] /\
    search_status msg = Null.
Proof.
  intros H F. pose proof (Open_after_submit _ _ _ _ H) as O.
  apply handleSubmit_connected in H as (Hs & _ & _).
  assert (N : searchData (snd (p, s)) = None) by (subst s; reflexivity).
  clear Hs. revert O N. generalize (p, s). clear p s.
  assert (Shown : forall st,
             Open st -> searchData (snd st) = None ->
             search_status (shown (snd st)) = Null).
  { intros st _ N. apply search_status_empty with (info := empty_info);
      [|reflexivity].
    simpl. unfold record_of. now rewrite N. }
  assert (Closed : forall st msg post,
             closed (snd st) = true -> assistant_messages st = [msg] ->
             search_status msg = Null ->
             exists msg', assistant_messages (run post st) = [msg'] /\
                          search_status msg' = Null).
  { intros st msg post C M S. rewrite run_closed by assumption. eauto. }
  induction F as [|e events [NS NP] F IH]; intros st O N.
  { exists (shown (snd st)). split; [apply (open_shown _ O)|now apply Shown]. }
  change (run (e :: events) st) with (run events (dispatch st e)).
  pose proof (Shown st O N) as S0.
  unfold dispatch. rewrite (open_closed _ O).
  destruct e as [event_data|].
  - destruct (onmessage_shape event_data st) as [->|(v & P & S)];
      [now apply IH|].
    destruct S as [->|x Eq|fragment C T Eq|T Eq|x q u er Fu G Eq|T Eq].
    + now apply IH.
    + assert (O' : Open (onmessage event_data st)).
      { pose proof (Open_dispatch st (message event_data) O) as X.
        unfold dispatch in X. rewrite (open_closed _ O) in X. apply X.
        rewrite Eq. apply (open_closed _ O). }
      apply IH; [exact O'|]. now rewrite Eq.
    + assert (O' : Open (onmessage event_data st)).
      { pose proof (Open_dispatch st (message event_data) O) as X.
        unfold dispatch in X. rewrite (open_closed _ O) in X. apply X.
        rewrite Eq. apply (open_closed _ O). }
      apply IH; [exact O'|]. now rewrite Eq.
    + exfalso. apply NS. exists event_data, v. auto.
    + exfalso. apply NP. exists event_data, v. auto.
    + rewrite Eq. pose proof (on_end_shown st O) as M. rewrite N in M.
      assert (C : closed (snd (on_end st)) = true).
      { destruct st as [p1 s1]. unfold on_end. simpl.
        now destruct (searchData s1). }
      apply (Closed _ _ _ C M S0).
  - pose proof (onerror_shown st O) as M.
    assert (C : closed (snd (onerror st)) = true).
    { destruct st as [p1 s1]. unfold onerror. simpl.
      now destruct (is_empty (streamedContent s1)). }
    apply (Closed _ _ _ C M).
    destruct (is_empty (streamedContent (snd st))); [|exact S0].
    exact S0.
Qed.

(** X18.  The URLs the server reports for a search are what the reading
    part of the panel lists: one chip for each URL, in the server's order
    and with the URL in full; when there is none, the part stands without
    chips. *)
Theorem reported_urls_are_listed
    (p0 p : Page) (url : text) (s : Stream) (pre : list event)
    (urls_ : list text) :
  handleSubmit p0 = (p, Connected url s) ->
  closed (snd (run pre (p, s))) = false ->
  forallb (forallb code_unit) urls_ = true ->
  let st := dispatch (run pre (p, s)) (wire (Server.search_results urls_)) in
  exists msg parts,
    assistant_messages st = [msg] /\
    search_status msg = Panel parts /\
    In (ReadingSources
          (match urls_ with
           | [] => NoResults (Some (JBool false))
           | _ :: _ => Chips urls_
           end)) parts.
Proof.
  intros H C U. pose proof (Open_after_submit _ _ _ _ H) as O.
  pose proof (run_open_Open pre _ O C) as O1.
  destruct (deliver_search_results urls_ _ O1 U) as (O2 & _ & _).
  cbv zeta. pose proof (open_shown _ O2) as M. revert M.
  unfold wire.
  assert (U' : Forall (fun u => forallb code_unit u = true) urls_)
    by (apply Forall_forall; now apply forallb_forall).
  rewrite (dispatch_parsed _ _ _ _ C (WireFacts.parse_search_results _ U')
             (on_data_search_results _ _)).
  set (st1 := run pre (p, s)). destruct st1 as [p1 s1]. simpl.
  intros M. eexists. eexists. split; [exact M|].
  unfold search_status, shown. cbn [isUser searchInfo].
  unfold record_of. cbn [searchData set_searchData].
  rewrite SearchStages_reading
    by (cbn [stages]; rewrite stages_with_record; apply in_or_app;
        right; now left).
  cbn [urls].
  assert (Src : sources_of (Some (JArray (map JString urls_)))
                = Some (match urls_ with
                        | [] => NoResults (Some (JBool false))
                        | _ :: _ => Chips urls_
                        end)).
  { unfold sources_of. simpl. destruct urls_ as [|u us]; [reflexivity|].
    simpl. rewrite map_map. simpl. now rewrite map_id. }
  rewrite Src. split; [reflexivity|].
  apply in_or_app. right. now left.
Qed.

End ViewClaims.

Section MoreViewClaims.

Import Client ClientFacts SubmitFacts Protocol TurnFacts View ViewFacts.
Import ReducerMore.
#[local] Open Scope Z_scope.
#[local] Arguments str : simpl never.
Context {host : Host} {renderer : Renderer}.

Lemma on_data_search_error_branch (v : json) (st : State) :
  event_type v = Some (str "search_error") ->
  on_data v st = Some (on_search_error v st).
Proof.
  intros T. pose proof (event_type_prop _ _ T) as P.
  destruct v; try discriminate; unfold on_data, on_type; rewrite P;
    reflexivity.
Qed.

Lemma includes_app (stage : Stage) (l l' : list Stage) :
  includes stage (l ++ l') = includes stage l || includes stage l'.
Proof. apply existsb_app. Qed.

(** X19.  While the stream is open, a [search_start] event leaves one part
    in the panel: the searching part with the query of the event, and no
    line down to a reading part -- whatever the panel showed before. *)
Theorem search_start_shows_the_query
    (p0 p : Page) (url : text) (s : Stream) (pre : list event)
    (event_data : text) (data : json) :
  handleSubmit p0 = (p, Connected url s) ->
  closed (snd (run pre (p, s))) = false ->
  JSON.parse event_data = Some data ->
  event_type data = Some (str "search_start") ->
  exists msg,
    assistant_messages (dispatch (run pre (p, s)) (message event_data))
    = [msg] /\
    search_status msg
    = Panel [SearchingTheWeb false (prop data (str "query"))].
Proof.
  intros H C P T. pose proof (Open_after_submit _ _ _ _ H) as O.
  pose proof (run_open_Open pre _ O C) as O1.
  assert (D : dispatch (run pre (p, s)) (message event_data)
              = on_search_start data (run pre (p, s))).
  { unfold dispatch, onmessage.
    now rewrite C, P, (on_data_search_start _ _ T). }
  rewrite D. unfold on_search_start.
  pose proof (Open_show_search _
                {| stages := [Searching]; query := prop data (str "query");
                   urls := Some (JArray []); error := undefined |}
                O1 eq_refl) as O2.
  eexists. split; [apply (open_shown _ O2)|].
  destruct (run pre (p, s)) as [p1 s1]. reflexivity.
Qed.

(** X20.  A [search_error] event puts the error part into the panel, with
    what the event holds as its error: [data.error] when that is truthy,
    and otherwise -- so when the event has no such member -- the text
    [An error occurred during search.] *)
Theorem search_error_is_shown
    (p0 p : Page) (url : text) (s : Stream) (pre : list event)
    (event_data : text) (data : json) :
  handleSubmit p0 = (p, Connected url s) ->
  closed (snd (run pre (p, s))) = false ->
  JSON.parse event_data = Some data ->
  event_type data = Some (str "search_error") ->
  exists msg parts,
    assistant_messages (dispatch (run pre (p, s)) (message event_data))
    = [msg] /\
    search_status msg = Panel parts /\
    In (SearchErrorNote
          (js_or (prop data (str "error"))
             (Some (JString default_search_error)))) parts /\
    (prop data (str "error") = None ->
     In (SearchErrorNote (Some (JString default_search_error))) parts).
Proof.
  intros H C P T. pose proof (Open_after_submit _ _ _ _ H) as O.
  pose proof (run_open_Open pre _ O C) as O1.
  assert (D : dispatch (run pre (p, s)) (message event_data)
              = on_search_error data (run pre (p, s))).
  { unfold dispatch, onmessage.
    now rewrite C, P, (on_data_search_error_branch _ _ T). }
  rewrite D. unfold on_search_error.
  set (info := {| stages := stages_with (searchData (snd (run pre (p, s))))
                              Error;
                  query := query_or_empty (searchData (snd (run pre (p, s))));
                  urls := Some (JArray []);
                  error := prop data (str "error") |}).
  assert (W : well_staged (stages info) = true).
  { simpl. rewrite stages_with_record.
    apply well_staged_app; [apply (open_staged _ O1)|reflexivity]. }
  pose proof (Open_show_search _ info O1 W) as O2.
  assert (E : includes Error (stages info) = true).
  { simpl. rewrite stages_with_record, includes_app. simpl.
    apply orb_true_r. }
  assert (NE : stages info <> []).
  { simpl. rewrite stages_with_record. intros X.
    apply app_eq_nil in X as [_ X]. discriminate. }
  assert (S : exists parts,
             SearchStages (Some info) = Panel parts /\
             In (SearchErrorNote
                   (js_or (error info)
                      (Some (JString default_search_error)))) parts).
  { unfold SearchStages. destruct (stages info) as [|x l] eqn:X;
      [congruence|]. rewrite <- X in *. cbv zeta. rewrite E.
    assert (Src : sources_of (urls info)
                  = Some (NoResults (Some (JBool false)))) by reflexivity.
    rewrite Src.
    destruct (includes Reading (stages info)); eexists;
      (split; [reflexivity|]); repeat (apply in_or_app; right);
      now left. }
  destruct S as (parts & SP & I).
  exists (shown (snd (show_search info (run pre (p, s))))), parts.
  split; [apply (open_shown _ O2)|].
  split; [destruct (run pre (p, s)) as [p1 s1]; exact SP|].
  split; [exact I|]. intros Nn. simpl in I. now rewrite Nn in I.
Qed.

End MoreViewClaims.

(** ** The end of a Turn and the stage record *)

Module RecordFacts.

Import Client ClientFacts SubmitFacts TurnFacts ReducerMore.
#[local] Open Scope Z_scope.
#[local] Arguments str : simpl never.

Section WithHost.

Context {host : Host}.

(** The record the message shows once a search branch has run. *)
Lemma show_search_record (st : State) (info info' : SearchInfo)
    (msg' : Message) :
  Open st ->
  assistant_messages (show_search info st) = [msg'] ->
  searchInfo msg' = Some info' ->
  well_staged (stages info) = true -> info' = info.
Proof.
  intros O A I W.
  pose proof (open_shown _ (Open_show_search _ _ O W)) as S.
  rewrite S in A. injection A as <-. destruct st as [p1 s1].
  simpl in I. now injection I as <-.
Qed.

Lemma well_staged_with (st : State) (x : Stage) :
  Open st -> follow_up x = true ->
  well_staged (stages_with (searchData (snd st)) x) = true.
Proof.
  intros O F. rewrite stages_with_record.
  apply well_staged_app; [apply (open_staged _ O)|exact F].
Qed.

(** The message of the response after any event, and its record. *)
Lemma message_after (st : State) (e : event) :
  Open st ->
  exists msg' info',
    assistant_messages (dispatch st e) = [msg'] /\
    searchInfo msg' = Some info'.
Proof.
  intros O. destruct (closed (snd (dispatch st e))) eqn:Cl.
  - destruct (dispatch_closes _ e (open_closed _ O) Cl) as [[-> D]|[E D]];
      rewrite D.
    + rewrite (onerror_shown _ O). eexists; exists (record_of (snd st)).
      split; [reflexivity|now destruct (is_empty _)].
    + rewrite (on_end_shown _ O).
      destruct (searchData (snd st)); eexists; eexists; split; reflexivity.
  - pose proof (Open_dispatch _ e O Cl) as O'.
    exists (shown (snd (dispatch st e))), (record_of (snd (dispatch st e))).
    split; [apply (open_shown _ O')|reflexivity].
Qed.

(** Once a [content] event or a search event has been handled, the
    stream has been touched, and stays so while it is open. *)
Lemma touched_kept (st : State) (e : event) :
  Open st -> closed (snd (dispatch st e)) = false ->
  touched (snd st) = true -> touched (snd (dispatch st e)) = true.
Proof.
  intros O Cl T. unfold dispatch in *. rewrite (open_closed _ O) in *.
  destruct e as [event_data|].
  - destruct (onmessage_shape event_data st) as [Eq|(v & P & S)];
      [now rewrite Eq|].
    destruct S as [Eq|x Eq|fragment Cf Ty Eq|Ty Eq|x q u er F G Eq|Ty Eq];
      rewrite Eq in *; clear Eq; destruct st as [p1 s1]; auto;
      unfold touched in *; simpl in *; auto using orb_true_r.
    unfold on_end in *. destruct (searchData s1); simpl in *; discriminate.
  - destruct st as [p1 s1]. unfold onerror in Cl. simpl in Cl.
    destruct (is_empty (streamedContent s1)); simpl in Cl; discriminate.
Qed.

Lemma touched_by (st : State) (e : event) :
  Open st -> is_content_event e \/ is_search_event e ->
  closed (snd (dispatch st e)) = false /\
  touched (snd (dispatch st e)) = true.
Proof.
  intros O [(fragment & event_data & v & -> & P & T & C)
           |[(event_data & v & -> & P & T)
            |[(event_data & v & -> & P & T)
             |(event_data & v & -> & P & T & U)]]].
  - rewrite (dispatch_parsed st _ _ _ (open_closed _ O) P
               (on_data_content _ _ _ T C)).
    split; [apply (open_closed _ O)|reflexivity].
  - rewrite (dispatch_parsed st _ _ _ (open_closed _ O) P
               (on_data_search_start _ _ T)).
    destruct st as [p1 s1]. split; [apply (open_closed _ O)|].
    unfold touched. simpl. apply orb_true_r.
  - rewrite (dispatch_parsed st _ _ _ (open_closed _ O) P
               (on_data_search_error_branch _ _ T)).
    destruct st as [p1 s1]. split; [apply (open_closed _ O)|].
    unfold touched. simpl. apply orb_true_r.
  - rewrite (dispatch_parsed st _ _ _ (open_closed _ O) P
               (on_data_search_results_branch _ _ T)).
    unfold on_search_results, urls_unreadable in *.
    destruct st as [p1 s1].
    destruct (prop v (str "urls")) as [[| | |u| |]|];
      try (split; [apply (open_closed _ O)|];
           unfold touched; simpl; apply orb_true_r).
    destruct (JSON.parse u); [|discriminate].
    split; [apply (open_closed _ O)|].
    unfold touched. simpl. apply orb_true_r.
Qed.

Lemma touched_run (pre : list event) (st : State) :
  Open st -> closed (snd (run pre st)) = false ->
  Exists is_content_event pre \/ Exists is_search_event pre ->
  touched (snd (run pre st)) = true.
Proof.
  intros O. induction pre as [|e pre IH] using rev_ind; intros Cl X.
  - destruct X as [X|X]; inversion X.
  - rewrite run_app in *.
    change (run [e] (run pre st)) with (dispatch (run pre st) e) in *.
    assert (Cl' : closed (snd (run pre st)) = false).
    { destruct (closed (snd (run pre st))) eqn:Y; [|reflexivity].
      rewrite dispatch_closed in Cl by assumption. congruence. }
    pose proof (run_open_Open pre _ O Cl') as O'.
    assert (Here : is_content_event e \/ is_search_event e ->
                   touched (snd (dispatch (run pre st) e)) = true)
      by (intros Y; apply (touched_by _ _ O' Y)).
    assert (Before : Exists is_content_event pre \/
                     Exists is_search_event pre ->
                     touched (snd (dispatch (run pre st) e)) = true)
      by (intros Y; apply touched_kept; auto).
    destruct X as [X|X]; apply Exists_app in X as [X|X]; auto;
      inversion X as [? ? Y|? ? Y]; subst; auto; inversion Y.
Qed.

End WithHost.
End RecordFacts.

Section RecordClaims.

Import Client ClientFacts SubmitFacts TurnFacts ReducerMore RecordFacts.
#[local] Open Scope Z_scope.
#[local] Arguments str : simpl never.
Context {host : Host}.

(** C6, as amended.  A [search_start] event puts a fresh stage record in
    place: its stages are exactly [Searching], its query is the event's
    query, and the stages recorded before it in the Turn are dropped.
    Every other event keeps the stages recorded so far and appends at
    most one stage to them: a [search_results] event appends [Reading],
    unless its [urls] are a string that is not JSON, when the event is
    dropped; a [search_error] event appends [Error]; an [end] event
    appends [Writing] when the stream holds a search record; any other
    event, and a transport error, leave the stages as they are. *)
Theorem C6_search_start_resets_the_stage_record
    (p0 p : Page) (url : text) (s : Stream) (pre : list event) (e : event) :
  handleSubmit p0 = (p, Connected url s) ->
  closed (snd (run pre (p, s))) = false ->
  let st := run pre (p, s) in
  let st' := dispatch st e in
  (forall event_data v,
      e = message event_data -> JSON.parse event_data = Some v ->
      event_type v = Some (str "search_start") ->
      let fresh := {| stages := [Searching]; query := prop v (str "query");
                      urls := Some (JArray []); error := undefined |} in
      searchData (snd st') = Some fresh /\
      exists msg', assistant_messages st' = [msg'] /\
                   searchInfo msg' = Some fresh) /\
  (~ is_search_start_event e ->
   exists msg info msg' info',
     assistant_messages st = [msg] /\ searchInfo msg = Some info /\
     assistant_messages st' = [msg'] /\ searchInfo msg' = Some info' /\
     (forall event_data v,
         e = message event_data -> JSON.parse event_data = Some v ->
         event_type v = Some (str "search_results") ->
         stages info' = if urls_unreadable v then stages info
                        else stages info ++ [Reading]) /\
     (event_of_type (str "search_error") e ->
      stages info' = stages info ++ [Error]) /\
     (is_end_event e ->
      stages info' = match searchData (snd st) with
                     | Some _ => stages info ++ [Writing]
                     | None => stages info
                     end) /\
     (~ event_of_type (str "search_results") e ->
      ~ event_of_type (str "search_error") e -> ~ is_end_event e ->
      stages info' = stages info)).
Proof.
  intros H C. pose proof (Open_after_submit _ _ _ _ H) as O0.
  pose proof (run_open_Open pre _ O0 C) as O. cbv zeta.
  set (st := run pre (p, s)) in *. clearbody st. clear H O0 C.
  split.
  - intros event_data v -> P T.
    assert (D : dispatch st (message event_data) = on_search_start v st).
    { unfold dispatch, onmessage.
      now rewrite (open_closed _ O), P, (on_data_search_start _ _ T). }
    rewrite D.
    assert (O' : Open (on_search_start v st))
      by (now apply Open_show_search).
    split; [now destruct st|].
    eexists. split; [apply (open_shown _ O')|]. now destruct st.
  - intros NS. destruct (message_after st e O) as (msg' & info' & A & I).
    exists (shown (snd st)), (record_of (snd st)), msg', info'.
    split; [apply (open_shown _ O)|]. split; [reflexivity|].
    split; [exact A|]. split; [exact I|].
    split; [|split; [|split]].
    + intros event_data v -> P T.
      rewrite (dispatch_parsed st _ _ _ (open_closed _ O) P
                 (on_data_search_results_branch _ _ T)) in A.
      unfold on_search_results, urls_unreadable in *.
      assert (R : forall u,
                 assistant_messages
                   (show_search
                      {| stages := stages_with (searchData (snd st)) Reading;
                         query := query_or_empty (searchData (snd st));
                         urls := u; error := undefined |} st) = [msg'] ->
                 stages info' = stages (record_of (snd st)) ++ [Reading]).
      { intros u A'.
        rewrite (show_search_record _ _ _ _ O A' I
                   (well_staged_with st Reading O eq_refl)).
        apply stages_with_record. }
      destruct (prop v (str "urls")) as [[| | |u| |]|]; eauto.
      destruct (JSON.parse u); [eauto|].
      rewrite (open_shown _ O) in A. injection A as <-.
      simpl in I. now injection I as <-.
    + intros (event_data & v & -> & P & T).
      rewrite (dispatch_parsed st _ _ _ (open_closed _ O) P
                 (on_data_search_error_branch _ _ T)) in A.
      unfold on_search_error in A.
      rewrite (show_search_record _ _ _ _ O A I
                 (well_staged_with st Error O eq_refl)).
      apply stages_with_record.
    + intros (event_data & v & -> & P & T).
      rewrite (dispatch_parsed st _ _ _ (open_closed _ O) P
                 (on_data_end _ _ T)), (on_end_shown _ O) in A.
      injection A as <-. unfold shown, record_of in *.
      destruct (searchData (snd st)); simpl in I; now injection I as <-.
    + intros NR NX NE.
      destruct (closed (snd (dispatch st e))) eqn:Cl.
      * destruct (dispatch_closes _ e (open_closed _ O) Cl)
          as [[-> D]|[E D]]; [|contradiction].
        rewrite D, (onerror_shown _ O) in A. injection A as <-.
        destruct (is_empty _); simpl in I; now injection I as <-.
      * pose proof (Open_dispatch _ e O Cl) as O'.
        rewrite (open_shown _ O') in A. injection A as <-.
        simpl in I. injection I as <-.
        unfold dispatch in *. rewrite (open_closed _ O) in *.
        destruct e as [event_data|].
        -- destruct (onmessage_shape event_data st) as [->|(v & P & S)];
             [reflexivity|].
           destruct S as [->|x ->|fragment Cf T ->|T ->|x q u er F G ->|T Eq];
             try (now destruct st).
           ++ exfalso. apply NS. exists event_data, v. auto.
           ++ exfalso. destruct G as [G|G];
                [apply NR|apply NX]; exists event_data, v; auto.
           ++ exfalso. apply NE. exists event_data, v. auto.
        -- exfalso. destruct st as [p1 s1]; unfold onerror in Cl; simpl in *.
           destruct (is_empty (streamedContent s1)); simpl in Cl;
             discriminate Cl.
Qed.

(** C5, as amended.  When a Turn ends, by an [end] event or by a
    transport error: if the accumulated text is not empty, the assistant
    message shows that text; if it is empty and the Turn ended by a
    transport error, the message shows the generic failure text; if it is
    empty and the Turn ended by [end] after at least one [content] event
    or one search event the handler did not drop, the message shows the
    stand-in [Waiting for response...]. *)
Theorem C5_final_message_shows_partial_text_or_stand_in
    (p0 p : Page) (url : text) (s : Stream) (pre : list event) (e : event) :
  handleSubmit p0 = (p, Connected url s) ->
  closed (snd (run pre (p, s))) = false ->
  closed (snd (dispatch (run pre (p, s)) e)) = true ->
  let st := dispatch (run pre (p, s)) e in
  exists msg,
    assistant_messages st = [msg] /\
    (streamedContent (snd st) <> [] ->
     render_content msg = Text (streamedContent (snd st))) /\
    (streamedContent (snd st) = [] -> e = failure ->
     render_content msg = Text generic_error) /\
    (streamedContent (snd st) = [] -> is_end_event e ->
     Exists is_content_event pre \/ Exists is_search_event pre ->
     render_content msg = WaitingForResponse).
Proof.
  intros H C Cl. pose proof (Open_after_submit _ _ _ _ H) as O0.
  pose proof (run_open_Open pre _ O0 C) as O.
  pose proof (touched_run pre _ O0 C) as T. cbv zeta.
  set (st := run pre (p, s)) in *. clearbody st. clear H O0 C.
  pose proof (open_received _ O) as R.
  destruct (dispatch_closes _ e (open_closed _ O) Cl) as [[-> D]|[E D]];
    rewrite D; clear D Cl.
  - rewrite (onerror_shown _ O). eexists. split; [reflexivity|].
    destruct st as [p1 s1]. unfold onerror. simpl in *.
    destruct (streamedContent s1) as [|c t] eqn:S; simpl; rewrite ?S.
    + split; [congruence|]. split; [reflexivity|].
      intros _ (d & v & X & _). discriminate X.
    + split; [|split; [discriminate|discriminate]].
      intros _. unfold render_content, shown, touched. simpl.
      rewrite R by discriminate. simpl. now rewrite S.
  - rewrite (on_end_shown _ O). eexists. split; [reflexivity|].
    destruct E as (d & v & -> & _).
    assert (L : streamedContent (snd (on_end st)) = streamedContent (snd st))
      by (destruct st as [p1 s1]; unfold on_end; simpl;
          now destruct (searchData s1)).
    rewrite L.
    destruct st as [p1 s1]. simpl in *.
    destruct (searchData s1) as [info|] eqn:SD;
      destruct (streamedContent s1) as [|c t] eqn:S;
      unfold render_content, shown; simpl; rewrite ?SD, ?S; simpl.
    + split; [congruence|]. split; [discriminate|reflexivity].
    + split; [reflexivity|]. split; discriminate.
    + split; [congruence|]. split; [discriminate|].
      intros _ _ X. now rewrite (T X).
    + split; [|split; discriminate].
      intros _. unfold touched. rewrite R by discriminate. reflexivity.
Qed.

End RecordClaims.

(** ** The nodes of the agent graph *)

Section AgentClaims.

Import Agent.

Variables Args Id SearchResults : Type.
Variable search_tool_ainvoke : Args -> option SearchResults.
Variable str_of : SearchResults -> text.

Lemma process_answers (tool_calls : list (ToolCall Args Id))
    (collected out : list (BaseMessage Args Id)) :
  process search_tool_ainvoke str_of tool_calls collected = Some out ->
  exists added,
    out = collected ++ added /\
    Forall2 (answers search_tool_ainvoke str_of)
      (filter is_search tool_calls) added.
Proof.
  revert collected. induction tool_calls as [|call calls IH];
    intros collected H; simpl in H.
  - injection H as <-. exists []. split; [now rewrite app_nil_r|constructor].
  - simpl. unfold is_search at 1.
    destruct (text_eqb (name call) Server.tavily).
    + destruct (search_tool_ainvoke (args call)) as [r|] eqn:S;
        [|discriminate].
      apply IH in H as (added & -> & F).
      eexists. split; [now rewrite <- app_assoc|].
      constructor; [|exact F]. exists r. auto.
    + now apply IH.
Qed.

Lemma process_raises (tool_calls : list (ToolCall Args Id))
    (collected : list (BaseMessage Args Id)) :
  process search_tool_ainvoke str_of tool_calls collected = None <->
  exists tool_call,
    In tool_call tool_calls /\ is_search tool_call = true /\
    search_tool_ainvoke (args tool_call) = None.
Proof.
  revert collected. induction tool_calls as [|call calls IH];
    intros collected; simpl.
  - split; [discriminate|]. intros (c & [] & _).
  - destruct (text_eqb (name call) Server.tavily) eqn:N.
    + destruct (search_tool_ainvoke (args call)) as [r|] eqn:S.
      * rewrite IH. split.
        -- intros (c & I & X). exists c. auto.
        -- intros (c & [<-|I] & X & Y); [congruence|]. exists c. auto.
      * split; [|reflexivity]. intros _. exists call. auto.
    + rewrite IH. split.
      * intros (c & I & X). exists c. auto.
      * intros (c & [<-|I] & X & Y); [unfold is_search in X; congruence|].
        exists c. auto.
Qed.

(** X21.  [tool_node] answers the calls of the search tool among the tool
    calls of the last message, each with one tool message that holds the
    call's id and name, in the order of the calls; calls of another tool
    get no answer. *)
Theorem tool_node_answers_each_search_call
    (messages out : list (BaseMessage Args Id)) :
  tool_node search_tool_ainvoke str_of messages = Some out ->
  exists content_ tool_calls,
    last_message messages = Some (AIMessage content_ tool_calls) /\
    Forall2 (answers search_tool_ainvoke str_of)
      (filter is_search tool_calls) out.
Proof.
  unfold tool_node.
  destruct (last_message messages) as [[c|c calls|c i n]|];
    try discriminate.
  intros H. apply process_answers in H as (added & -> & F).
  exists c, calls. auto.
Qed.

(** X22.  When [tools_router] sends a state to [tool_node], the node fails
    only if the search does: it raises exactly when the search raises for
    one of the search calls of the last message, and then none of the
    answers collected before is returned. *)
Theorem tool_node_fails_only_with_the_search
    (messages : list (BaseMessage Args Id)) :
  tools_router messages = Some to_tool_node ->
  exists content_ tool_calls,
    last_message messages = Some (AIMessage content_ tool_calls) /\
    tool_calls <> [] /\
    (tool_node search_tool_ainvoke str_of messages = None <->
     exists tool_call,
       In tool_call tool_calls /\ is_search tool_call = true /\
       search_tool_ainvoke (args tool_call) = None).
Proof.
  unfold tools_router, tool_node.
  destruct (last_message messages) as [[c|c calls|c i n]|];
    try discriminate.
  destruct calls as [|call calls]; [discriminate|]. intros _.
  exists c, (call :: calls). split; [reflexivity|]. split; [discriminate|].
  apply process_raises.
Qed.

End AgentClaims.

(** ** These properties on examples *)

Section FurtherExamples.

Import Client ClientFacts SubmitFacts Protocol Effects.
#[local] Open Scope Z_scope.
#[local] Arguments str : simpl never.

(** X1 on the Turn with one search of [search_graph_events]. *)
Lemma clean_turn_reaches_the_page_witness :
  exists p url s,
    handleSubmit (host := browser) hi_page = (p, Connected url s) /\
    forallb clean search_graph_events = true /\
    forallb quotable (str "abc-123") = true /\
    let body := Response.chat_stream (str "hi") None (str "abc-123")
                  search_graph_events Server.Exhausted in
    let st := run (host := browser)
                (map message (EventStream.messages body)) (p, s) in
    let answer := flat_map streamed_text search_graph_events in
    closed (snd st) = true /\
    checkpointId (fst st) = Some (JString (str "abc-123")) /\
    exists msg,
      assistant_messages st = [msg] /\ content msg = answer /\
      (answer <> [] -> render_content msg = Text answer).
Proof.
  eexists; eexists; eexists. split; [reflexivity|].
  split; [reflexivity|]. split; [reflexivity|].
  exact (clean_turn_reaches_the_page (host := browser) hi_page _ _ _
           (str "hi") None (str "abc-123") search_graph_events
           eq_refl eq_refl eq_refl).
Defined.

(** X23 on the same Turn. *)
Lemma clean_turn_shows_its_search_witness :
  exists p url s,
    handleSubmit (host := browser) hi_page = (p, Connected url s) /\
    forallb clean search_graph_events = true /\
    forallb quotable (str "abc-123") = true /\
    flat_map notices search_graph_events
    = [Announced (str "weather"); Reported [str "https://example.com/a"]] /\
    let body := Response.chat_stream (str "hi") None (str "abc-123")
                  search_graph_events Server.Exhausted in
    let st := run (host := browser)
                (map message (EventStream.messages body)) (p, s) in
    exists msg,
      assistant_messages st = [msg] /\
      View.search_status (host := browser)
        (renderer := browser_renderer) msg
      = View.Panel
          [View.SearchingTheWeb true (Some (JString (str "weather")));
           View.ReadingSources (View.Chips [str "https://example.com/a"]);
           View.WritingAnswer].
Proof.
  eexists; eexists; eexists. split; [reflexivity|].
  split; [reflexivity|]. split; [reflexivity|]. split; [reflexivity|].
  exact (clean_turn_shows_its_search (host := browser)
           (renderer := browser_renderer) hi_page _ _ _
           (str "hi") None (str "abc-123") search_graph_events
           (str "weather") [str "https://example.com/a"]
           eq_refl eq_refl eq_refl eq_refl).
Defined.

(** X2 on the same Turn. *)
Lemma response_is_read_back_witness :
  forallb unbroken search_graph_events = true /\
  forallb inline (str "abc-123") = true /\
  EventStream.messages
    (Response.chat_stream (str "hi") None (str "abc-123")
       search_graph_events Server.Exhausted)
  = map Server.payload
        (fst (Server.generate_chat_responses (str "hi") None (str "abc-123")
                search_graph_events Server.Exhausted)).
Proof.
  split; [reflexivity|]. split; [reflexivity|].
  exact (response_is_read_back (str "hi") None (str "abc-123")
           search_graph_events Server.Exhausted eq_refl eq_refl).
Defined.

(** X3 on two URLs, one with a quote and a line feed in it. *)
Lemma search_results_event_round_trips_witness :
  let urls_ := [str "https://example.com/a";
                str "b" ++ [Chr.dquote; Chr.lf] ++ str "c"] in
  forallb (forallb code_unit) urls_ = true /\
  JSON.parse (Server.payload (Server.search_results urls_))
  = Some (search_results_event_of urls_).
Proof.
  intros urls_. split; [reflexivity|].
  exact (search_results_event_round_trips urls_ eq_refl).
Defined.

(** X4 on a fragment of two lines. *)
Lemma content_event_parses_exactly_when_plain_witness :
  let fragment := str "a" ++ [Chr.lf] ++ str "b" in
  forallb no_dquote_backslash fragment = true /\
  JSON.parse (Server.payload (Server.content (Server.safe_content_of fragment)))
  = if forallb Server.plain fragment
    then Some (content_event_of fragment) else None.
Proof.
  intros fragment. split; [reflexivity|].
  exact (content_event_parses_exactly_when_plain fragment eq_refl).
Defined.

(** X5 on a query with double quotes. *)
Lemma search_start_event_parses_exactly_when_plain_witness :
  let query_ := str "say " ++ [Chr.dquote] ++ str "hi" ++ [Chr.dquote] in
  forallb no_backslash query_ = true /\
  JSON.parse
    (Server.payload (Server.search_start (Server.safe_query_of query_)))
  = if forallb query_plain query_
    then Some (search_start_event_of query_) else None.
Proof.
  intros query_. split; [reflexivity|].
  exact (search_start_event_parses_exactly_when_plain query_ eq_refl).
Defined.

(** X6 on the Turn with one search. *)
Lemma completed_stream_ends_with_end_witness :
  let body := Response.chat_stream (str "hi") None (str "abc-123")
                search_graph_events Server.Exhausted in
  forallb clean search_graph_events = true /\
  forallb quotable (str "abc-123") = true /\
  snd (Server.generate_chat_responses (str "hi") None (str "abc-123")
         search_graph_events Server.Exhausted) = Server.Returned /\
  wire_types body
  = map Some [str "checkpoint"; str "content"; str "search_start";
              str "search_results"; str "content"; str "content";
              str "end"] /\
  Server.Exhausted = Server.Exhausted /\
  exists types,
    wire_types body
    = map Some (opening_types None ++ types ++ [str "end"]) /\
    Forall (fun ty => In ty turn_types) types.
Proof.
  intros body. split; [reflexivity|]. split; [reflexivity|].
  split; [reflexivity|]. split; [vm_compute; reflexivity|].
  exact (completed_stream_ends_with_end (str "hi") None (str "abc-123")
           search_graph_events Server.Exhausted eq_refl eq_refl eq_refl).
Defined.

(** C2 on two Turns of a new conversation: the model raises after the
    fragment [Hi] was streamed; the search tool raises after the search
    was announced. *)
Lemma C2_witness :
  let streamed :=
    [Server.on_chat_model_stream
       (Server.AIMessageChunk (Server.Str (str "Hi")))] in
  let announced :=
    [Server.on_chat_model_end
       (Some [{| Server.name := Server.tavily;
                 Server.query := Some (Server.Str (str "weather")) |}])] in
  forallb clean streamed = true /\ forallb clean announced = true /\
  forallb quotable (str "abc") = true /\
  (let body := Response.chat_stream (str "Hello") None (str "abc")
                 (streamed ++ []) Server.Raised in
   snd (Server.generate_chat_responses (str "Hello") None (str "abc")
          (streamed ++ []) Server.Raised) = Server.Propagated /\
   wire_types body = [Some (str "checkpoint"); Some (str "content")] /\
   ~ In (Some (str "error")) (wire_types body) /\
   ~ In (Some (str "end")) (wire_types body)) /\
  (let body := Response.chat_stream (str "Hello") None (str "abc")
                 (announced ++ []) Server.Raised in
   snd (Server.generate_chat_responses (str "Hello") None (str "abc")
          (announced ++ []) Server.Raised) = Server.Propagated /\
   wire_types body = [Some (str "checkpoint"); Some (str "search_start")] /\
   ~ In (Some (str "error")) (wire_types body) /\
   ~ In (Some (str "end")) (wire_types body)).
Proof.
  intros streamed announced.
  split; [reflexivity|]. split; [reflexivity|]. split; [reflexivity|].
  split.
  - destruct (C2_failed_turn_sends_neither_error_nor_end (str "Hello") None
                (str "abc") streamed [] Server.Raised eq_refl eq_refl
                (or_introl (conj eq_refl eq_refl))) as (P & _ & NE & NN).
    split; [exact P|]. split; [vm_compute; reflexivity|].
    split; [exact NE|exact NN].
  - destruct (C2_failed_turn_sends_neither_error_nor_end (str "Hello") None
                (str "abc") announced [] Server.Raised eq_refl eq_refl
                (or_introl (conj eq_refl eq_refl))) as (P & _ & NE & NN).
    split; [exact P|]. split; [vm_compute; reflexivity|].
    split; [exact NE|exact NN].
Defined.

(** C6, as amended: after a search and its results a second
    [search_start] puts the fresh record in place; after a
    [search_start] the results of the search append [Reading]. *)
Lemma C6_witness :
  let started := [wire (Server.search_start (str "weather"))] in
  let again := wire (Server.search_start (str "forecast")) in
  let results := wire (Server.search_results [str "https://example.com/a"]) in
  exists p url s,
    handleSubmit (host := browser) hi_page = (p, Connected url s) /\
    closed (snd (run (host := browser) search_turn (p, s))) = false /\
    closed (snd (run (host := browser) started (p, s))) = false /\
    (let after :=
       dispatch (host := browser) (run (host := browser) search_turn (p, s))
         again in
     let fresh := {| stages := [Searching];
                     query := Some (JString (str "forecast"));
                     urls := Some (JArray []); error := undefined |} in
     searchData (snd after) = Some fresh /\
     exists msg',
       assistant_messages after = [msg'] /\ searchInfo msg' = Some fresh) /\
    ~ is_search_start_event results /\
    exists msg info msg' info',
      assistant_messages (run (host := browser) started (p, s)) = [msg] /\
      searchInfo msg = Some info /\
      assistant_messages
        (dispatch (host := browser) (run (host := browser) started (p, s))
           results) = [msg'] /\
      searchInfo msg' = Some info' /\
      stages info = [Searching] /\ stages info' = [Searching; Reading].
Proof.
  intros started again results. eexists; eexists; eexists.
  split; [reflexivity|]. split; [reflexivity|]. split; [reflexivity|].
  assert (NS : ~ is_search_start_event results).
  { intros (d & v & E & P & T). injection E as <-.
    vm_compute in P. injection P as <-. discriminate T. }
  split; [|split; [exact NS|]].
  - destruct (C6_search_start_resets_the_stage_record (host := browser)
                hi_page _ _ _ search_turn again eq_refl eq_refl) as [R _].
    apply (R (Server.payload (Server.search_start (str "forecast")))
             (JObject [(str "type", JString (str "search_start"));
                       (str "query", JString (str "forecast"))]));
      vm_compute; reflexivity.
  - destruct (proj2 (C6_search_start_resets_the_stage_record
                       (host := browser) hi_page _ _ _ started results
                       eq_refl eq_refl) NS)
      as (msg & info & msg' & info' & A & I & A' & I' & R & _).
    exists msg, info, msg', info'.
    split; [exact A|]. split; [exact I|]. split; [exact A'|].
    split; [exact I'|].
    assert (S : stages info = [Searching])
      by (vm_compute in A; injection A as <-; now injection I as <-).
    split; [exact S|].
    rewrite (R (Server.payload
                  (Server.search_results [str "https://example.com/a"]))
               (Protocol.search_results_event_of [str "https://example.com/a"])
               eq_refl ltac:(vm_compute; reflexivity) eq_refl).
    now rewrite S.
Defined.

(** C5, as amended, on a Turn that fails after the fragment [Partial],
    and on a Turn that ends after a search with no [content] event. *)
Lemma C5_witness :
  let pre := [wire (Server.content (str "Partial"))] in
  exists p url s,
    handleSubmit (host := browser) hi_page = (p, Connected url s) /\
    closed (snd (run (host := browser) pre (p, s))) = false /\
    closed (snd (dispatch (host := browser)
                   (run (host := browser) pre (p, s)) failure)) = true /\
    closed (snd (run (host := browser) search_turn (p, s))) = false /\
    closed (snd (dispatch (host := browser)
                   (run (host := browser) search_turn (p, s))
                   (wire Server.end_))) = true /\
    (exists msg,
        assistant_messages
          (dispatch (host := browser) (run (host := browser) pre (p, s))
             failure) = [msg] /\
        render_content msg = Text (str "Partial")) /\
    (exists msg,
        assistant_messages
          (dispatch (host := browser)
             (run (host := browser) search_turn (p, s)) (wire Server.end_))
        = [msg] /\
        render_content msg = WaitingForResponse).
Proof.
  intros pre. eexists; eexists; eexists. split; [reflexivity|].
  split; [reflexivity|]. split; [reflexivity|].
  split; [reflexivity|]. split; [reflexivity|]. split.
  - destruct (C5_final_message_shows_partial_text_or_stand_in
                (host := browser) hi_page _ _ _ pre failure
                eq_refl eq_refl eq_refl) as (msg & A & T & _).
    exists msg. split; [exact A|]. apply T. vm_compute. discriminate.
  - destruct (C5_final_message_shows_partial_text_or_stand_in
                (host := browser) hi_page _ _ _ search_turn
                (wire Server.end_) eq_refl eq_refl eq_refl)
      as (msg & A & _ & _ & W).
    exists msg. split; [exact A|]. apply W.
    + reflexivity.
    + eexists; eexists. split; [reflexivity|].
      split; [vm_compute; reflexivity|reflexivity].
    + right. constructor. left. eexists; eexists. split; [reflexivity|].
      split; [vm_compute; reflexivity|reflexivity].
Defined.

(** X8 on the input [hi]. *)
Lemma non_blank_submission_is_taken_witness :
  not_blank (currentMessage hi_page) = true /\
  let p := fst (handleSubmit (host := browser) hi_page) in
  let o := snd (handleSubmit (host := browser) hi_page) in
  let n := newMessageId_of (messages hi_page) in
  o <> Ignored /\
  currentMessage p = [] /\ checkpointId p = checkpointId hi_page /\
  messages p
  = messages hi_page
    ++ [user_message n (currentMessage hi_page); placeholder (n + 1)]
    ++ match o with
       | ConnectionFailed => [connection_error_message n]
       | _ => []
       end.
Proof.
  split; [reflexivity|].
  exact (non_blank_submission_is_taken (host := browser) hi_page eq_refl).
Defined.

(** X9 on the input [hi]. *)
Lemma resubmission_is_ignored_witness :
  exists p o,
    handleSubmit (host := browser) hi_page = (p, o) /\ o <> Ignored /\
    handleSubmit (host := browser) p = (p, Ignored).
Proof.
  eexists; eexists. split; [reflexivity|].
  assert (N : snd (handleSubmit (host := browser) hi_page) <> Ignored)
    by discriminate.
  split; [exact N|].
  exact (resubmission_is_ignored (host := browser) hi_page _ _ eq_refl N).
Defined.

(** X10 on the input [hi]. *)
Lemma submission_keeps_ids_distinct_witness :
  exists p o,
    handleSubmit (host := browser) hi_page = (p, o) /\
    o <> ConnectionFailed /\
    NoDup (map id (messages hi_page)) /\
    NoDup (map id (messages p)) /\
    NoDup (map View.key
             (View.MessageArea (host := browser) (renderer := browser_renderer)
                (messages p))).
Proof.
  eexists; eexists. split; [reflexivity|].
  assert (N : snd (handleSubmit (host := browser) hi_page)
              <> ConnectionFailed) by discriminate.
  assert (D : NoDup (map id (messages hi_page)))
    by (repeat constructor; simpl; tauto).
  split; [exact N|]. split; [exact D|].
  exact (submission_keeps_ids_distinct (host := browser)
           (renderer := browser_renderer) hi_page _ _ eq_refl N D).
Defined.

(** X11 on the input [hi]. *)
Lemma request_path_is_encoded_witness :
  exists p url s,
    handleSubmit (host := browser) hi_page = (p, Connected url s) /\
    forallb code_unit (currentMessage hi_page) = true /\
    exists segment rest,
      encodeURIComponent (currentMessage hi_page) = Some segment /\
      url = endpoint ++ segment ++ rest /\
      forallb segment_character segment = true /\
      (rest = [] \/ exists c, rest = str "?checkpoint_id=" ++ c).
Proof.
  eexists; eexists; eexists. split; [reflexivity|]. split; [reflexivity|].
  exact (request_path_is_encoded (host := browser) hi_page _ _ _
           eq_refl eq_refl).
Defined.

(** X12 on the thread id [abc-123] and the next input [more]. *)
Lemma next_request_carries_the_checkpoint_witness :
  let st := submitted (host := browser) hi_page in
  closed (snd st) = false /\ str "abc-123" <> [] /\
  forallb URI.unreserved (str "abc-123") = true /\
  let p := fst (dispatch (host := browser) st
                  (wire (Server.checkpoint (str "abc-123")))) in
  messages p = messages (fst st) /\
  forall p' url s',
    handleSubmit (host := browser) (InputBar.handleChange (str "more") p)
    = (p', Connected url s') ->
    exists segment,
      encodeURIComponent (str "more") = Some segment /\
      url = endpoint ++ segment ++ str "?checkpoint_id=" ++ str "abc-123".
Proof.
  intros st.
  assert (N : str "abc-123" <> []) by discriminate.
  split; [reflexivity|]. split; [exact N|]. split; [reflexivity|].
  exact (next_request_carries_the_checkpoint (host := browser) st
           (str "abc-123") (str "more") eq_refl N eq_refl).
Defined.

(** X13 on a [content] event that holds its type and nothing else. *)
Lemma content_without_text_is_appended_witness :
  let st := submitted (host := browser) hi_page in
  let event_data :=
    Server.object [Server.member (str "type")
                     (Server.quoted (str "content"))] in
  let data := JObject [(str "type", JString (str "content"))] in
  closed (snd st) = false /\ JSON.parse event_data = Some data /\
  event_type data = Some (str "content") /\
  let st' := dispatch (host := browser) st (message event_data) in
  (prop data (str "content") = None ->
   streamedContent (snd st') = streamedContent (snd st) ++ str "undefined") /\
  (prop data (str "content") = Some JNull ->
   streamedContent (snd st') = streamedContent (snd st) ++ str "null").
Proof.
  intros st event_data data.
  split; [reflexivity|]. split; [reflexivity|]. split; [reflexivity|].
  exact (content_without_text_is_appended (host := browser) st event_data
           data eq_refl eq_refl eq_refl).
Defined.

(** X14 on an event whose [urls] member is the text of an array. *)
Lemma search_results_may_hold_text_witness :
  let st := submitted (host := browser) hi_page in
  let urls_text := Server.dumps_list [str "https://example.com/a"] in
  let event_data :=
    Server.object
      [Server.member (str "type") (Server.quoted (str "search_results"));
       Server.member (str "urls") (Server.dumps_string urls_text)] in
  let data := JObject [(str "type", JString (str "search_results"));
                       (str "urls", JString urls_text)] in
  closed (snd st) = false /\ JSON.parse event_data = Some data /\
  event_type data = Some (str "search_results") /\
  prop data (str "urls") = Some (JString urls_text) /\
  dispatch (host := browser) st (message event_data)
  = match JSON.parse urls_text with
    | Some parsed =>
      show_search
        {| stages := stages_with (searchData (snd st)) Reading;
           query := query_or_empty (host := browser) (searchData (snd st));
           urls := Some parsed; error := undefined |} st
    | None => st
    end.
Proof.
  intros st urls_text event_data data.
  split; [reflexivity|]. split; [reflexivity|]. split; [reflexivity|].
  split; [reflexivity|].
  exact (search_results_may_hold_text (host := browser) st event_data
           urls_text data eq_refl eq_refl eq_refl eq_refl).
Defined.

(** X15 on the fragment [Hi], followed by the end of the stream. *)
Lemma typing_animation_ends_with_the_first_content_witness :
  let e := wire (Server.content (str "Hi")) in
  exists p url s,
    handleSubmit (host := browser) hi_page = (p, Connected url s) /\
    closed (snd (run (host := browser) [] (p, s))) = false /\
    content_event (str "Hi") e /\
    exists msg,
      assistant_messages
        (run (host := browser) ([] ++ e :: [wire Server.end_]) (p, s))
      = [msg] /\
      render_content msg <> PremiumTypingAnimation.
Proof.
  intros e. eexists; eexists; eexists. split; [reflexivity|].
  split; [reflexivity|].
  assert (E : content_event (str "Hi") e).
  { eexists; eexists. split; [reflexivity|].
    split; [vm_compute; reflexivity|]. split; reflexivity. }
  split; [exact E|].
  exact (typing_animation_ends_with_the_first_content (host := browser)
           hi_page _ _ _ [] [wire Server.end_] e (str "Hi")
           eq_refl eq_refl E).
Defined.

(** X16 on a record whose stages stand out of order and twice. *)
Lemma panel_order_is_fixed_witness :
  let info := {| stages := [Reading; Writing; Searching; Reading];
                 query := Some (JString (str "weather"));
                 urls := Some (JArray [JString (str "https://example.com/a")]);
                 error := undefined |} in
  let parts := [View.SearchingTheWeb true (Some (JString (str "weather")));
                View.ReadingSources
                  (View.Chips [str "https://example.com/a"]);
                View.WritingAnswer] in
  View.SearchStages (host := browser) (renderer := browser_renderer)
    (Some info) = View.Panel parts /\
  StronglySorted lt (map View.part_rank parts) /\
  forall stage,
    In stage (stages info)
    <-> In (View.stage_rank stage) (map View.part_rank parts).
Proof.
  intros info parts. split; [reflexivity|].
  exact (panel_order_is_fixed (host := browser) (renderer := browser_renderer)
           info parts eq_refl).
Defined.

(** X17 on a Turn of one fragment and the end. *)
Lemma turn_without_search_shows_no_panel_witness :
  let events := [wire (Server.content (str "Hi")); wire Server.end_] in
  exists p url s,
    handleSubmit (host := browser) hi_page = (p, Connected url s) /\
    Forall (fun e => ~ is_search_start_event e /\
                     ~ is_search_progress_event e) events /\
    exists msg,
      assistant_messages (run (host := browser) events (p, s)) = [msg] /\
      View.search_status (host := browser) (renderer := browser_renderer) msg
      = View.Null.
Proof.
  intros events. eexists; eexists; eexists. split; [reflexivity|].
  assert (F : Forall (fun e => ~ is_search_start_event e /\
                               ~ is_search_progress_event e) events).
  { repeat constructor.
    - intros (d & v & X & P & T). injection X as <-.
      vm_compute in P. injection P as <-. discriminate T.
    - intros (d & v & X & P & [T|T]); injection X as <-;
        vm_compute in P; injection P as <-; discriminate T.
    - intros (d & v & X & P & T). injection X as <-.
      vm_compute in P. injection P as <-. discriminate T.
    - intros (d & v & X & P & [T|T]); injection X as <-;
        vm_compute in P; injection P as <-; discriminate T. }
  split; [exact F|].
  exact (turn_without_search_shows_no_panel (host := browser)
           (renderer := browser_renderer) hi_page _ _ _ events eq_refl F).
Defined.

(** X18 on one URL. *)
Lemma reported_urls_are_listed_witness :
  let urls_ := [str "https://example.com/a"] in
  exists p url s,
    handleSubmit (host := browser) hi_page = (p, Connected url s) /\
    closed (snd (run (host := browser) [] (p, s))) = false /\
    forallb (forallb code_unit) urls_ = true /\
    let st := dispatch (host := browser) (run (host := browser) [] (p, s))
                (wire (Server.search_results urls_)) in
    exists msg parts,
      assistant_messages st = [msg] /\
      View.search_status (host := browser) (renderer := browser_renderer) msg
      = View.Panel parts /\
      In (View.ReadingSources (View.Chips urls_)) parts.
Proof.
  intros urls_. eexists; eexists; eexists. split; [reflexivity|].
  split; [reflexivity|]. split; [reflexivity|].
  exact (reported_urls_are_listed (host := browser)
           (renderer := browser_renderer) hi_page _ _ _ [] urls_
           eq_refl eq_refl eq_refl).
Defined.

(** X19 on the query [weather]. *)
Lemma search_start_shows_the_query_witness :
  let event_data := Server.payload (Server.search_start (str "weather")) in
  let data := search_start_event_of (str "weather") in
  exists p url s,
    handleSubmit (host := browser) hi_page = (p, Connected url s) /\
    closed (snd (run (host := browser) [] (p, s))) = false /\
    JSON.parse event_data = Some data /\
    event_type data = Some (str "search_start") /\
    exists msg,
      assistant_messages
        (dispatch (host := browser) (run (host := browser) [] (p, s))
           (message event_data)) = [msg] /\
      View.search_status (host := browser) (renderer := browser_renderer) msg
      = View.Panel [View.SearchingTheWeb false (prop data (str "query"))].
Proof.
  intros event_data data. eexists; eexists; eexists.
  split; [reflexivity|]. split; [reflexivity|]. split; [reflexivity|].
  split; [reflexivity|].
  exact (search_start_shows_the_query (host := browser)
           (renderer := browser_renderer) hi_page _ _ _ [] event_data data
           eq_refl eq_refl eq_refl eq_refl).
Defined.

(** X20 on a [search_error] event that holds no error text. *)
Lemma search_error_is_shown_witness :
  let event_data :=
    Server.object [Server.member (str "type")
                     (Server.quoted (str "search_error"))] in
  let data := JObject [(str "type", JString (str "search_error"))] in
  exists p url s,
    handleSubmit (host := browser) hi_page = (p, Connected url s) /\
    closed (snd (run (host := browser) [] (p, s))) = false /\
    JSON.parse event_data = Some data /\
    event_type data = Some (str "search_error") /\
    exists msg parts,
      assistant_messages
        (dispatch (host := browser) (run (host := browser) [] (p, s))
           (message event_data)) = [msg] /\
      View.search_status (host := browser) (renderer := browser_renderer) msg
      = View.Panel parts /\
      In (View.SearchErrorNote
            (js_or (host := browser) (prop data (str "error"))
               (Some (JString View.default_search_error)))) parts /\
      (prop data (str "error") = None ->
       In (View.SearchErrorNote (Some (JString View.default_search_error)))
          parts).
Proof.
  intros event_data data. eexists; eexists; eexists.
  split; [reflexivity|]. split; [reflexivity|]. split; [reflexivity|].
  split; [reflexivity|].
  exact (search_error_is_shown (host := browser)
           (renderer := browser_renderer) hi_page _ _ _ [] event_data data
           eq_refl eq_refl eq_refl eq_refl).
Defined.

(** X21 on a state in which the model asks for one search. *)
Lemma tool_node_answers_each_search_call_witness :
  let out := [Agent.ToolMessage (str "weather") (str "call_1")
                Server.tavily] in
  Agent.tool_node echo_search (@concat N) asking_state = Some out /\
  exists content_ tool_calls,
    Agent.last_message asking_state
    = Some (Agent.AIMessage content_ tool_calls) /\
    Forall2 (Agent.answers echo_search (@concat N))
      (filter Agent.is_search tool_calls) out.
Proof.
  intros out. split; [reflexivity|].
  exact (tool_node_answers_each_search_call text text (list text)
           echo_search (@concat N) asking_state out eq_refl).
Defined.

(** X22 on the same state. *)
Lemma tool_node_fails_only_with_the_search_witness :
  Agent.tools_router asking_state = Some Agent.to_tool_node /\
  exists content_ tool_calls,
    Agent.last_message asking_state
    = Some (Agent.AIMessage content_ tool_calls) /\
    tool_calls <> [] /\
    (Agent.tool_node echo_search (@concat N) asking_state = None <->
     exists tool_call,
       In tool_call tool_calls /\ Agent.is_search tool_call = true /\
       echo_search (Agent.args tool_call) = None).
Proof.
  split; [reflexivity|].
  exact (tool_node_fails_only_with_the_search text text (list text)
           echo_search (@concat N) asking_state eq_refl).
Defined.

End FurtherExamples.
